(** * CSVSplitterConverter: size-aware chunked CSV to Parquet conversion

    A shallow embedding of [csv_splitter_converter.py].  The three methods
    of [CSVSplitterConverter] ([estimate_rows_per_chunk], [get_total_rows],
    [split_and_convert]) are Rocq functions over an explicit [world]
    (the file system and the standard output); exceptions are values of
    [outcome]; the instance attributes are a record.

    pandas, pyarrow and the operating system are collaborators of the
    program.  They are modelled at the interface the program uses:
    - a CSV file is its column labels as pandas makes them (pairwise
      distinct) and its data lines as the pandas tokenizer classifies
      them (a record, a bad line, a line that does not decode);
    - a [float] is an IEEE 754 binary64 number, with the rounding and the
      overflow of the standard library's [SpecFloat];
    - [read_rows] is one read of at most [n] records, [TextFileReader] the
      chunk iterator built on it;
    - what is decided outside the program (the memory footprint of a
      frame, whether a directory can be made, whether a write succeeds)
      is a field of the environment [Env].
    A reader keeps the lines its file had when it was opened.  The
    progress bar of tqdm goes to the standard error and is left out.

    The functions of [csv_to_parquet.py] ([convert_csv_to_parquet],
    [batch_convert_csv_to_parquet]) and of [parquet_viewer.py]
    ([view_parquet]) follow in sections of their own, over the same
    [world]; the lines they print are returned beside it, with one type
    of message per module.  The command-line entry points ([main]) are
    left out. *)

From Stdlib Require Import ZArith QArith Qround Qpower Lia.
From Stdlib Require Import Floats.SpecFloat.
From Stdlib Require Import Strings.String Strings.Ascii.
From Stdlib Require Import Numbers.DecimalString Numbers.DecimalN.
From stdpp Require Import base option list gmap strings.
From Equations Require Import Equations.

Local Open Scope string_scope.

(** ** Exceptions and results *)

(** The exception classes the code can meet; all derive from [Exception],
    so every [except Exception] clause catches each of them. *)
Inductive exn : Type :=
  | FileNotFoundError
  | ParserError
  | UnicodeDecodeError
  | ValueError
  | OverflowError
  | OSError
  | ArrowInvalid.

(** The result of evaluating a Python expression or statement. *)
Inductive outcome (A : Type) : Type :=
  | Return (a : A)
  | Raise (e : exn).
Arguments Return {A} a.
Arguments Raise {A} e.

Definition is_return {A} (o : outcome A) : bool :=
  match o with Return _ => true | Raise _ => false end.

(** ** Floating-point values

    A Python [float] and a [numpy.float64] are IEEE 754 binary64
    numbers: [spec_float] with a precision of 53 bits and [emax = 1024].
    Products and quotients are rounded to the nearest number, ties to
    even, and overflow to an infinity, as [SFmul] and [SFdiv] of the
    standard library specify them. *)
Definition pyfloat : Type := spec_float.

(** The number nearest to [m * 2 ^ e]: that number itself when
    [|m| < 2 ^ 53] and it is in range. *)
Definition dyadic (m e : Z) : pyfloat := binary_normalize 53 1024 m e false.

(** The conversion of an integer to binary64, as numpy converts the
    operands of a true division of integers. *)
Definition int_to_float (n : Z) : pyfloat := dyadic n 0.

(** [x * k] for a float [x] and an [int] [k]: Python converts [k] to a
    float first, and raises [OverflowError] when [k] is too large for
    one. *)
Definition float_mul_int (x : pyfloat) (k : Z) : outcome pyfloat :=
  match int_to_float k with
  | S754_infinity _ => Raise OverflowError
  | y => Return (SFmul 53 1024 x y)
  end.

(** numpy's [true_divide] on scalars: the IEEE quotient; dividing by
    zero gives an infinity or a NaN and a [RuntimeWarning], no
    exception is raised. *)
Definition np_true_divide (x y : pyfloat) : pyfloat := SFdiv 53 1024 x y.

(** [int(x)]: truncation toward zero; [OverflowError] on an infinity and
    [ValueError] on a NaN. *)
Definition py_int (x : pyfloat) : outcome Z :=
  match x with
  | S754_zero _ => Return 0%Z
  | S754_finite s m e => Return (cond_Zopp s (Z.shiftl (Z.pos m) e))
  | S754_infinity _ => Raise OverflowError
  | S754_nan => Raise ValueError
  end.

(** A zero or another finite number. *)
Definition is_finite (x : pyfloat) : bool :=
  match x with
  | S754_zero _ | S754_finite _ _ _ => true
  | _ => false
  end.

(** The rational number a finite float stands for. *)
Definition float_value (x : pyfloat) : Q :=
  match x with
  | S754_finite s m e => inject_Z (cond_Zopp s (Z.pos m)) * 2 ^ e
  | _ => 0
  end.

(** The exponent of a finite float and its value as a multiple of
    [2 ^ e0], for [e0] not above the exponent. *)
Definition float_exponent (x : pyfloat) : Z :=
  match x with
  | S754_finite _ _ e => e
  | _ => 0%Z
  end.

Definition float_scaled (e0 : Z) (x : pyfloat) : Z :=
  match x with
  | S754_finite s m e => cond_Zopp s (Z.pos m * 2 ^ (e - e0))%Z
  | _ => 0%Z
  end.

(** [x < y] on floats, by value; every comparison with a NaN is false. *)
Definition float_lt (x y : pyfloat) : Prop :=
  match x, y with
  | S754_nan, _ | _, S754_nan => False
  | S754_infinity true, S754_infinity true => False
  | S754_infinity true, _ => True
  | _, S754_infinity true => False
  | S754_infinity false, _ => False
  | _, S754_infinity false => True
  | _, _ =>
      let e0 := Z.min (float_exponent x) (float_exponent y) in
      (float_scaled e0 x < float_scaled e0 y)%Z
  end.

(** The sign bit of a float is [s]; a NaN has none. *)
Definition has_sign (s : bool) (x : pyfloat) : Prop :=
  match x with
  | S754_zero s' | S754_finite s' _ _ | S754_infinity s' => s' = s
  | S754_nan => False
  end.

(** [math.ceil(a / b)] for [int]s [a] and [b > 0]. *)
Definition math_ceil_div (a b : Z) : Z := (- ((- a) / b))%Z.

(** ** Files *)

(** A [pathlib.Path] as its sequence of components; [dir / name] appends
    one component. *)
Definition path : Type := list string.

Definition path_join (dir : path) (name : string) : path := (dir ++ [name])%list.

Definition path_name (p : path) : string := List.last p "".

(** One parsed CSV record: its field values. *)
Definition row : Type := list string.

(** A data line of a CSV file, as the pandas tokenizer classifies it. *)
Inductive line : Type :=
  | Row (r : row)        (* a well-formed record *)
  | BadLine              (* too many fields: the [on_bad_lines] policy applies *)
  | Undecodable.         (* bytes that are not UTF-8: always an error *)

(** Labels that are pairwise distinct. *)
Fixpoint distinct (labels : list string) : bool :=
  match labels with
  | [] => true
  | label :: rest => negb (existsb (String.eqb label) rest) && distinct rest
  end.

(** A CSV file as pandas parses it: the column labels of the header
    row, which pandas makes pairwise distinct (a repeated name [a] is
    renamed [a.1], [a.2], ...), and the data lines. *)
Record csv : Type :=
  { csv_header : list string;
    csv_lines : list line;
    csv_distinct : distinct csv_header = true }.

(** A pandas DataFrame with the default [RangeIndex] starting at
    [df_start]. *)
Record DataFrame : Type :=
  { df_columns : list string; df_start : nat; df_rows : list row }.

Definition df_len (df : DataFrame) : nat := length (df_rows df).

Definition df_index (df : DataFrame) : list nat := seq (df_start df) (df_len df).

(** The content of a Parquet file: the schema's column names, the index
    column when one was stored, and the records. *)
Record parquet : Type :=
  { pq_columns : list string; pq_index : option (list nat); pq_rows : list row }.

Inductive node : Type :=
  | CsvFile (c : csv)
  | ParquetFile (p : parquet)
  | PartialFile.          (* what an interrupted write leaves behind *)

(** How a write of a Parquet file ends. *)
Inductive write_result : Type :=
  | Stored                (* the whole file is at the path *)
  | Refused (e : exn)     (* an error before anything is written *)
  | Torn (e : exn).       (* an error midway: a partial file is at the path *)

(** Messages printed on the standard output, one constructor per [print]
    of the module. *)
Inductive message : Type :=
  | ErrorEstimating (e : exn)
  | WarningCount (e : exn)
  | ProceedingChunkBased
  | TotalRows (n : Z)
  | TotalUnknown
  | Processing (input_csv : path)
  | EstimatedRows (n : Z)
  | ExpectedChunks (n : Z)
  | CreatedCount (n : nat)
  | CreatedFile (name : string) (size : N)
  | ErrorDuringConversion (e : exn).

Record world : Type :=
  { files : gmap path node; stdout : list message }.

Definition print (m : message) (w : world) : world :=
  {| files := files w; stdout := (stdout w ++ [m])%list |}.

(** What the libraries and the operating system decide. *)
Record Env : Type :=
  { memory_usage : DataFrame -> N;
      (* [df.memory_usage(deep=True).sum()], a byte count *)
    file_size : node -> N;
      (* the size [os.path.getsize] reports for a file *)
    mkdir_ok : path -> bool;
      (* the directory exists or can be created with its parents *)
    disk : gmap path node -> path -> parquet -> write_result }.
      (* how writing a Parquet file at a path ends *)

(** ** Reading CSV files with pandas *)

(** The [on_bad_lines] argument of [pd.read_csv]; [OnBadError] is the
    default. *)
Inductive bad_lines_policy : Type := OnBadError | OnBadSkip.

(** One read of the parser: at most [n] records from the lines ahead,
    with the lines left unread.  A skipped bad line does not count toward
    [n]; the lines after the [n]-th record are not looked at. *)
Fixpoint read_rows (on_bad_lines : bad_lines_policy) (n : N) (ls : list line)
  : outcome (list row * list line) :=
  match ls with
  | [] => Return ([], [])
  | l :: tl =>
      if (n =? 0)%N then Return ([], ls) else
      match l with
      | Row r =>
          match read_rows on_bad_lines (N.pred n) tl with
          | Return (rs, rest) => Return (r :: rs, rest)
          | Raise e => Raise e
          end
      | BadLine =>
          match on_bad_lines with
          | OnBadSkip => read_rows on_bad_lines n tl
          | OnBadError => Raise ParserError
          end
      | Undecodable => Raise UnicodeDecodeError
      end
  end.

(** Opening a path for reading as CSV. *)
Definition open_csv (w : world) (csv_path : path) : outcome csv :=
  match files w !! csv_path with
  | Some (CsvFile c) => Return c
  | Some _ => Raise UnicodeDecodeError
  | None => Raise FileNotFoundError
  end.

(** [pd.read_csv(csv_path, nrows=nrows, encoding='utf-8', on_bad_lines=...)] *)
Definition read_csv_nrows (w : world) (csv_path : path) (nrows : N)
    (on_bad_lines : bad_lines_policy) : outcome DataFrame :=
  match open_csv w csv_path with
  | Raise e => Raise e
  | Return c =>
      match read_rows on_bad_lines nrows (csv_lines c) with
      | Raise e => Raise e
      | Return (rs, _) =>
          Return {| df_columns := csv_header c; df_start := 0; df_rows := rs |}
      end
  end.

(** The iterator [pd.read_csv(..., chunksize=...)] returns: the lines
    still ahead, the number of records already yielded, and whether the
    next chunk is the first one. *)
Record TextFileReader : Type :=
  { tfr_columns : list string;
    tfr_on_bad_lines : bad_lines_policy;
    tfr_chunksize : N;
    tfr_pos : nat;
    tfr_first : bool;
    tfr_rest : list line }.

(** [pd.read_csv(csv_path, chunksize=chunksize, encoding='utf-8',
    on_bad_lines=...)]; pandas refuses a chunk size below 1. *)
Definition read_csv_chunks (w : world) (csv_path : path) (chunksize : Z)
    (on_bad_lines : bad_lines_policy) : outcome TextFileReader :=
  match open_csv w csv_path with
  | Raise e => Raise e
  | Return c =>
      if (chunksize <? 1)%Z then Raise ValueError else
      Return {| tfr_columns := csv_header c;
                tfr_on_bad_lines := on_bad_lines;
                tfr_chunksize := Z.to_N chunksize;
                tfr_pos := 0;
                tfr_first := true;
                tfr_rest := csv_lines c |}
  end.

(** [next(reader)]: [None] is [StopIteration].  The first chunk is
    yielded even when it has no record; after it, a read that finds no
    record ends the iteration. *)
Definition next_chunk (r : TextFileReader)
  : option (outcome DataFrame * TextFileReader) :=
  match read_rows (tfr_on_bad_lines r) (tfr_chunksize r) (tfr_rest r) with
  | Raise e => Some (Raise e, r)
  | Return (rs, rest) =>
      match rs, tfr_first r with
      | [], false => None
      | _, _ =>
          Some (Return {| df_columns := tfr_columns r;
                          df_start := tfr_pos r;
                          df_rows := rs |},
                {| tfr_columns := tfr_columns r;
                   tfr_on_bad_lines := tfr_on_bad_lines r;
                   tfr_chunksize := tfr_chunksize r;
                   tfr_pos := tfr_pos r + length rs;
                   tfr_first := false;
                   tfr_rest := rest |})
      end
  end.

(** The measure that decreases at every chunk of a reader with a chunk
    size of at least 1. *)
Definition tfr_measure (r : TextFileReader) : nat :=
  length (tfr_rest r) + (if tfr_first r then 1 else 0).

Lemma read_rows_rest_le pol n ls rs rest :
  read_rows pol n ls = Return (rs, rest) -> length rest <= length ls.
Proof.
  revert n rs rest. induction ls as [|l tl IH]; intros n rs rest; simpl.
  - intros [= <- <-]. simpl. lia.
  - destruct (n =? 0)%N.
    + intros [= <- <-]. simpl. lia.
    + destruct l as [r| |]; try discriminate.
      * destruct (read_rows pol (N.pred n) tl) as [[rs' rest']|e] eqn:E;
          [|discriminate].
        intros [= <- <-]. apply IH in E. lia.
      * destruct pol; [discriminate|]. intros E. apply IH in E. lia.
Qed.

Lemma read_rows_rest_lt pol n ls r rs rest :
  read_rows pol n ls = Return (r :: rs, rest) -> length rest < length ls.
Proof.
  revert n r rs rest. induction ls as [|l tl IH]; intros n r rs rest; simpl.
  - discriminate.
  - destruct (n =? 0)%N; [discriminate|].
    destruct l as [r0| |]; try discriminate.
    + destruct (read_rows pol (N.pred n) tl) as [[rs' rest']|e] eqn:E;
        [|discriminate].
      intros [= <- <- <-]. apply read_rows_rest_le in E. lia.
    + destruct pol; [discriminate|]. intros E. apply IH in E. lia.
Qed.

Lemma next_chunk_measure r df r' :
  next_chunk r = Some (Return df, r') -> tfr_measure r' < tfr_measure r.
Proof.
  unfold next_chunk, tfr_measure.
  destruct (read_rows _ _ _) as [[rs rest]|e] eqn:E; [|discriminate].
  destruct rs as [|r0 rs].
  - destruct (tfr_first r); [|discriminate].
    intros [= <- <-]. simpl. apply read_rows_rest_le in E. lia.
  - intros H.
    assert (r' = {| tfr_columns := tfr_columns r;
                    tfr_on_bad_lines := tfr_on_bad_lines r;
                    tfr_chunksize := tfr_chunksize r;
                    tfr_pos := tfr_pos r + length (r0 :: rs);
                    tfr_first := false;
                    tfr_rest := rest |}) as ->
      by (destruct (tfr_first r); congruence).
    simpl. apply read_rows_rest_lt in E. destruct (tfr_first r); lia.
Qed.

(** A value together with the equation that names it, for the [with]
    clause of [iterate]. *)
Definition inspect {A} (a : A) : {b : A | a = b} := exist _ a eq_refl.

(** The sequence of values a [for] loop over the reader receives: the
    chunks in order, ended by [StopIteration] or by the exception the
    reader raises. *)
Equations? iterate (r : TextFileReader) : list (outcome DataFrame)
    by wf (tfr_measure r) lt :=
  iterate r with inspect (next_chunk r) => {
    | exist _ None _ := [];
    | exist _ (Some (Raise e, _)) _ := [Raise e];
    | exist _ (Some (Return df, r')) H := Return df :: iterate r' }.
Proof. eapply next_chunk_measure; eassumption. Qed.

(** ** Writing Parquet files *)

(** The Parquet content [df.to_parquet(_, index=index)] encodes. *)
Definition encode_parquet (df : DataFrame) (index : bool) : parquet :=
  {| pq_columns := df_columns df;
     pq_index := if index then Some (df_index df) else None;
     pq_rows := df_rows df |}.

(** [df.to_parquet(output_file, index=index)]: the file is written at
    [output_file] itself. *)
Definition to_parquet (env : Env) (df : DataFrame) (output_file : path)
    (index : bool) (w : world) : world * outcome unit :=
  let pq := encode_parquet df index in
  match disk env (files w) output_file pq with
  | Stored =>
      ({| files := <[output_file := ParquetFile pq]> (files w);
          stdout := stdout w |}, Return tt)
  | Refused e => (w, Raise e)
  | Torn e =>
      ({| files := <[output_file := PartialFile]> (files w);
          stdout := stdout w |}, Raise e)
  end.

(** [pd.read_parquet(file_path)]: a schema that repeats a column name
    is refused; a stored index is restored, a file without one gets the
    default [RangeIndex] from 0. *)
Definition read_parquet (w : world) (file_path : path) : outcome DataFrame :=
  match files w !! file_path with
  | Some (ParquetFile pq) =>
      if distinct (pq_columns pq)
      then Return {| df_columns := pq_columns pq;
                     df_start := match pq_index pq with
                                 | Some (first :: _) => first
                                 | _ => 0
                                 end;
                     df_rows := pq_rows pq |}
      else Raise ArrowInvalid
  | Some _ => Raise ArrowInvalid
  | None => Raise FileNotFoundError
  end.

(** [os.path.getsize(file)] *)
Definition getsize (env : Env) (w : world) (file : path) : outcome N :=
  match files w !! file with
  | Some nd => Return (file_size env nd)
  | None => Raise OSError
  end.

(** [output_dir.mkdir(parents=True, exist_ok=True)] *)
Definition mkdir (env : Env) (output_dir : path) : outcome unit :=
  if mkdir_ok env output_dir then Return tt else Raise OSError.

(** ** Output file names *)

Fixpoint zeros (k : nat) : string :=
  match k with O => "" | S k' => String "0" (zeros k') end.

(** [f"{n:04d}"] for [n >= 0]: the decimal digits of [n], padded with
    zeros on the left to a width of 4. *)
Definition format_04d (n : N) : string :=
  let digits := NilZero.string_of_uint (N.to_uint n) in
  zeros (4 - String.length digits) +:+ digits.

(** [f"chunk_{chunk_num:04d}.parquet"] *)
Definition chunk_file_name (chunk_num : N) : string :=
  "chunk_" +:+ format_04d chunk_num +:+ ".parquet".

(** The name of the file of segment number [chunk_num], the counter of
    [enumerate]. *)
Definition chunk_name (chunk_num : nat) : string :=
  chunk_file_name (N.of_nat chunk_num).

(** ** The converter *)

(** The attributes of a [CSVSplitterConverter] instance. *)
Record CSVSplitterConverter : Type :=
  { chunk_size_mb : pyfloat; bytes_per_mb : Z }.

(** [CSVSplitterConverter(chunk_size_mb)]; the default argument is 250. *)
Definition init (chunk_size_mb : pyfloat) : CSVSplitterConverter :=
  {| chunk_size_mb := chunk_size_mb; bytes_per_mb := 1024 * 1024 |}.

Definition default_chunk_size_mb : pyfloat := dyadic 250 0.

Section Converter.

Variable env : Env.

(** The body of the [try] of [estimate_rows_per_chunk]. *)
Definition estimate_rows_per_chunk_try (self : CSVSplitterConverter)
    (w : world) (csv_path : path) (chunk_size_mb : pyfloat) : outcome Z :=
  let sample_size := 1000%N in
  match read_csv_nrows w csv_path sample_size OnBadSkip with
  | Raise e => Raise e
  | Return sample_df =>
      let sample_memory := memory_usage env sample_df in
      let avg_row_size :=
        np_true_divide (int_to_float (Z.of_N sample_memory))
                       (int_to_float (Z.of_nat (df_len sample_df))) in
      match float_mul_int chunk_size_mb (bytes_per_mb self) with
      | Raise e => Raise e
      | Return target_chunk_size =>
          match py_int (np_true_divide target_chunk_size avg_row_size) with
          | Raise e => Raise e
          | Return k => Return (Z.max 1000 k)
          end
      end
  end.

Definition estimate_rows_per_chunk (self : CSVSplitterConverter)
    (csv_path : path) (chunk_size_mb : pyfloat) (w : world) : world * outcome Z :=
  match estimate_rows_per_chunk_try self w csv_path chunk_size_mb with
  | Return rows_per_chunk => (w, Return rows_per_chunk)
  | Raise e => (print (ErrorEstimating e) w, Return 10000%Z)
  end.

(** [sum(len(chunk) for chunk in reader)]; an exception of the reader
    ends the sum. *)
Fixpoint sum_len (chunks : list (outcome DataFrame)) : outcome Z :=
  match chunks with
  | [] => Return 0%Z
  | Raise e :: _ => Raise e
  | Return chunk :: rest =>
      match sum_len rest with
      | Return n => Return (Z.of_nat (df_len chunk) + n)%Z
      | Raise e => Raise e
      end
  end.

(** The body of the [try] of [get_total_rows]. *)
Definition get_total_rows_try (w : world) (csv_path : path) : outcome Z :=
  match read_csv_chunks w csv_path 10000 OnBadError with
  | Raise e => Raise e
  | Return reader => sum_len (iterate reader)
  end.

(** [None] is Python's [None]. *)
Definition get_total_rows (self : CSVSplitterConverter) (csv_path : path)
    (w : world) : world * outcome (option Z) :=
  match get_total_rows_try w csv_path with
  | Return total_rows => (w, Return (Some total_rows))
  | Raise e => (print ProceedingChunkBased (print (WarningCount e) w), Return None)
  end.

(** The [for chunk_num, chunk in enumerate(pbar)] loop, from chunk number
    [chunk_num] on; [created_files] is the list the loop appends to, and
    it is returned also when the loop ends in an exception. *)
Fixpoint convert_chunks (output_dir : path) (chunks : list (outcome DataFrame))
    (chunk_num : nat) (created_files : list path) (w : world)
  : world * list path * outcome unit :=
  match chunks with
  | [] => (w, created_files, Return tt)
  | Raise e :: _ => (w, created_files, Raise e)
  | Return chunk :: rest =>
      let output_file := path_join output_dir (chunk_name chunk_num) in
      match to_parquet env chunk output_file false w with
      | (w, Raise e) => (w, created_files, Raise e)
      | (w, Return _) =>
          let created_files := (created_files ++ [output_file])%list in
          match getsize env w output_file with
          | Raise e => (w, created_files, Raise e)
          | Return chunk_size =>
              convert_chunks output_dir rest (S chunk_num) created_files w
          end
      end
  end.

(** The listing printed after the loop: one line per created file. *)
Fixpoint print_created (created_files : list path) (w : world)
  : world * outcome unit :=
  match created_files with
  | [] => (w, Return tt)
  | file :: rest =>
      match getsize env w file with
      | Raise e => (w, Raise e)
      | Return size => print_created rest (print (CreatedFile (path_name file) size) w)
      end
  end.

(** The body of the [try] of [split_and_convert], with the value of
    [created_files] when it ends. *)
Definition split_and_convert_try (input_csv output_dir : path)
    (rows_per_chunk : Z) (w : world) : world * list path * outcome unit :=
  match read_csv_chunks w input_csv rows_per_chunk OnBadSkip with
  | Raise e => (w, [], Raise e)
  | Return chunk_iterator =>
      match convert_chunks output_dir (iterate chunk_iterator) 0 [] w with
      | (w, created_files, Raise e) => (w, created_files, Raise e)
      | (w, created_files, Return _) =>
          let w := print (CreatedCount (length created_files)) w in
          match print_created created_files w with
          | (w, Raise e) => (w, created_files, Raise e)
          | (w, Return _) => (w, created_files, Return tt)
          end
      end
  end.

(** Python truth value of [total_rows]: [None] and [0] are false. *)
Definition truthy (total_rows : option Z) : bool :=
  match total_rows with
  | Some n => negb (n =? 0)%Z
  | None => false
  end.

(** [split_and_convert] from the line after [get_total_rows] returned
    [total_rows]. *)
Definition split_and_convert_from (self : CSVSplitterConverter)
    (input_csv output_dir : path) (total_rows : option Z) (w : world)
  : world * outcome (list path) :=
  match estimate_rows_per_chunk self input_csv (chunk_size_mb self) w with
  | (w, Raise e) => (w, Raise e)
  | (w, Return rows_per_chunk) =>
      let '(total_chunks, w) :=
        match total_rows with
        | Some n =>
            if truthy total_rows
            then (Some (math_ceil_div n rows_per_chunk), print (TotalRows n) w)
            else (None, print TotalUnknown w)
        | None => (None, print TotalUnknown w)
        end in
      let w := print (Processing input_csv) w in
      let w := print (EstimatedRows rows_per_chunk) w in
      let w :=
        match total_chunks with
        | Some n => if truthy total_chunks then print (ExpectedChunks n) w else w
        | None => w
        end in
      match split_and_convert_try input_csv output_dir rows_per_chunk w with
      | (w, created_files, Return _) => (w, Return created_files)
      | (w, created_files, Raise e) =>
          (print (ErrorDuringConversion e) w, Return created_files)
      end
  end.

(** [self.split_and_convert(input_csv, output_dir, chunk_size_mb)]: the
    instance after the call, the world after the call, and the value
    returned or the exception raised. *)
Definition split_and_convert (self : CSVSplitterConverter)
    (input_csv output_dir : path) (chunk_size_mb_arg : option pyfloat) (w : world)
  : CSVSplitterConverter * world * outcome (list path) :=
  let self :=
    match chunk_size_mb_arg with
    | Some v => {| chunk_size_mb := v; bytes_per_mb := bytes_per_mb self |}
    | None => self
    end in
  match mkdir env output_dir with
  | Raise e => (self, w, Raise e)
  | Return _ =>
      match get_total_rows self input_csv w with
      | (w, Raise e) => (self, w, Raise e)
      | (w, Return total_rows) =>
          let '(w, result) :=
            split_and_convert_from self input_csv output_dir total_rows w in
          (self, w, result)
      end
  end.

End Converter.

(** ** The single-file converter ([csv_to_parquet.py]) *)

(** [pd.read_csv(input_path)] read to the end: every record of the
    file, or the first error met. *)
Fixpoint read_all (on_bad_lines : bad_lines_policy) (ls : list line)
  : outcome (list row) :=
  match ls with
  | [] => Return []
  | Row r :: tl =>
      match read_all on_bad_lines tl with
      | Return rs => Return (r :: rs)
      | Raise e => Raise e
      end
  | BadLine :: tl =>
      match on_bad_lines with
      | OnBadSkip => read_all on_bad_lines tl
      | OnBadError => Raise ParserError
      end
  | Undecodable :: _ => Raise UnicodeDecodeError
  end.

(** [pd.read_csv(input_path)] with the default arguments. *)
Definition read_csv (w : world) (input_path : path) : outcome DataFrame :=
  match open_csv w input_path with
  | Raise e => Raise e
  | Return c =>
      match read_all OnBadError (csv_lines c) with
      | Raise e => Raise e
      | Return rs =>
          Return {| df_columns := csv_header c; df_start := 0; df_rows := rs |}
      end
  end.

(** [name.rfind('.')]: the index of the last dot of [name]. *)
Fixpoint rfind_dot (name : string) : option nat :=
  match name with
  | EmptyString => None
  | String c rest =>
      match rfind_dot rest with
      | Some i => Some (S i)
      | None => if Ascii.eqb c "." then Some 0 else None
      end
  end.

(** [PurePath.suffix] of a file name: the part from the last dot on,
    unless that dot is the first or the last character. *)
Definition suffix (name : string) : string :=
  match rfind_dot name with
  | Some i =>
      if Nat.ltb 0 i && Nat.ltb i (String.length name - 1)
      then substring i (String.length name - i) name
      else ""
  | None => ""
  end.

(** [Path(p).with_suffix(new_suffix)], for a suffix that is valid (it
    starts with a dot, is not the dot alone and has no separator, as
    ['.parquet']): a path without a name is a [ValueError]. *)
Definition with_suffix (p : path) (new_suffix : string) : outcome path :=
  let name := path_name p in
  if String.eqb name "" then Raise ValueError else
  let old_suffix := suffix name in
  let name :=
    if String.eqb old_suffix "" then name +:+ new_suffix
    else substring 0 (String.length name - String.length old_suffix) name
         +:+ new_suffix in
  Return (removelast p ++ [name])%list.

(** [os.path.dirname(output_path) or '.'] *)
Definition dirname_or_dot (output_path : path) : path :=
  match removelast output_path with
  | [] => ["."]
  | dir => dir
  end.

(** What [convert_csv_to_parquet] gives: the path it returns, or the
    [Exception] it raises, whose message names the input and the
    error that caused it. *)
Inductive conversion : Type :=
  | Converted (output_path : path)
  | ErrorConverting (input_path : path) (cause : exn).

Definition convert_csv_to_parquet (env : Env) (input_path : path)
    (output_path : option path) (w : world) : world * conversion :=
  match read_csv w input_path with
  | Raise e => (w, ErrorConverting input_path e)
  | Return df =>
      match (match output_path with
             | None => with_suffix input_path ".parquet"
             | Some p => Return p
             end) with
      | Raise e => (w, ErrorConverting input_path e)
      | Return output_path =>
          match mkdir env (dirname_or_dot output_path) with
          | Raise e => (w, ErrorConverting input_path e)
          | Return _ =>
              match to_parquet env df output_path false w with
              | (w, Raise e) => (w, ErrorConverting input_path e)
              | (w, Return _) => (w, Converted output_path)
              end
          end
      end
  end.

(** Lines [batch_convert_csv_to_parquet] prints. *)
Inductive batch_message : Type :=
  | SuccessfullyConverted (csv_file parquet_file : path)
  | FailedToConvert (csv_file : path) (input_path : path) (cause : exn).

(** [csv_file.relative_to(input_dir)] *)
Fixpoint relative_to (p dir : path) : outcome path :=
  match dir, p with
  | [], _ => Return p
  | d :: dir', c :: p' =>
      if String.eqb d c then relative_to p' dir' else Raise ValueError
  | _ :: _, [] => Raise ValueError
  end.

(** Python truth value of [output_dir]: [None] and the empty string are
    false. *)
Definition given (output_dir : option path) : bool :=
  match output_dir with
  | Some (_ :: _) => true
  | _ => false
  end.

(** The [for csv_file in ...] loop of [batch_convert_csv_to_parquet]
    over the files the glob yields, with the lines printed so far. *)
Fixpoint batch_loop (env : Env) (input_dir : path) (output_dir : option path)
    (csv_files : list path) (converted_files : list path)
    (printed : list batch_message) (w : world)
  : world * list batch_message * outcome (list path) :=
  match csv_files with
  | [] => (w, printed, Return converted_files)
  | csv_file :: rest =>
      let output_path :=
        match output_dir with
        | Some dir =>
            if given output_dir then
              match relative_to csv_file input_dir with
              | Raise e => Raise e
              | Return rel_path =>
                  match with_suffix rel_path ".parquet" with
                  | Raise e => Raise e
                  | Return rel => Return (Some (dir ++ rel)%list)
                  end
              end
            else Return None
        | None => Return None
        end in
      match output_path with
      | Raise e => (w, printed, Raise e)
      | Return output_path =>
          match convert_csv_to_parquet env csv_file output_path w with
          | (w, Converted parquet_file) =>
              batch_loop env input_dir output_dir rest
                (converted_files ++ [parquet_file])
                (printed ++ [SuccessfullyConverted csv_file parquet_file]) w
          | (w, ErrorConverting input_path e) =>
              batch_loop env input_dir output_dir rest converted_files
                (printed ++ [FailedToConvert csv_file input_path e]) w
          end
      end
  end.

(** [batch_convert_csv_to_parquet(input_dir, output_dir)];
    [glob] is what [Path(input_dir).glob('**/*.csv')] yields, in the
    order the operating system lists the files. *)
Definition batch_convert_csv_to_parquet (env : Env)
    (glob : gmap path node -> path -> list path)
    (input_dir : path) (output_dir : option path) (w : world)
  : world * list batch_message * outcome (list path) :=
  match (match output_dir with
         | Some dir => if given output_dir then mkdir env dir else Return tt
         | None => Return tt
         end) with
  | Raise e => (w, [], Raise e)
  | Return _ =>
      batch_loop env input_dir output_dir (glob (files w) input_dir) [] [] w
  end.

(** ** The viewer ([parquet_viewer.py]) *)

(** What [view_parquet] can catch: an exception of the libraries, or the
    [AttributeError] of [df[column].dtype] when [column] labels more
    than one column (the selection is then a frame, and a frame has no
    [dtype]). *)
Inductive view_exn : Type :=
  | LibraryError (e : exn)
  | AttributeError.

(** The lines [view_parquet] prints, one constructor per [print]; the
    report of [df.info] and the preview carry the frame they render. *)
Inductive view_message : Type :=
  | RuleAfterBlank
  | FileIs (file_path : path)
  | Rule
  | DataFrameInfo
  | NumberOfRows (n : nat)
  | NumberOfColumns (n : nat)
  | MemoryUsage
  | InfoReport (df : DataFrame)
  | InfoResult                   (* [df.info] returns [None], which is printed *)
  | Schema
  | ColumnDtype (column : string) (dtype : string)
  | FirstRows (num_rows : Z)
  | Preview (df : DataFrame)
  | ErrorReadingParquet (e : view_exn).

(** [df.head(n)], that is [df.iloc[:n]]: the first [n] records, or all
    but the last [-n] when [n] is negative. *)
Definition head (df : DataFrame) (n : Z) : DataFrame :=
  {| df_columns := df_columns df;
     df_start := df_start df;
     df_rows := if (0 <=? n)%Z then take (Z.to_nat n) (df_rows df)
                else take (df_len df - Z.to_nat (- n)) (df_rows df) |}.

(** The values of the column at position [i]. *)
Definition column_values (df : DataFrame) (i : nat) : list string :=
  map (fun r => nth i r "") (df_rows df).

(** [column] labels exactly one column of [df]. *)
Definition labels_one (df : DataFrame) (column : string) : bool :=
  Nat.eqb (count_occ string_dec (df_columns df) column) 1.

(** The loop [for column in df.columns: print(f"{column}: {df[column].dtype}")]
    from position [i] on, with the lines printed so far; [dtype] is the
    type pandas infers for a column from its values. *)
Fixpoint print_schema (dtype : list string -> string) (df : DataFrame)
    (columns : list string) (i : nat) (printed : list view_message)
  : list view_message * option view_exn :=
  match columns with
  | [] => (printed, None)
  | column :: rest =>
      if labels_one df column
      then print_schema dtype df rest (S i)
             (printed ++ [ColumnDtype column (dtype (column_values df i))])
      else (printed, Some AttributeError)
  end.

(** [view_parquet(file_path, num_rows, show_info, show_schema)]: the
    lines printed and the value returned, [None] for Python's [None]. *)
Definition view_parquet (dtype : list string -> string) (w : world)
    (file_path : path) (num_rows : Z) (show_info show_schema : bool)
  : list view_message * option DataFrame :=
  match read_parquet w file_path with
  | Raise e => ([ErrorReadingParquet (LibraryError e)], None)
  | Return df =>
      let printed := [RuleAfterBlank; FileIs file_path; Rule] in
      let printed :=
        if show_info
        then (printed ++ [DataFrameInfo; NumberOfRows (df_len df);
                          NumberOfColumns (length (df_columns df));
                          MemoryUsage; InfoReport df; InfoResult])%list
        else printed in
      match (if show_schema
             then print_schema dtype df (df_columns df) 0 (printed ++ [Schema])%list
             else (printed, None)) with
      | (printed, Some e) => ((printed ++ [ErrorReadingParquet e])%list, None)
      | (printed, None) =>
          ((printed ++ [FirstRows num_rows; Preview (head df num_rows)])%list,
           Some df)
      end
  end.

(** ** Vocabulary of the statements *)

(** Reading a decimal numeral back; leading zeros do not count. *)
Definition parse_decimal (s : string) : option N :=
  option_map N.of_uint (NilEmpty.uint_of_string s).

(** The records of a file: its well-formed lines, in order. *)
Fixpoint good_rows (ls : list line) : list row :=
  match ls with
  | [] => []
  | Row r :: tl => r :: good_rows tl
  | _ :: tl => good_rows tl
  end.

Definition is_row (l : line) : bool :=
  match l with Row _ => true | _ => false end.

Definition decodable (l : line) : bool :=
  match l with Undecodable => false | _ => true end.

(** The values a sequence of results gives before its first exception. *)
Fixpoint returned {A} (os : list (outcome A)) : list A :=
  match os with
  | Return a :: tl => a :: returned tl
  | _ => []
  end.

Definition rows_of (dfs : list DataFrame) : list row := concat (map df_rows dfs).

(** The path of segment number [i]. *)
Definition output_file (output_dir : path) (i : nat) : path :=
  path_join output_dir (chunk_name i).

(** How the loop was stopped by exception [e], given the chunks not yet
    converted: the reader raised [e], or the write of the next chunk at
    [p] ended in [e]. *)
Definition stopped_by (env : Env) (e : exn) (rest : list (outcome DataFrame))
    (p : path) (fs' : gmap path node) : Prop :=
  match rest with
  | Raise e' :: _ => e' = e
  | Return df :: _ =>
      (exists fs, disk env fs p (encode_parquet df false) = Refused e)
      \/ ((exists fs, disk env fs p (encode_parquet df false) = Torn e)
          /\ fs' !! p = Some PartialFile)
  | [] => False
  end.

(** The world after the chunks [dfs] were stored as segments [k], [k+1],
    ... *)
Fixpoint store_all (output_dir : path) (dfs : list DataFrame) (k : nat)
    (w : world) : world :=
  match dfs with
  | [] => w
  | df :: tl =>
      store_all output_dir tl (S k)
        {| files := <[output_file output_dir k
                        := ParquetFile (encode_parquet df false)]> (files w);
           stdout := stdout w |}
  end.

(** The value [estimate_rows_per_chunk] returns. *)
Definition rows_per_chunk_of (env : Env) (self : CSVSplitterConverter) (w : world)
    (csv_path : path) (size : pyfloat) : Z :=
  match estimate_rows_per_chunk_try env self w csv_path size with
  | Return rows_per_chunk => rows_per_chunk
  | Raise _ => 10000%Z
  end.

(** The instance after [split_and_convert] has assigned the override. *)
Definition with_override (self : CSVSplitterConverter) (arg : option pyfloat)
  : CSVSplitterConverter :=
  match arg with
  | Some v => {| chunk_size_mb := v; bytes_per_mb := bytes_per_mb self |}
  | None => self
  end.

(** The next chunk cannot be converted: the reader raises [e], or every
    attempt to write the chunk at [p] ends in [e]. *)
Definition fails_with (env : Env) (e : exn) (rest : list (outcome DataFrame))
    (p : path) : Prop :=
  match rest with
  | Raise e' :: _ => e' = e
  | Return df :: _ =>
      forall fs, disk env fs p (encode_parquet df false) = Refused e
                 \/ disk env fs p (encode_parquet df false) = Torn e
  | [] => False
  end.

(** The files a call leaves and what it returns: all but the standard
    output. *)
Definition result_of {A} (r : world * outcome A) : gmap path node * outcome A :=
  (files (fst r), snd r).

(** The byte budget of a segment: [chunk_size_mb * self.bytes_per_mb]. *)
Definition target_bytes (self : CSVSplitterConverter) (size : pyfloat)
  : outcome pyfloat :=
  float_mul_int size (bytes_per_mb self).

(** The average footprint of a record of the sample:
    [sample_memory / len(sample_df)]. *)
Definition average_bytes_per_record (env : Env) (sample_df : DataFrame) : pyfloat :=
  np_true_divide (int_to_float (Z.of_N (memory_usage env sample_df)))
                 (int_to_float (Z.of_nat (df_len sample_df))).

(** A float that is not positive: a zero, a negative number or the
    negative infinity. *)
Definition non_positive (x : pyfloat) : Prop :=
  has_sign true x \/ x = S754_zero false.

(** Names in strictly increasing lexicographic order (by character
    code, as Python compares [str]). *)
Fixpoint sorted_names (l : list string) : bool :=
  match l with
  | a :: (b :: _) as tl => String.ltb a b && sorted_names tl
  | _ => true
  end.

(** The names from number [k] on are increasing for [n] steps. *)
Fixpoint increasing_from (k : N) (n : nat) : bool :=
  match n with
  | O => true
  | S n' =>
      String.ltb (chunk_file_name k) (chunk_file_name (N.succ k))
      && increasing_from (N.succ k) n'
  end.

(** A sequence of calls on one instance: input, output directory and
    override of each call. *)
Fixpoint run_calls (env : Env) (self : CSVSplitterConverter) (w : world)
    (calls : list (path * path * option pyfloat)) : CSVSplitterConverter * world :=
  match calls with
  | [] => (self, w)
  | (input_csv, output_dir, arg) :: rest =>
      let '(self, w, _) := split_and_convert env self input_csv output_dir arg w in
      run_calls env self w rest
  end.

(** The last override among the arguments, [size] when there is none. *)
Fixpoint latest_override (size : pyfloat) (args : list (option pyfloat)) : pyfloat :=
  match args with
  | [] => size
  | Some v :: rest => latest_override v rest
  | None :: rest => latest_override size rest
  end.

(** ** Further properties of the chunked converter *)

(** [ceil(a / b)] on natural numbers. *)
Definition ceil_div (a b : nat) : nat := (a + b - 1) / b.

(** The records number [i * n] to [(i + 1) * n - 1] of [rows]. *)
Definition slice (n i : nat) (rows : list row) : list row :=
  take n (drop (i * n) rows).

(** The number of chunks a reader with chunk size [n] yields on a file
    with the records [rows]: one chunk, without records, when there is
    no record at all. *)
Definition chunk_count (n : nat) (rows : list row) : nat :=
  match rows with
  | [] => 1
  | _ => ceil_div (length rows) n
  end.

(** What [split_and_convert] prints between the estimate and the
    conversion. *)
Definition announce (input_csv : path) (total_rows : option Z)
    (rows_per_chunk : Z) (w : world) : world :=
  let '(total_chunks, w) :=
    match total_rows with
    | Some n =>
        if truthy total_rows
        then (Some (math_ceil_div n rows_per_chunk), print (TotalRows n) w)
        else (None, print TotalUnknown w)
    | None => (None, print TotalUnknown w)
    end in
  let w := print (Processing input_csv) w in
  let w := print (EstimatedRows rows_per_chunk) w in
  match total_chunks with
  | Some n => if truthy total_chunks then print (ExpectedChunks n) w else w
  | None => w
  end.

(** The lines of the listing printed after the loop. *)
Definition created_lines (env : Env) (fs : gmap path node)
    (created_files : list path) : list message :=
  map (fun file =>
         CreatedFile (path_name file)
           (match fs !! file with Some nd => file_size env nd | None => 0%N end))
      created_files.

(** The part of a file name before its suffix. *)
Definition stem (name : string) : string :=
  if String.eqb (suffix name) "" then name
  else substring 0 (String.length name - String.length (suffix name)) name.

(** The path [convert_csv_to_parquet] writes: the one asked for, or the
    input's with its suffix replaced. *)
Definition output_path_of (input_path : path) (output_path : option path)
  : outcome path :=
  match output_path with
  | None => with_suffix input_path ".parquet"
  | Some p => Return p
  end.

(** The whole content of a CSV file as a frame. *)
Definition frame_of (c : csv) : DataFrame :=
  {| df_columns := csv_header c; df_start := 0; df_rows := good_rows (csv_lines c) |}.

(** The Parquet files a batch reports as converted, in the order of its
    lines, and the CSV file each line is about. *)
Fixpoint successes (printed : list batch_message) : list path :=
  match printed with
  | [] => []
  | SuccessfullyConverted _ parquet_file :: tl => parquet_file :: successes tl
  | FailedToConvert _ _ _ :: tl => successes tl
  end.

Definition csv_file_of (m : batch_message) : path :=
  match m with
  | SuccessfullyConverted csv_file _ => csv_file
  | FailedToConvert csv_file _ _ => csv_file
  end.

(** A file the glob yields lies under the directory searched and has a
    name. *)
Definition under (input_dir : path) (csv_file : path) : Prop :=
  exists rel, csv_file = (input_dir ++ rel)%list /\ path_name rel <> "".

(** The frames a sequence of views returns. *)
Definition views (dtype : list string -> string) (w : world) (paths : list path)
    (num_rows : Z) (show_info show_schema : bool) : list (option DataFrame) :=
  map (fun p => snd (view_parquet dtype w p num_rows show_info show_schema)) paths.

(** The frame read back from a segment: its index starts at 0 again. *)
Definition reindexed (df : DataFrame) : DataFrame :=
  {| df_columns := df_columns df; df_start := 0; df_rows := df_rows df |}.

(** ** Concrete runs *)

(** An environment in which every directory can be made and every write
    is stored, except the writes at the paths [fail] names. *)
Definition demo_env (fail : path -> option write_result) : Env :=
  {| memory_usage := fun df => (132 + 64 * N.of_nat (df_len df))%N;
     file_size := fun nd =>
       match nd with
       | ParquetFile pq => (1000 + 8 * N.of_nat (length (pq_rows pq)))%N
       | _ => 512%N
       end;
     mkdir_ok := fun _ => true;
     disk := fun _ p _ => match fail p with Some r => r | None => Stored end |}.

Definition demo_input : path := ["data"; "in.csv"].
Definition demo_dir : path := ["out"].

(** A CSV file with the columns [id] and [name] and the given data
    lines. *)
Definition demo_csv (ls : list line) : csv :=
  {| csv_header := ["id"; "name"]; csv_lines := ls; csv_distinct := eq_refl |}.

(** A world whose only file is such a CSV file. *)
Definition demo_world (ls : list line) : world :=
  {| files := {[ demo_input := CsvFile (demo_csv ls) ]};
     stdout := [] |}.

(** A converter with a budget of 1 KiB per segment. *)
Definition demo_self : CSVSplitterConverter := init (dyadic 1 (-10)).

(** The disk is full when the second segment is written. *)
Definition full_at_1 (p : path) : option write_result :=
  if bool_decide (p = output_file demo_dir 1) then Some (Torn OSError) else None.

Definition rows_1001 : list line := repeat (Row ["7"; "x"]) 1001.

Definition reader_1001 : TextFileReader :=
  {| tfr_columns := ["id"; "name"]; tfr_on_bad_lines := OnBadSkip;
     tfr_chunksize := 1000; tfr_pos := 0; tfr_first := true;
     tfr_rest := rows_1001 |}.

Definition frame_1001_0 : DataFrame :=
  {| df_columns := ["id"; "name"]; df_start := 0;
     df_rows := repeat ["7"; "x"] 1000 |}.

Definition frame_1001_1 : DataFrame :=
  {| df_columns := ["id"; "name"]; df_start := 1000; df_rows := [["7"; "x"]] |}.

(** Three records of 108 bytes on average and the default budget of
    250 MiB: 2427259 records per segment. *)
Definition rows_3 : list line := repeat (Row ["7"; "x"]) 3.

(** 100 records with a bad line after every 20th. *)
Definition rows_100_bad_5 : list line :=
  concat (repeat (repeat (Row ["7"; "x"]) 20 ++ [BadLine])%list 5).

(** A budget under which the sample of [demo_env] gives 10000 records
    per segment. *)
Definition self_10000 : CSVSplitterConverter := init (dyadic 641320 (-20)).

Definition rows_25000 : list line := repeat (Row ["7"; "x"]) (N.to_nat 25000).

Definition csv_25000 : csv := demo_csv rows_25000.

Definition csv_1001 : csv := demo_csv rows_1001.

Definition csv_3 : csv := demo_csv rows_3.

Definition rows_1000 : list line := repeat (Row ["7"; "x"]) 1000.

(** A directory with one CSV file of three records and one with bad
    lines among its records. *)
Definition batch_world : world :=
  {| files := <[ ["data"; "a.csv"] := CsvFile csv_3 ]>
                {[ ["data"; "sub"; "b.csv"] :=
                     CsvFile (demo_csv rows_100_bad_5) ]};
     stdout := [] |}.

Definition batch_glob (fs : gmap path node) (input_dir : path) : list path :=
  [["data"; "a.csv"]; ["data"; "sub"; "b.csv"]].

(** ** Rounding to binary64 *)

Lemma digits2_pos_bounds (m : positive) :
  (2 ^ (Z.pos (digits2_pos m) - 1) <= Z.pos m < 2 ^ Z.pos (digits2_pos m))%Z.
Proof.
  induction m as [m IH|m IH|]; simpl digits2_pos.
  - rewrite Pos2Z.inj_succ.
    replace (Z.succ (Z.pos (digits2_pos m)) - 1)%Z with (Z.pos (digits2_pos m)) by lia.
    rewrite Z.pow_succ_r by lia.
    assert (2 ^ Z.pos (digits2_pos m)
            = 2 * 2 ^ (Z.pos (digits2_pos m) - 1))%Z as E.
    { rewrite <- Z.pow_succ_r by lia. f_equal. lia. }
    lia.
  - rewrite Pos2Z.inj_succ.
    replace (Z.succ (Z.pos (digits2_pos m)) - 1)%Z with (Z.pos (digits2_pos m)) by lia.
    rewrite Z.pow_succ_r by lia.
    assert (2 ^ Z.pos (digits2_pos m)
            = 2 * 2 ^ (Z.pos (digits2_pos m) - 1))%Z as E.
    { rewrite <- Z.pow_succ_r by lia. f_equal. lia. }
    lia.
  - simpl. lia.
Qed.

Lemma Zdigits2_nonneg (m : Z) : (0 <= Zdigits2 m)%Z.
Proof. destruct m; simpl; lia. Qed.

(** A non-negative number is below 2 to the number of its digits, and a
    positive one has the digit below set. *)
Lemma Zdigits2_upper (m : Z) : (0 <= m -> m < 2 ^ Zdigits2 m)%Z.
Proof.
  destruct m as [|p|p]; simpl; intros H; [lia| |lia].
  apply digits2_pos_bounds.
Qed.

Lemma Zdigits2_lower (m : Z) : (0 < m -> 2 ^ (Zdigits2 m - 1) <= m)%Z.
Proof.
  destruct m as [|p|p]; simpl; intros H; [lia| |lia].
  apply digits2_pos_bounds.
Qed.

(** The digits of a number below [2 ^ k]. *)
Lemma Zdigits2_le (m k : Z) : (0 <= m -> 0 <= k -> m < 2 ^ k -> Zdigits2 m <= k)%Z.
Proof.
  intros Hm Hk Hlt. destruct (Z.eq_dec m 0%Z) as [->|Hne]; [simpl; lia|].
  assert (0 < m)%Z as Hpos by lia.
  pose proof (Zdigits2_lower m Hpos) as Hl.
  pose proof (Zdigits2_nonneg m) as Hd.
  destruct (Z_lt_le_dec k (Zdigits2 m)) as [Hgt|]; [|lia].
  assert (2 ^ k <= 2 ^ (Zdigits2 m - 1))%Z by (apply Z.pow_le_mono_r; lia).
  lia.
Qed.

Lemma shr_1_m (r : shr_record) : (0 <= shr_m r -> shr_m (shr_1 r) = shr_m r / 2)%Z.
Proof.
  destruct r as [m r s]. simpl. intros H.
  destruct m as [|[p|p|]|p]; simpl; try lia.
  - reflexivity.
  - apply Z.div_unique with 1%Z; lia.
  - apply Z.div_unique with 0%Z; lia.
  - reflexivity.
Qed.

Lemma iter_shr_1_m (p : positive) : forall r,
  (0 <= shr_m r -> shr_m (SpecFloat.iter_pos shr_1 p r) = shr_m r / 2 ^ Z.pos p)%Z.
Proof.
  assert (forall a b c, 0 <= a -> 0 < b -> 0 < c -> a / b / c = a / (b * c))%Z
    as Hdd by (intros; apply Z.div_div; lia).
  induction p as [p IH|p IH|]; intros r Hr; simpl SpecFloat.iter_pos.
  - pose proof (Z.pow_pos_nonneg 2 (Z.pos p) ltac:(lia) ltac:(lia)) as Hp.
    assert (0 <= shr_m (shr_1 r))%Z as H1
      by (rewrite shr_1_m by lia; apply Z.div_pos; lia).
    assert (0 <= shr_m (SpecFloat.iter_pos shr_1 p (shr_1 r)))%Z as H2
      by (rewrite IH by lia; apply Z.div_pos; lia).
    rewrite IH, IH, shr_1_m by lia.
    assert (0 < 2 ^ Z.pos p * 2 ^ Z.pos p)%Z as Hpp by nia.
    assert (0 <= shr_m r / 2)%Z as Hh by (apply Z.div_pos; lia).
    rewrite (Hdd (shr_m r / 2)%Z), (Hdd (shr_m r)) by lia. f_equal.
    replace (Z.pos p~1) with (1 + Z.pos p + Z.pos p)%Z by lia.
    rewrite !Z.pow_add_r by lia. change (2 ^ 1)%Z with 2%Z. lia.
  - pose proof (Z.pow_pos_nonneg 2 (Z.pos p) ltac:(lia) ltac:(lia)) as Hp.
    assert (0 <= shr_m (SpecFloat.iter_pos shr_1 p r))%Z as H2
      by (rewrite IH by lia; apply Z.div_pos; lia).
    rewrite IH, IH by lia.
    rewrite Hdd by lia. f_equal.
    replace (Z.pos p~0) with (Z.pos p + Z.pos p)%Z by lia.
    now rewrite Z.pow_add_r by lia.
  - now apply shr_1_m.
Qed.

(** [shr_fexp] drops the bits below the exponent binary64 gives the
    number. *)
Lemma shr_fexp_m (m e : Z) (l : location) :
  (0 <= m)%Z ->
  let e' := Z.max e (fexp 53 1024 (Zdigits2 m + e)) in
  snd (shr_fexp 53 1024 m e l) = e'
  /\ shr_m (fst (shr_fexp 53 1024 m e l)) = (m / 2 ^ (e' - e))%Z.
Proof.
  intros Hm e'. unfold shr_fexp, shr.
  assert (shr_m (shr_record_of_loc m l) = m) as Hrec
    by (destruct l as [|[]]; reflexivity).
  destruct (fexp 53 1024 (Zdigits2 m + e) - e)%Z as [|p|p] eqn:E; simpl.
  - replace e' with e by (unfold e'; lia).
    rewrite Z.sub_diag, Hrec. simpl. now rewrite Z.div_1_r.
  - replace e' with (e + Z.pos p)%Z by (unfold e'; lia).
    split; [reflexivity|].
    rewrite iter_shr_1_m by (rewrite Hrec; exact Hm).
    rewrite Hrec. f_equal. f_equal. lia.
  - replace e' with e by (unfold e'; lia).
    rewrite Z.sub_diag, Hrec. simpl. now rewrite Z.div_1_r.
Qed.

Lemma round_nearest_even_bounds (m : Z) (l : location) :
  (m <= round_nearest_even m l <= m + 1)%Z.
Proof.
  destruct l as [|[]]; simpl; try lia.
  destruct (Z.even m); lia.
Qed.

(** The steps of [binary_round_aux] on a mantissa that is not negative. *)
Lemma binary_round_aux_steps (s : bool) (mx ex : Z) (lx : location) :
  (0 <= mx)%Z ->
  let e1 := Z.max ex (fexp 53 1024 (Zdigits2 mx + ex)) in
  let m1 := (mx / 2 ^ (e1 - ex))%Z in
  exists m2,
    (m1 <= m2 <= m1 + 1)%Z
    /\ let e2 := Z.max e1 (fexp 53 1024 (Zdigits2 m2 + e1)) in
       let m3 := (m2 / 2 ^ (e2 - e1))%Z in
       binary_round_aux 53 1024 s mx ex lx
       = match m3 with
         | Z0 => S754_zero s
         | Z.pos m => if (e2 <=? 1024 - 53)%Z then S754_finite s m e2
                      else S754_infinity s
         | Z.neg _ => S754_nan
         end.
Proof.
  intros Hm e1 m1. unfold binary_round_aux.
  destruct (shr_fexp_m mx ex lx Hm) as [He1 Hm1].
  destruct (shr_fexp 53 1024 mx ex lx) as [mrs' e'] eqn:E1. simpl in He1, Hm1.
  fold e1 in He1, Hm1. fold m1 in Hm1. subst e'.
  set (m2 := round_nearest_even (shr_m mrs') (loc_of_shr_record mrs')).
  assert (m1 <= m2 <= m1 + 1)%Z as Hm2
    by (unfold m2; rewrite <- Hm1; apply round_nearest_even_bounds).
  assert (0 <= m1)%Z as Hm1pos
    by (unfold m1; apply Z.div_pos; [lia | apply Z.pow_pos_nonneg; unfold e1; lia]).
  exists m2. split; [exact Hm2|].
  destruct (shr_fexp_m m2 e1 loc_Exact ltac:(lia)) as [He2 Hm3].
  destruct (shr_fexp 53 1024 m2 e1 loc_Exact) as [mrs'' e''] eqn:E2.
  simpl in He2, Hm3. simpl. rewrite Hm3, He2. reflexivity.
Qed.

(** Rounding keeps the sign. *)
Lemma binary_round_aux_sign (s : bool) (mx ex : Z) (lx : location) :
  (0 <= mx)%Z -> has_sign s (binary_round_aux 53 1024 s mx ex lx).
Proof.
  intros Hm. destruct (binary_round_aux_steps s mx ex lx Hm) as (m2 & Hm2 & ->).
  set (e1 := Z.max ex (fexp 53 1024 (Zdigits2 mx + ex))) in *.
  assert (0 <= mx / 2 ^ (e1 - ex))%Z as H1
    by (apply Z.div_pos; [lia | apply Z.pow_pos_nonneg; unfold e1; lia]).
  set (e2 := Z.max e1 (fexp 53 1024 (Zdigits2 m2 + e1))).
  assert (0 <= m2 / 2 ^ (e2 - e1))%Z as H3
    by (apply Z.div_pos; [lia | apply Z.pow_pos_nonneg; unfold e2; lia]).
  destruct (m2 / 2 ^ (e2 - e1))%Z; simpl; [reflexivity| |lia].
  now destruct (_ <=? _)%Z.
Qed.

(** A number below 1 is rounded to at most 2 (to at most 1, in fact). *)
Lemma binary_round_aux_small (s : bool) (mx ex : Z) (lx : location) (k : Z) :
  (0 <= mx)%Z -> (ex <= -53)%Z -> (Zdigits2 mx + ex <= 0)%Z ->
  py_int (binary_round_aux 53 1024 s mx ex lx) = Return k ->
  (k <= 2)%Z.
Proof.
  intros Hm Hex Hd. destruct (binary_round_aux_steps s mx ex lx Hm) as (m2 & Hm2 & ->).
  set (e1 := Z.max ex (fexp 53 1024 (Zdigits2 mx + ex))) in *.
  set (m1 := (mx / 2 ^ (e1 - ex))%Z) in *.
  set (e2 := Z.max e1 (fexp 53 1024 (Zdigits2 m2 + e1))).
  assert (e1 <= -53)%Z as He1 by (unfold e1, fexp, emin; lia).
  assert (0 <= e1 - ex)%Z as Hs1 by (unfold e1; lia).
  assert (Zdigits2 mx + ex - 53 <= e1)%Z as Hf1 by (unfold e1, fexp; lia).
  pose proof (Zdigits2_nonneg mx) as Hdn.
  assert (m1 < 2 ^ 53)%Z as Hm1.
  { unfold m1. apply Z.div_lt_upper_bound; [apply Z.pow_pos_nonneg; lia|].
    rewrite <- Z.pow_add_r by lia.
    eapply Z.lt_le_trans; [apply Zdigits2_upper; exact Hm|].
    apply Z.pow_le_mono_r; lia. }
  assert (0 <= m1)%Z as Hm1pos
    by (unfold m1; apply Z.div_pos; [lia | apply Z.pow_pos_nonneg; lia]).
  assert (Zdigits2 m2 <= 54)%Z as Hd2.
  { apply Zdigits2_le; [lia | lia |].
    change (2 ^ 54)%Z with (2 * 2 ^ 53)%Z. lia. }
  assert (e1 <= e2 <= -52)%Z as He2 by (unfold e2, fexp, emin; lia).
  assert (0 <= m2 / 2 ^ (e2 - e1) <= 2 ^ 53)%Z as Hm3.
  { split; [apply Z.div_pos; [lia | apply Z.pow_pos_nonneg; lia]|].
    assert (0 < 2 ^ (e2 - e1))%Z by (apply Z.pow_pos_nonneg; lia).
    transitivity m2; [|lia].
    apply Z.div_le_upper_bound; [lia|]. nia. }
  destruct (m2 / 2 ^ (e2 - e1))%Z as [|m|m] eqn:E3.
  - simpl. intros [= <-]. lia.
  - destruct (e2 <=? 1024 - 53)%Z; [|discriminate].
    simpl. intros [= <-].
    assert (Z.shiftl (Z.pos m) e2 <= 2)%Z as Hsh.
    { destruct e2 as [|p|p] eqn:Ee; try lia.
      change (Z.shiftl (Z.pos m) (Z.neg p)) with (Z.shiftr (Z.pos m) (Z.pos p)).
      rewrite Z.shiftr_div_pow2 by lia.
      apply Z.div_le_upper_bound; [apply Z.pow_pos_nonneg; lia|].
      assert (2 ^ 52 <= 2 ^ Z.pos p)%Z by (apply Z.pow_le_mono_r; lia).
      change (2 ^ 53)%Z with (2 * 2 ^ 52)%Z in Hm3. lia. }
    assert (0 <= Z.shiftl (Z.pos m) e2)%Z by (apply Z.shiftl_nonneg; lia).
    destruct s; simpl; lia.
  - lia.
Qed.

(** A positive number at an exponent in range is not rounded to zero. *)
Lemma binary_round_aux_positive (s : bool) (mx ex : Z) (lx : location) :
  (0 < mx)%Z -> (-1074 <= ex)%Z ->
  match binary_round_aux 53 1024 s mx ex lx with
  | S754_finite s' _ _ | S754_infinity s' => s' = s
  | _ => False
  end.
Proof.
  intros Hm Hex.
  destruct (binary_round_aux_steps s mx ex lx ltac:(lia)) as (m2 & Hm2 & ->).
  set (e1 := Z.max ex (fexp 53 1024 (Zdigits2 mx + ex))) in *.
  set (m1 := (mx / 2 ^ (e1 - ex))%Z) in *.
  set (e2 := Z.max e1 (fexp 53 1024 (Zdigits2 m2 + e1))).
  pose proof (Zdigits2_lower mx Hm) as Hl.
  pose proof (Zdigits2_nonneg mx) as Hdn.
  assert (0 < Zdigits2 mx)%Z as Hdpos by (destruct mx; simpl in *; lia).
  assert (0 <= e1 - ex <= Zdigits2 mx - 1)%Z as Hs1 by (unfold e1, fexp, emin; lia).
  assert (1 <= m1)%Z as Hm1.
  { unfold m1. apply Z.div_le_lower_bound; [apply Z.pow_pos_nonneg; lia|].
    rewrite Z.mul_1_r. etransitivity; [|exact Hl].
    apply Z.pow_le_mono_r; lia. }
  pose proof (Zdigits2_lower m2 ltac:(lia)) as Hl2.
  assert (0 < Zdigits2 m2)%Z as Hd2pos by (destruct m2; simpl in *; lia).
  assert (-1074 <= e1)%Z as He1 by (unfold e1; lia).
  assert (0 <= e2 - e1 <= Zdigits2 m2 - 1)%Z as Hs2 by (unfold e2, fexp, emin; lia).
  assert (1 <= m2 / 2 ^ (e2 - e1))%Z as Hm3.
  { apply Z.div_le_lower_bound; [apply Z.pow_pos_nonneg; lia|].
    rewrite Z.mul_1_r. etransitivity; [|exact Hl2].
    apply Z.pow_le_mono_r; lia. }
  destruct (m2 / 2 ^ (e2 - e1))%Z; [lia| |lia].
  now destruct (_ <=? _)%Z.
Qed.

(** The quotient of two mantissas [SFdiv] rounds is not negative. *)
Lemma SFdiv_core_binary_nonneg (m1 m2 : positive) (e1 e2 : Z) :
  (0 <= fst (fst (SFdiv_core_binary 53 1024 (Z.pos m1) e1 (Z.pos m2) e2)))%Z.
Proof.
  unfold SFdiv_core_binary.
  set (e' := Z.min _ _). set (m' := match (e1 - e2 - e')%Z with
                                     | Z0 => Z.pos m1
                                     | Z.pos _ => Z.shiftl (Z.pos m1) (e1 - e2 - e')
                                     | Z.neg _ => 0%Z
                                     end).
  assert (0 <= m')%Z as Hm'.
  { unfold m'. destruct (e1 - e2 - e')%Z eqn:E; try lia.
    apply Z.shiftl_nonneg. lia. }
  pose proof (Z_div_mod m' (Z.pos m2) ltac:(lia)) as Hdm.
  destruct (Z.div_eucl m' (Z.pos m2)) as [q r]. simpl. nia.
Qed.

Lemma int_to_float_0 : int_to_float 0 = S754_zero false.
Proof. reflexivity. Qed.

(** A positive integer becomes a positive float, or the infinity when
    it is too large. *)
Lemma int_to_float_positive (n : Z) :
  (0 < n)%Z ->
  match int_to_float n with
  | S754_finite s _ _ | S754_infinity s => s = false
  | _ => False
  end.
Proof.
  intros Hn. destruct n as [|p|p]; try lia.
  unfold int_to_float, dyadic, binary_normalize, binary_round.
  destruct (shl_align p 0 (fexp 53 1024 (Z.pos (digits2_pos p) + 0))) as [mz ez] eqn:E.
  apply binary_round_aux_positive; [lia|].
  unfold shl_align in E.
  destruct (fexp 53 1024 (Z.pos (digits2_pos p) + 0) - 0)%Z eqn:Ef;
    injection E as <- <-; unfold fexp, emin in *; lia.
Qed.

Lemma int_to_float_nonneg (n : Z) :
  (0 <= n)%Z -> has_sign false (int_to_float n).
Proof.
  intros Hn. destruct (Z.eq_dec n 0%Z) as [->|Hne]; [reflexivity|].
  assert (0 < n)%Z as Hpos by lia.
  pose proof (int_to_float_positive n Hpos) as H.
  destruct (int_to_float n); simpl in *; try contradiction; exact H.
Qed.

(** Products and quotients have the sign of their operands, or are NaN. *)
Lemma SFmul_sign (sx sy : bool) (x y : pyfloat) :
  has_sign sx x -> has_sign sy y ->
  SFmul 53 1024 x y = S754_nan \/ has_sign (xorb sx sy) (SFmul 53 1024 x y).
Proof.
  destruct x as [s1|s1| |s1 m1 e1], y as [s2|s2| |s2 m2 e2]; simpl;
    intros H1 H2; subst; auto.
  right. apply binary_round_aux_sign. lia.
Qed.

Lemma SFdiv_sign (sx sy : bool) (x y : pyfloat) :
  has_sign sx x -> has_sign sy y ->
  SFdiv 53 1024 x y = S754_nan \/ has_sign (xorb sx sy) (SFdiv 53 1024 x y).
Proof.
  destruct x as [s1|s1| |s1 m1 e1], y as [s2|s2| |s2 m2 e2]; simpl;
    intros H1 H2; subst; auto.
  right.
  pose proof (SFdiv_core_binary_nonneg m1 m2 e1 e2) as Hq.
  destruct (SFdiv_core_binary 53 1024 (Z.pos m1) e1 (Z.pos m2) e2) as [[mz ez] lz].
  apply binary_round_aux_sign. exact Hq.
Qed.

(** [int] of a float that is not positive is not positive. *)
Lemma py_int_negative (x : pyfloat) (k : Z) :
  has_sign true x -> py_int x = Return k -> (k <= 0)%Z.
Proof.
  destruct x as [s|s| |s m e]; simpl; intros Hs H; subst; try discriminate.
  - injection H as <-. lia.
  - injection H as <-. simpl.
    assert (0 <= Z.shiftl (Z.pos m) e)%Z by (apply Z.shiftl_nonneg; lia). lia.
Qed.

(** The quotient of a positive float by a larger one truncates to at
    most 2 (it is at most 1). *)
Lemma SFdiv_below (sx sy : bool) (m1 m2 : positive) (e1 e2 : Z) (k : Z) :
  let e0 := Z.min e1 e2 in
  (Z.pos m1 * 2 ^ (e1 - e0) < Z.pos m2 * 2 ^ (e2 - e0))%Z ->
  py_int (SFdiv 53 1024 (S754_finite sx m1 e1) (S754_finite sy m2 e2)) = Return k ->
  (k <= 2)%Z.
Proof.
  intros e0 Hlt. simpl SFdiv.
  pose proof (SFdiv_core_binary_nonneg m1 m2 e1 e2) as Hq.
  unfold SFdiv_core_binary in *.
  pose proof (digits2_pos_bounds m1) as [Hl1 Hu1].
  pose proof (digits2_pos_bounds m2) as [Hl2 Hu2].
  simpl Zdigits2 in *.
  set (d1 := Z.pos (digits2_pos m1)) in *.
  set (d2 := Z.pos (digits2_pos m2)) in *.
  assert (0 < d1)%Z as Hd1 by (unfold d1; lia).
  assert (0 < d2)%Z as Hd2 by (unfold d2; lia).
  assert (d1 + e1 <= d2 + e2)%Z as Hd.
  { destruct (Z_le_gt_dec e2 e1) as [He|He].
    - replace e0 with e2 in Hlt by (unfold e0; lia).
      rewrite Z.sub_diag, Z.mul_1_r in Hlt.
      assert (2 ^ (d1 - 1) * 2 ^ (e1 - e2) < 2 ^ d2)%Z as H.
      { assert (0 < 2 ^ (e1 - e2))%Z by (apply Z.pow_pos_nonneg; lia). nia. }
      rewrite <- Z.pow_add_r in H by lia.
      apply Z.pow_lt_mono_r_iff in H; lia.
    - replace e0 with e1 in Hlt by (unfold e0; lia).
      rewrite Z.sub_diag, Z.mul_1_r in Hlt.
      assert (2 ^ (d1 - 1) < 2 ^ d2 * 2 ^ (e2 - e1))%Z as H.
      { assert (0 < 2 ^ (e2 - e1))%Z by (apply Z.pow_pos_nonneg; lia). nia. }
      rewrite <- Z.pow_add_r in H by lia.
      apply Z.pow_lt_mono_r_iff in H; lia. }
  set (e' := Z.min (fexp 53 1024 (d1 + e1 - (d2 + e2))) (e1 - e2)) in *.
  assert (e' <= -53)%Z as He' by (unfold e', fexp, emin; lia).
  assert (0 <= e1 - e2 - e')%Z as Hs by (unfold e'; lia).
  set (m' := match (e1 - e2 - e')%Z with
             | Z0 => Z.pos m1
             | Z.pos _ => Z.shiftl (Z.pos m1) (e1 - e2 - e')
             | Z.neg _ => 0%Z
             end) in *.
  assert (m' = Z.pos m1 * 2 ^ (e1 - e2 - e'))%Z as Hm'.
  { unfold m'. destruct (e1 - e2 - e')%Z eqn:E; try lia.
    apply Z.shiftl_mul_pow2. lia. }
  assert (m' < Z.pos m2 * 2 ^ (- e'))%Z as Hbound.
  { rewrite Hm'. destruct (Z_le_gt_dec e2 e1) as [He|He].
    - replace e0 with e2 in Hlt by (unfold e0; lia).
      rewrite Z.sub_diag, Z.mul_1_r in Hlt.
      replace (e1 - e2 - e')%Z with ((e1 - e2) + - e')%Z by lia.
      rewrite Z.pow_add_r by lia.
      assert (0 < 2 ^ (- e'))%Z by (apply Z.pow_pos_nonneg; lia). nia.
    - replace e0 with e1 in Hlt by (unfold e0; lia).
      rewrite Z.sub_diag, Z.mul_1_r in Hlt.
      replace (- e')%Z with ((e2 - e1) + (e1 - e2 - e'))%Z by lia.
      rewrite Z.pow_add_r by lia.
      assert (0 < 2 ^ (e1 - e2 - e'))%Z by (apply Z.pow_pos_nonneg; lia). nia. }
  pose proof (Z_div_mod m' (Z.pos m2) ltac:(lia)) as Hdm.
  destruct (Z.div_eucl m' (Z.pos m2)) as [q r]. simpl in Hq.
  apply binary_round_aux_small; [exact Hq | exact He' |].
  assert (q < 2 ^ (- e'))%Z as Hqlt.
  { assert (0 < 2 ^ (- e'))%Z by (apply Z.pow_pos_nonneg; lia).
    destruct Hdm as [Hdm Hr]. nia. }
  pose proof (Zdigits2_le q (- e') Hq ltac:(lia) Hqlt). lia.
Qed.

(** [int] truncates, and under [max(1000, _)] truncation is the floor of
    the value. *)
Lemma py_int_floor (x : pyfloat) (k : Z) :
  py_int x = Return k ->
  is_finite x = true /\ Z.max 1000 k = Z.max 1000 (Qfloor (float_value x)).
Proof.
  destruct x as [s|s| |s m e]; unfold py_int, is_finite, float_value; intros H;
    try discriminate; injection H as <-; (split; [reflexivity|]).
  - reflexivity.
  - set (n := cond_Zopp s (Z.pos m)).
    destruct e as [|p|p].
    + assert ((inject_Z n * 2 ^ 0)%Q == inject_Z n)%Q as E by (simpl; ring).
      rewrite (Qfloor_comp _ _ E), Qfloor_Z. reflexivity.
    + assert ((2 ^ Z.pos p)%Q == inject_Z (2 ^ Z.pos p)%Z)%Q as Hpw
        by (symmetry; apply (Zpower_Qpower 2 (Z.pos p)); lia).
      assert ((inject_Z n * 2 ^ Z.pos p)%Q == inject_Z (n * 2 ^ Z.pos p)%Z)%Q as E
        by (rewrite Hpw, inject_Z_mult; reflexivity).
      rewrite (Qfloor_comp _ _ E), Qfloor_Z.
      rewrite Z.shiftl_mul_pow2 by lia.
      unfold n. destruct s; simpl cond_Zopp; f_equal; lia.
    + change (Z.shiftl (Z.pos m) (Z.neg p)) with (Z.shiftr (Z.pos m) (Z.pos p)).
      rewrite Z.shiftr_div_pow2 by lia.
      assert (0 < 2 ^ Z.pos p)%Z as Hp by (apply Z.pow_pos_nonneg; lia).
      assert ((2 ^ Z.pos p)%Q == inject_Z (2 ^ Z.pos p)%Z)%Q as Hpw
        by (symmetry; apply (Zpower_Qpower 2 (Z.pos p)); lia).
      assert ((inject_Z n * 2 ^ Z.neg p)%Q == n # Z.to_pos (2 ^ Z.pos p))%Q as E.
      { change (2 ^ Z.neg p)%Q with (/ (2 ^ Z.pos p))%Q. rewrite Hpw.
        unfold Qeq, Qmult, Qinv, inject_Z. simpl Qnum.
        destruct (2 ^ Z.pos p)%Z as [|t|t] eqn:Et; try lia.
        simpl. lia. }
      rewrite (Qfloor_comp _ _ E). unfold Qfloor.
      rewrite Z2Pos.id by lia.
      unfold n. destruct s; simpl cond_Zopp.
      * assert (0 <= Z.pos m / 2 ^ Z.pos p)%Z by (apply Z.div_pos; lia).
        assert (Z.neg m / 2 ^ Z.pos p <= 0)%Z.
        { apply Z.div_le_upper_bound; lia. }
        lia.
      * reflexivity.
Qed.

Lemma distinct_NoDup (labels : list string) :
  distinct labels = true <-> NoDup labels.
Proof.
  induction labels as [|a tl IH]; simpl.
  - split; [intros _; constructor | reflexivity].
  - rewrite andb_true_iff, negb_true_iff, IH, NoDup_cons.
    assert (existsb (String.eqb a) tl = false <-> a ∉ tl) as ->; [|reflexivity].
    rewrite <- not_true_iff_false, existsb_exists. split.
    + intros H Hin. apply H. exists a. split; [now apply list_elem_of_In|].
      apply String.eqb_refl.
    + intros H (x & Hin & Heq). apply String.eqb_eq in Heq. subst x.
      apply H. now apply list_elem_of_In.
Qed.

(** ** Output file names are pairwise distinct *)

Lemma string_length_app (s t : string) :
  String.length (s +:+ t) = String.length s + String.length t.
Proof.
  induction s as [|c s IH]; [reflexivity|].
  change (S (String.length (s +:+ t)) = S (String.length s) + String.length t).
  now rewrite IH.
Qed.

Lemma string_app_inv_tail (s1 s2 t : string) : s1 +:+ t = s2 +:+ t -> s1 = s2.
Proof.
  revert s2. induction s1 as [|c s1 IH]; intros [|d s2]; intros H.
  - reflexivity.
  - apply (f_equal String.length) in H.
    rewrite !string_length_app in H. simpl in H. lia.
  - apply (f_equal String.length) in H.
    rewrite !string_length_app in H. simpl in H. lia.
  - change (String c (s1 +:+ t) = String d (s2 +:+ t)) in H.
    injection H as -> H. f_equal. now apply IH.
Qed.

Lemma parse_decimal_zeros k s : parse_decimal (zeros k +:+ s) = parse_decimal s.
Proof.
  unfold parse_decimal. induction k as [|k IH]; simpl; [reflexivity|].
  rewrite <- IH. now destruct (NilEmpty.uint_of_string (zeros k +:+ s)).
Qed.

Lemma parse_decimal_digits (n : N) :
  parse_decimal (NilZero.string_of_uint (N.to_uint n)) = Some n.
Proof.
  assert (N.to_uint n <> Decimal.Nil) as Hnil.
  { intros E. pose proof (f_equal N.of_uint E) as H.
    rewrite DecimalN.Unsigned.of_to in H. subst n. discriminate. }
  assert (NilZero.string_of_uint (N.to_uint n)
          = NilEmpty.string_of_uint (N.to_uint n)) as ->
    by (destruct (N.to_uint n); [contradiction | reflexivity ..]).
  unfold parse_decimal. rewrite NilEmpty.usu. simpl.
  now rewrite DecimalN.Unsigned.of_to.
Qed.

Lemma parse_format_04d n : parse_decimal (format_04d n) = Some n.
Proof. unfold format_04d. now rewrite parse_decimal_zeros, parse_decimal_digits. Qed.

Lemma format_04d_inj n m : format_04d n = format_04d m -> n = m.
Proof.
  intros H. apply (f_equal parse_decimal) in H.
  rewrite !parse_format_04d in H. now injection H.
Qed.

Lemma chunk_name_inj n m : chunk_name n = chunk_name m -> n = m.
Proof.
  unfold chunk_name, chunk_file_name. intros H. injection H as H.
  change (format_04d (N.of_nat n) +:+ ".parquet"
          = format_04d (N.of_nat m) +:+ ".parquet") in H.
  apply string_app_inv_tail, format_04d_inj in H. lia.
Qed.

Lemma output_file_inj (dir : path) n m :
  path_join dir (chunk_name n) = path_join dir (chunk_name m) -> n = m.
Proof.
  unfold path_join. intros H. apply app_inv_head in H.
  apply chunk_name_inj. exact (f_equal (fun l => List.hd "" l) H).
Qed.

(** ** The chunk iterator *)

Lemma read_rows_skip_good n ls rs rest :
  read_rows OnBadSkip n ls = Return (rs, rest) ->
  good_rows ls = (rs ++ good_rows rest)%list.
Proof.
  revert n rs rest. induction ls as [|l tl IH]; intros n rs rest; simpl.
  - now intros [= <- <-].
  - destruct (n =? 0)%N; [now intros [= <- <-]|].
    destruct l as [r| |]; [| |discriminate].
    + destruct (read_rows OnBadSkip (N.pred n) tl) as [[rs' rest']|e] eqn:E;
        [|discriminate].
      intros [= <- <-]. simpl. f_equal. eauto.
    + eauto.
Qed.

Lemma read_rows_length pol n ls rs rest :
  read_rows pol n ls = Return (rs, rest) -> (N.of_nat (length rs) <= n)%N.
Proof.
  revert n rs rest. induction ls as [|l tl IH]; intros n rs rest; simpl.
  - intros [= <- <-]. simpl. lia.
  - destruct (n =? 0)%N eqn:En; [intros [= <- <-]; simpl; lia|].
    apply N.eqb_neq in En.
    destruct l as [r| |]; [| |discriminate].
    + destruct (read_rows pol (N.pred n) tl) as [[rs' rest']|e] eqn:E;
        [|discriminate].
      intros [= <- <-]. apply IH in E. simpl. lia.
    + destruct pol; [discriminate|]. eauto.
Qed.

Lemma read_rows_none pol n ls rest :
  (0 < n)%N -> read_rows pol n ls = Return ([], rest) ->
  rest = [] /\ good_rows ls = [].
Proof.
  intros Hn. revert rest. induction ls as [|l tl IH]; intros rest; simpl.
  - now intros [= <-].
  - destruct (n =? 0)%N eqn:En; [apply N.eqb_eq in En; lia|].
    destruct l as [r| |]; [| |discriminate].
    + destruct (read_rows pol (N.pred n) tl) as [[rs' rest']|e]; discriminate.
    + destruct pol; [discriminate|]. eauto.
Qed.

Lemma read_rows_decodable n ls :
  forallb decodable ls = true ->
  exists rs rest, read_rows OnBadSkip n ls = Return (rs, rest)
                  /\ forallb decodable rest = true.
Proof.
  revert n. induction ls as [|l tl IH]; intros n H; simpl.
  - now exists [], [].
  - destruct (n =? 0)%N; [now exists [], (l :: tl)|].
    simpl in H. apply andb_prop in H as [Hl Htl].
    destruct l as [r| |]; [| |discriminate].
    + destruct (IH (N.pred n) Htl) as (rs & rest & -> & Hrest).
      now exists (r :: rs), rest.
    + now apply IH.
Qed.

Lemma read_rows_all_rows pol n ls :
  forallb is_row ls = true ->
  exists rs rest, read_rows pol n ls = Return (rs, rest)
                  /\ forallb is_row rest = true.
Proof.
  revert n. induction ls as [|l tl IH]; intros n H; simpl.
  - now exists [], [].
  - destruct (n =? 0)%N; [now exists [], (l :: tl)|].
    simpl in H. apply andb_prop in H as [Hl Htl].
    destruct l as [r| |]; try discriminate.
    destruct (IH (N.pred n) Htl) as (rs & rest & -> & Hrest).
    now exists (r :: rs), rest.
Qed.

(** With the default policy a read that succeeds has met records only. *)
Lemma read_rows_error_rows n ls rs rest :
  read_rows OnBadError n ls = Return (rs, rest) ->
  exists k, ls = (map Row rs ++ rest)%list /\ k = length rs.
Proof.
  revert n rs rest. induction ls as [|l tl IH]; intros n rs rest; simpl.
  - intros [= <- <-]. now exists 0.
  - destruct (n =? 0)%N; [intros [= <- <-]; now exists 0|].
    destruct l as [r| |]; try discriminate.
    destruct (read_rows OnBadError (N.pred n) tl) as [[rs' rest']|e] eqn:E;
      [|discriminate].
    intros [= <- <-]. destruct (IH _ _ _ E) as (k & -> & _).
    now exists (S (length rs')).
Qed.

(** Unfolding of [iterate] along [next_chunk]. *)
Lemma iterate_next r :
  iterate r =
  match next_chunk r with
  | None => []
  | Some (Raise e, _) => [Raise e]
  | Some (Return df, r') => Return df :: iterate r'
  end.
Proof.
  funelim (iterate r);
    match goal with H : next_chunk r = _ |- _ => now rewrite H end.
Qed.

(** Induction along the chunks of a reader. *)
Lemma reader_ind (P : TextFileReader -> Prop) :
  (forall r, (forall df r', next_chunk r = Some (Return df, r') -> P r') -> P r) ->
  forall r, P r.
Proof.
  intros step r.
  remember (tfr_measure r) as m eqn:Hm. revert r Hm.
  induction m as [m IH] using lt_wf_ind. intros r ->.
  apply step. intros df r' H.
  apply (IH (tfr_measure r')); [|reflexivity].
  eapply next_chunk_measure; eauto.
Qed.

Lemma next_chunk_return r df r' :
  next_chunk r = Some (Return df, r') ->
  exists rs,
    read_rows (tfr_on_bad_lines r) (tfr_chunksize r) (tfr_rest r)
      = Return (rs, tfr_rest r')
    /\ df = {| df_columns := tfr_columns r; df_start := tfr_pos r; df_rows := rs |}
    /\ tfr_columns r' = tfr_columns r
    /\ tfr_on_bad_lines r' = tfr_on_bad_lines r
    /\ tfr_chunksize r' = tfr_chunksize r
    /\ tfr_pos r' = tfr_pos r + length rs
    /\ tfr_first r' = false.
Proof.
  unfold next_chunk.
  destruct (read_rows _ _ _) as [[rs rest]|e]; [|discriminate].
  intros H. exists rs.
  destruct rs as [|r0 rs]; [destruct (tfr_first r); [|discriminate]|];
    injection H as <- <-; simpl; repeat split; reflexivity.
Qed.

Lemma next_chunk_stop r :
  next_chunk r = None ->
  exists rest,
    read_rows (tfr_on_bad_lines r) (tfr_chunksize r) (tfr_rest r)
      = Return ([], rest)
    /\ tfr_first r = false.
Proof.
  unfold next_chunk.
  destruct (read_rows _ _ _) as [[rs rest]|e]; [|discriminate].
  destruct rs as [|r0 rs]; [|discriminate].
  destruct (tfr_first r); [discriminate|]. intros _. now exists rest.
Qed.

Lemma next_chunk_raise r e r' :
  next_chunk r = Some (Raise e, r') ->
  read_rows (tfr_on_bad_lines r) (tfr_chunksize r) (tfr_rest r) = Raise e.
Proof.
  unfold next_chunk.
  destruct (read_rows _ _ _) as [[rs rest]|e0]; [|congruence].
  destruct rs, (tfr_first r); discriminate.
Qed.

(** Every chunk carries the header's columns and at most [chunksize]
    records. *)
Lemma iterate_chunks r :
  Forall (fun df => df_columns df = tfr_columns r
                    /\ (N.of_nat (df_len df) <= tfr_chunksize r)%N)
         (returned (iterate r)).
Proof.
  induction r as [r IH] using reader_ind.
  rewrite iterate_next.
  destruct (next_chunk r) as [[[df|e] r']|] eqn:E; simpl; try constructor.
  - destruct (next_chunk_return _ _ _ E) as (rs & Hr & -> & _).
    split; [reflexivity|]. now apply read_rows_length in Hr.
  - specialize (IH df r' eq_refl).
    destruct (next_chunk_return _ _ _ E) as (rs & _ & _ & Hc & _ & Hn & _).
    now rewrite <- Hc, <- Hn.
Qed.

(** With bad lines skipped, the chunks yielded before the reader stops or
    raises are consecutive slices of the file's records; they are all of
    them when the reader does not raise. *)
Lemma iterate_rows r :
  tfr_on_bad_lines r = OnBadSkip -> (0 < tfr_chunksize r)%N ->
  exists tail,
    good_rows (tfr_rest r) = (rows_of (returned (iterate r)) ++ tail)%list
    /\ (forallb is_return (iterate r) = true -> tail = []).
Proof.
  induction r as [r IH] using reader_ind. intros Hpol Hn.
  rewrite iterate_next.
  destruct (next_chunk r) as [[[df|e] r']|] eqn:E; simpl.
  - specialize (IH df r' eq_refl).
    destruct (next_chunk_return _ _ _ E) as (rs & Hr & -> & _ & Hp & Hc & _).
    rewrite Hpol in Hr. apply read_rows_skip_good in Hr.
    destruct IH as (tail & Ht & Hall); [congruence | lia |].
    exists tail. split; [|exact Hall].
    unfold rows_of in *. simpl. rewrite Hr, Ht. now rewrite app_assoc.
  - exists (good_rows (tfr_rest r)). split; [reflexivity | discriminate].
  - destruct (next_chunk_stop _ E) as (rest & Hr & _).
    apply read_rows_none in Hr as [_ Hr]; [|exact Hn].
    exists []. now rewrite Hr.
Qed.

(** With bad lines skipped, only an undecodable line makes the reader
    raise. *)
Lemma iterate_decodable r :
  tfr_on_bad_lines r = OnBadSkip ->
  forallb decodable (tfr_rest r) = true ->
  forallb is_return (iterate r) = true.
Proof.
  induction r as [r IH] using reader_ind. intros Hpol Hd.
  rewrite iterate_next.
  destruct (read_rows_decodable (tfr_chunksize r) _ Hd)
    as (rs & rest & Hr & Hrest).
  destruct (next_chunk r) as [[[df|e] r']|] eqn:E; simpl; [| |reflexivity].
  - destruct (next_chunk_return _ _ _ E) as (rs' & Hr' & _ & _ & Hp & _).
    apply (IH df r' eq_refl); [congruence|].
    rewrite Hpol, Hr in Hr'. now injection Hr' as _ <-.
  - apply next_chunk_raise in E. rewrite Hpol in E. congruence.
Qed.

(** The count of [get_total_rows]: with the default policy the sum is
    defined exactly when every line is a record, and then it is their
    number. *)
Lemma sum_len_all_rows r :
  tfr_on_bad_lines r = OnBadError -> (0 < tfr_chunksize r)%N ->
  forallb is_row (tfr_rest r) = true ->
  sum_len (iterate r) = Return (Z.of_nat (length (tfr_rest r))).
Proof.
  induction r as [r IH] using reader_ind. intros Hpol Hn Hrows.
  rewrite iterate_next.
  destruct (read_rows_all_rows OnBadError (tfr_chunksize r) _ Hrows)
    as (rs & rest & Hr & Hrest).
  destruct (read_rows_error_rows _ _ _ _ Hr) as (_ & Hls & _).
  destruct (next_chunk r) as [[[df|e] r']|] eqn:E; simpl.
  - destruct (next_chunk_return _ _ _ E) as (rs' & Hr' & -> & _ & Hp & Hc & _).
    rewrite Hpol, Hr in Hr'. injection Hr' as <- Hrest'.
    rewrite (IH _ r' eq_refl); [|congruence|lia|now rewrite <- Hrest'].
    rewrite <- Hrest'.
    unfold df_len. simpl. rewrite Hls, length_app, length_map.
    f_equal. lia.
  - apply next_chunk_raise in E. rewrite Hpol in E. congruence.
  - destruct (next_chunk_stop _ E) as (rest' & Hr' & _).
    rewrite Hpol, Hr in Hr'. injection Hr' as -> <-.
    apply read_rows_none in Hr as [-> _]; [|exact Hn].
    now rewrite Hls.
Qed.

Lemma sum_len_return r n :
  tfr_on_bad_lines r = OnBadError -> (0 < tfr_chunksize r)%N ->
  sum_len (iterate r) = Return n ->
  forallb is_row (tfr_rest r) = true.
Proof.
  revert n. induction r as [r IH] using reader_ind. intros n Hpol Hn.
  rewrite iterate_next.
  destruct (next_chunk r) as [[[df|e] r']|] eqn:E; simpl; [| discriminate |].
  - destruct (sum_len (iterate r')) as [m|e] eqn:Es; [|discriminate].
    intros _.
    destruct (next_chunk_return _ _ _ E) as (rs' & Hr' & -> & _ & Hp & Hc & _).
    rewrite Hpol in Hr'.
    destruct (read_rows_error_rows _ _ _ _ Hr') as (_ & Hls & _).
    rewrite Hls, forallb_app.
    apply andb_true_intro. split.
    + clear. induction rs' as [|x xs IHxs]; [reflexivity | exact IHxs].
    + apply (IH _ r' eq_refl m); [congruence | lia | exact Es].
  - intros _. destruct (next_chunk_stop _ E) as (rest' & Hr' & _).
    rewrite Hpol in Hr'.
    destruct (read_rows_error_rows _ _ _ _ Hr') as (_ & Hls & _).
    apply read_rows_none in Hr' as [-> _]; [|exact Hn].
    now rewrite Hls.
Qed.

(** ** The conversion loop *)

Section Loop.

Variable env : Env.
Variable output_dir : path.

Local Abbreviation out := (output_file output_dir).

Lemma out_inj i j : out i = out j -> i = j.
Proof. apply output_file_inj. Qed.

(** What one run of the loop leaves, whatever the environment does. *)
Lemma convert_chunks_spec chunks : forall k created w w' created' o,
  convert_chunks env output_dir chunks k created w = (w', created', o) ->
  exists dfs rest,
    chunks = (map Return dfs ++ rest)%list
    /\ created' = (created ++ map out (seq k (length dfs)))%list
    /\ stdout w' = stdout w
    /\ (forall i df, dfs !! i = Some df ->
          files w' !! out (k + i) = Some (ParquetFile (encode_parquet df false)))
    /\ (forall p, (forall i, k <= i <= k + length dfs -> p <> out i) ->
          files w' !! p = files w !! p)
    /\ match o with
       | Return _ => rest = []
       | Raise e => stopped_by env e rest (out (k + length dfs)) (files w')
       end.
Proof.
  induction chunks as [|[df|e] tl IH]; intros k created w w' created' o; simpl.
  - intros H; injection H; intros <- <- <-; clear H. exists [], []. simpl.
    rewrite app_nil_r. repeat split; auto. intros i df H. discriminate.
  - fold (out k). unfold to_parquet.
    destruct (disk env (files w) (out k) (encode_parquet df false)) eqn:Ed.
    + unfold getsize. simpl. rewrite lookup_insert_eq.
      intros H. apply IH in H as (dfs & rest & -> & -> & Hout & Hfiles & Hframe & Ho).
      exists (df :: dfs), rest. simpl in *.
      repeat split.
      * now rewrite <- app_assoc.
      * exact Hout.
      * intros [|i] df' Hi; simpl in Hi.
        -- injection Hi as <-. rewrite Nat.add_0_r.
           rewrite Hframe; [apply lookup_insert_eq|].
           intros i Hi E. apply out_inj in E. lia.
        -- replace (k + S i) with (S k + i) by lia. now apply Hfiles.
      * intros p Hp. rewrite Hframe.
        -- rewrite lookup_insert_ne; [reflexivity|].
           intros E. apply (Hp k); [lia | now symmetry].
        -- intros i Hi. apply Hp. lia.
      * now replace (k + S (length dfs)) with (S k + length dfs) by lia.
    + intros H; injection H; intros <- <- <-; clear H. exists [], (Return df :: tl). simpl.
      rewrite app_nil_r, Nat.add_0_r. repeat split; auto.
      * intros i df' H. discriminate.
      * left. eauto.
    + intros H; injection H; intros <- <- <-; clear H. exists [], (Return df :: tl). simpl.
      rewrite app_nil_r, Nat.add_0_r. repeat split; auto.
      * intros i df' H. discriminate.
      * intros p Hp. rewrite lookup_insert_ne; [reflexivity|].
        intros E. apply (Hp k); [lia | now symmetry].
      * right. split; [eauto | apply lookup_insert_eq].
  - intros H; injection H; intros <- <- <-; clear H. exists [], (Raise e :: tl). simpl.
    rewrite app_nil_r. repeat split; auto. intros i df H. discriminate.
Qed.

(** While the environment stores every write, the loop goes on. *)
Lemma convert_chunks_stored dfs rest : forall k created w,
  (forall fs i df, dfs !! i = Some df ->
     disk env fs (out (k + i)) (encode_parquet df false) = Stored) ->
  convert_chunks env output_dir (map Return dfs ++ rest) k created w
  = convert_chunks env output_dir rest (k + length dfs)
      (created ++ map out (seq k (length dfs))) (store_all output_dir dfs k w).
Proof.
  induction dfs as [|df tl IH]; intros k created w Hd; simpl.
  - now rewrite Nat.add_0_r, app_nil_r.
  - fold (out k). unfold to_parquet.
    pose proof (Hd (files w) 0 df eq_refl) as H0.
    rewrite Nat.add_0_r in H0. rewrite H0.
    unfold getsize. simpl. rewrite lookup_insert_eq.
    rewrite IH.
    + rewrite <- app_assoc. simpl.
      now replace (k + S (length tl)) with (S (k + length tl)) by lia.
    + intros fs i df' Hi. replace (S k + i) with (k + S i) by lia.
      now apply Hd.
Qed.

Lemma store_all_stdout dfs : forall k w, stdout (store_all output_dir dfs k w) = stdout w.
Proof. induction dfs as [|df tl IH]; intros k w; simpl; [|rewrite IH]; reflexivity. Qed.

Lemma store_all_frame dfs : forall k w p,
  (forall i, k <= i < k + length dfs -> p <> out i) ->
  files (store_all output_dir dfs k w) !! p = files w !! p.
Proof.
  induction dfs as [|df tl IH]; intros k w p Hp; simpl; [reflexivity|].
  rewrite IH.
  - simpl. rewrite lookup_insert_ne; [reflexivity|].
    intros E. apply (Hp k); [simpl; lia | now symmetry].
  - intros i Hi. apply Hp. simpl. lia.
Qed.

Lemma store_all_lookup dfs : forall k w i df,
  dfs !! i = Some df ->
  files (store_all output_dir dfs k w) !! out (k + i)
  = Some (ParquetFile (encode_parquet df false)).
Proof.
  induction dfs as [|df0 tl IH]; intros k w i df Hi; [discriminate|].
  destruct i as [|i]; simpl in *.
  - injection Hi as <-. rewrite Nat.add_0_r.
    rewrite store_all_frame; [apply lookup_insert_eq|].
    intros i Hi E. apply out_inj in E. lia.
  - replace (k + S i) with (S k + i) by lia. now apply IH.
Qed.

End Loop.

(** ** The standard output does not influence a run *)

Section Frame.

Variable env : Env.

Lemma open_csv_files w1 w2 p :
  files w1 = files w2 -> open_csv w1 p = open_csv w2 p.
Proof. unfold open_csv. now intros ->. Qed.

Lemma read_csv_chunks_files w1 w2 p n pol :
  files w1 = files w2 -> read_csv_chunks w1 p n pol = read_csv_chunks w2 p n pol.
Proof. intros H. unfold read_csv_chunks. now rewrite (open_csv_files _ _ _ H). Qed.

Lemma estimate_try_files self w1 w2 p size :
  files w1 = files w2 ->
  estimate_rows_per_chunk_try env self w1 p size
  = estimate_rows_per_chunk_try env self w2 p size.
Proof.
  intros H. unfold estimate_rows_per_chunk_try, read_csv_nrows.
  now rewrite (open_csv_files _ _ _ H).
Qed.

Lemma convert_chunks_files dir chunks : forall k created w1 w2,
  files w1 = files w2 ->
  match convert_chunks env dir chunks k created w1,
        convert_chunks env dir chunks k created w2 with
  | (w1', c1, o1), (w2', c2, o2) =>
      files w1' = files w2' /\ c1 = c2 /\ o1 = o2
      /\ stdout w1' = stdout w1 /\ stdout w2' = stdout w2
  end.
Proof.
  induction chunks as [|[df|e] tl IH]; intros k created w1 w2 H; simpl; auto.
  unfold to_parquet. rewrite <- H.
  destruct (disk env (files w1) _ _); simpl; auto.
  - unfold getsize. simpl. rewrite !lookup_insert_eq.
    exact (IH _ _ {| files := _; stdout := stdout w1 |}
                  {| files := _; stdout := stdout w2 |} eq_refl).
Qed.

Lemma print_created_ok created : forall w,
  (forall p, In p created -> is_Some (files w !! p)) ->
  exists w', print_created env created w = (w', Return tt)
             /\ files w' = files w.
Proof.
  induction created as [|p tl IH]; intros w H; simpl.
  - now exists w.
  - unfold getsize. destruct (H p (or_introl eq_refl)) as [nd ->].
    destruct (IH (print (CreatedFile (path_name p) (file_size env nd)) w))
      as (w' & -> & Hf).
    + intros q Hq. simpl. apply H. now right.
    + now exists w'.
Qed.

End Frame.

(** ** A run of [split_and_convert] *)

Section Run.

Variable env : Env.

Lemma estimate_rows_per_chunk_returns self p size w :
  exists w', estimate_rows_per_chunk env self p size w
             = (w', Return (rows_per_chunk_of env self w p size))
             /\ files w' = files w.
Proof.
  unfold estimate_rows_per_chunk, rows_per_chunk_of.
  destruct (estimate_rows_per_chunk_try env self w p size); eauto.
Qed.

Lemma rows_per_chunk_of_files self w1 w2 p size :
  files w1 = files w2 ->
  rows_per_chunk_of env self w1 p size = rows_per_chunk_of env self w2 p size.
Proof.
  intros H. unfold rows_per_chunk_of. now rewrite (estimate_try_files _ _ _ _ _ _ H).
Qed.

Lemma rows_per_chunk_of_floor self w p size :
  (1000 <= rows_per_chunk_of env self w p size)%Z.
Proof.
  unfold rows_per_chunk_of, estimate_rows_per_chunk_try.
  destruct (read_csv_nrows _ _ _ _); [|lia].
  destruct (float_mul_int _ _); [|lia].
  destruct (py_int _); lia.
Qed.

Lemma get_total_rows_returns self p w :
  exists w' total, get_total_rows self p w = (w', Return total)
                   /\ files w' = files w.
Proof.
  unfold get_total_rows. destruct (get_total_rows_try w p); eauto.
Qed.

(** What the [try] block of [split_and_convert] leaves. *)
Lemma split_and_convert_try_spec input_csv output_dir n w w' created o :
  split_and_convert_try env input_csv output_dir n w = (w', created, o) ->
  match read_csv_chunks w input_csv n OnBadSkip with
  | Raise e => files w' = files w /\ stdout w' = stdout w
               /\ created = [] /\ o = Raise e
  | Return reader =>
      exists dfs rest,
        iterate reader = (map Return dfs ++ rest)%list
        /\ created = map (output_file output_dir) (seq 0 (length dfs))
        /\ (forall i df, dfs !! i = Some df ->
              files w' !! output_file output_dir i
              = Some (ParquetFile (encode_parquet df false)))
        /\ (forall p, (forall i, i <= length dfs -> p <> output_file output_dir i) ->
              files w' !! p = files w !! p)
        /\ match o with
           | Return _ => rest = []
           | Raise e =>
               stdout w' = stdout w
               /\ stopped_by env e rest (output_file output_dir (length dfs))
                    (files w')
           end
  end.
Proof.
  unfold split_and_convert_try.
  destruct (read_csv_chunks w input_csv n OnBadSkip) as [reader|e].
  2:{ intros H; injection H; intros <- <- <-. auto. }
  destruct (convert_chunks env output_dir (iterate reader) 0 [] w)
    as [[w1 created1] o1] eqn:E.
  apply convert_chunks_spec in E
    as (dfs & rest & Hit & Hc & Hout & Hfiles & Hframe & Ho).
  simpl in Hc.
  assert (forall i df, dfs !! i = Some df ->
            files w1 !! output_file output_dir i
            = Some (ParquetFile (encode_parquet df false))) as Hfiles'
    by (intros i df Hi; exact (Hfiles i df Hi)).
  clear Hfiles. rename Hfiles' into Hfiles.
  assert (forall p, In p created1 -> is_Some (files w1 !! p)) as Hex.
  { intros p Hp. subst created1. apply in_map_iff in Hp as (i & <- & Hi).
    apply in_seq in Hi. destruct (lookup_lt_is_Some_2 dfs i) as [df Hdf]; [lia|].
    rewrite (Hfiles i df Hdf). eauto. }
  destruct o1 as [[]|e].
  - destruct (print_created_ok env created1
                (print (CreatedCount (length created1)) w1) Hex)
      as (w2 & -> & Hw2).
    intros H; injection H; intros <- <- <-.
    exists dfs, rest. simpl in Hw2. rewrite Hw2.
    repeat split; auto.
    intros p Hp. apply Hframe. intros i Hi. apply Hp. lia.
  - intros H; injection H; intros <- <- <-.
    exists dfs, rest. repeat split; auto.
    intros p Hp. apply Hframe. intros i Hi. apply Hp. lia.
Qed.

(** Once the output directory exists, a call is the [try] block run on a
    world with the same files, its exception printed and dropped. *)
Lemma split_and_convert_steps self input_csv output_dir arg w :
  mkdir_ok env output_dir = true ->
  let self' := with_override self arg in
  let n := rows_per_chunk_of env self' w input_csv (chunk_size_mb self') in
  exists w0,
    files w0 = files w
    /\ split_and_convert env self input_csv output_dir arg w
       = let '(w1, created, o) :=
           split_and_convert_try env input_csv output_dir n w0 in
         (self',
          match o with
          | Return _ => w1
          | Raise e => print (ErrorDuringConversion e) w1
          end,
          Return created).
Proof.
  intros Hmk self' n. unfold split_and_convert, mkdir. rewrite Hmk.
  fold (with_override self arg). fold self'.
  destruct (get_total_rows_returns self' input_csv w) as (wa & total & -> & Ha).
  unfold split_and_convert_from.
  destruct (estimate_rows_per_chunk_returns self' input_csv (chunk_size_mb self') wa)
    as (wb & -> & Hb).
  rewrite (rows_per_chunk_of_files self' wa w) by exact Ha. fold n.
  destruct total as [t|]; simpl; [destruct (negb (t =? 0)%Z); simpl|].
  1: destruct (negb (math_ceil_div t n =? 0)%Z).
  all: match goal with
       | |- exists _, _ /\ ?lhs = _ =>
           match lhs with
           | context [split_and_convert_try _ _ _ _ ?wc] => exists wc
           end
       end.
  all: split; [simpl; congruence|].
  all: now destruct (split_and_convert_try _ _ _ _ _) as [[w1 created] [[]|e]].
Qed.

End Run.

(** What a call leaves, whatever the environment does. *)
Lemma split_and_convert_spec (env : Env) self input_csv output_dir arg w :
  let self' := with_override self arg in
  let n := rows_per_chunk_of env self' w input_csv (chunk_size_mb self') in
  mkdir_ok env output_dir = true ->
  exists w' created,
    split_and_convert env self input_csv output_dir arg w
    = (self', w', Return created)
    /\ match read_csv_chunks w input_csv n OnBadSkip with
       | Raise e =>
           created = [] /\ files w' = files w
           /\ last (stdout w') = Some (ErrorDuringConversion e)
       | Return reader =>
           exists dfs rest,
             iterate reader = (map Return dfs ++ rest)%list
             /\ created = map (output_file output_dir) (seq 0 (length dfs))
             /\ (forall i df, dfs !! i = Some df ->
                   files w' !! output_file output_dir i
                   = Some (ParquetFile (encode_parquet df false)))
             /\ (forall p,
                   (forall i, i <= length dfs -> p <> output_file output_dir i) ->
                   files w' !! p = files w !! p)
             /\ (rest = []
                 \/ exists e,
                      stopped_by env e rest
                        (output_file output_dir (length dfs)) (files w')
                      /\ last (stdout w') = Some (ErrorDuringConversion e))
       end.
Proof.
  intros self' n Hmk.
  destruct (split_and_convert_steps env self input_csv output_dir arg w Hmk)
    as (w0 & Hw0 & ->).
  fold self'. fold n.
  destruct (split_and_convert_try env input_csv output_dir n w0)
    as [[w1 created] o] eqn:E.
  apply split_and_convert_try_spec in E.
  rewrite (read_csv_chunks_files w0 w) in E by exact Hw0.
  eexists _, created. split; [reflexivity|].
  destruct (read_csv_chunks w input_csv n OnBadSkip) as [reader|e].
  - destruct E as (dfs & rest & Hit & Hc & Hfiles & Hframe & Ho).
    exists dfs, rest. destruct o as [[]|e].
    + repeat split; auto. intros p Hp. rewrite Hframe, Hw0; auto.
    + destruct Ho as [Hout Hstop]. repeat split; auto.
      * intros p Hp. simpl. rewrite Hframe, Hw0; auto.
      * right. exists e. split; [exact Hstop | apply last_snoc].
  - destruct E as (Hf & Hout & -> & ->). repeat split.
    + simpl. congruence.
    + apply last_snoc.
Qed.

Lemma sorted_names_app_l l1 l2 :
  sorted_names (l1 ++ l2) = true -> sorted_names l1 = true.
Proof.
  induction l1 as [|a [|b l1] IH]; simpl; try reflexivity.
  intros H. apply andb_prop in H as [H1 H2].
  rewrite H1. simpl. now apply IH.
Qed.

Lemma path_name_join dir name : path_name (path_join dir name) = name.
Proof. unfold path_name, path_join. apply List.last_last. Qed.

Lemma names_of_output_files dir k n :
  map path_name (map (output_file dir) (seq k n)) = map chunk_name (seq k n).
Proof.
  rewrite map_map. apply map_ext. intros i. apply path_name_join.
Qed.

Lemma increasing_from_sorted n : forall k,
  increasing_from (N.of_nat k) n = true ->
  sorted_names (map chunk_name (seq k (S n))) = true.
Proof.
  induction n as [|n IH]; intros k H; [reflexivity|].
  simpl in H. apply andb_prop in H as [H1 H2].
  rewrite <- Nat2N.inj_succ in H1, H2.
  change (String.ltb (chunk_file_name (N.of_nat k))
                     (chunk_file_name (N.of_nat (S k)))
          && sorted_names (map chunk_name (seq (S k) (S n))) = true).
  rewrite H1. simpl. now apply IH.
Qed.

Lemma increasing_from_0_9999 :
  increasing_from (N.of_nat 0) (N.to_nat 9999) = true.
Proof. vm_compute. reflexivity. Qed.

Lemma sorted_names_10000 :
  sorted_names (map chunk_name (seq 0 (N.to_nat 10000))) = true.
Proof.
  replace (N.to_nat 10000) with (S (N.to_nat 9999)) by lia.
  apply (increasing_from_sorted _ 0). exact increasing_from_0_9999.
Qed.

Lemma sorted_names_upto n :
  n <= N.to_nat 10000 -> sorted_names (map chunk_name (seq 0 n)) = true.
Proof.
  intros Hn.
  apply (sorted_names_app_l _ (map chunk_name (seq n (N.to_nat 10000 - n)))).
  rewrite <- map_app, <- seq_app.
  replace (n + (N.to_nat 10000 - n)) with (N.to_nat 10000) by lia.
  exact sorted_names_10000.
Qed.

Lemma sorted_names_seq_adjacent n : forall k i,
  sorted_names (map chunk_name (seq k n)) = true ->
  k <= i -> S i < k + n ->
  String.ltb (chunk_name i) (chunk_name (S i)) = true.
Proof.
  induction n as [|n IH]; intros k i H Hk Hi; [lia|].
  destruct n as [|n]; [lia|].
  change (String.ltb (chunk_name k) (chunk_name (S k))
          && sorted_names (map chunk_name (seq (S k) (S n))) = true) in H.
  apply andb_prop in H as [H1 H2].
  destruct (decide (i = k)) as [->|Hne]; [exact H1|].
  apply (IH (S k)); [exact H2 | lia | lia].
Qed.

(** Segment 10000 is named before segment 9999 in lexicographic order. *)
Lemma name_10000_before_9999 :
  String.ltb (chunk_name (N.to_nat 9999)) (chunk_name (S (N.to_nat 9999)))
  = false.
Proof. vm_compute. reflexivity. Qed.

Lemma unsorted_names_above n :
  N.to_nat 10000 < n -> sorted_names (map chunk_name (seq 0 n)) = false.
Proof.
  intros Hn. destruct (sorted_names (map chunk_name (seq 0 n))) eqn:E;
    [|reflexivity].
  apply (sorted_names_seq_adjacent n 0 (N.to_nat 9999)) in E; [|lia|lia].
  now rewrite name_10000_before_9999 in E.
Qed.

Lemma NoDup_output_files dir k n : NoDup (map (output_file dir) (seq k n)).
Proof.
  apply NoDup_fmap_2; [|apply NoDup_seq].
  intros i j. apply output_file_inj.
Qed.

(** *** More than 10000 segments *)

Lemma read_rows_repeat pol r m : forall n,
  N.to_nat n <= m ->
  read_rows pol n (repeat (Row r) m)
  = Return (repeat r (N.to_nat n), repeat (Row r) (m - N.to_nat n)).
Proof.
  induction m as [|m IH]; intros n Hn; simpl.
  - replace (N.to_nat n) with 0 by lia. reflexivity.
  - destruct (n =? 0)%N eqn:En.
    + apply N.eqb_eq in En. subst n. reflexivity.
    + apply N.eqb_neq in En. rewrite IH by lia.
      replace (N.to_nat n) with (S (N.to_nat (N.pred n))) by lia.
      reflexivity.
Qed.

Lemma good_rows_repeat r m : good_rows (repeat (Row r) m) = repeat r m.
Proof. induction m as [|m IH]; simpl; [|rewrite IH]; reflexivity. Qed.

Lemma decodable_repeat r m : forallb decodable (repeat (Row r) m) = true.
Proof. induction m as [|m IH]; simpl; [|rewrite IH]; reflexivity. Qed.

Lemma rows_of_length_le c dfs :
  Forall (fun df => df_len df <= c) dfs -> length (rows_of dfs) <= c * length dfs.
Proof.
  unfold rows_of. induction 1 as [|df dfs Hdf _ IH]; simpl; [lia|].
  rewrite length_app. unfold df_len in Hdf. lia.
Qed.

Lemma returned_map_Return {A} (l : list A) : returned (map Return l) = l.
Proof. induction l as [|a l IH]; simpl; [|rewrite IH]; reflexivity. Qed.

(** With a budget of 1 KiB per segment, an input of more than ten
    million records gives more than 10000 segments. *)
Lemma many_segments r m :
  N.to_nat 10000000 < m ->
  exists w' created,
    split_and_convert (demo_env (fun _ => None)) demo_self demo_input demo_dir
      None (demo_world (repeat (Row r) m))
    = (demo_self, w', Return created)
    /\ created = map (output_file demo_dir) (seq 0 (length created))
    /\ N.to_nat 10000 < length created.
Proof.
  intros Hm.
  set (env := demo_env (fun _ => None)).
  set (w := demo_world (repeat (Row r) m)).
  assert (rows_per_chunk_of env demo_self w demo_input (chunk_size_mb demo_self)
          = 1000%Z) as Hn.
  { unfold rows_per_chunk_of, estimate_rows_per_chunk_try, read_csv_nrows,
      open_csv, w, demo_world. simpl files.
    rewrite lookup_singleton_eq. simpl csv_lines.
    rewrite (read_rows_repeat OnBadSkip r m 1000) by lia.
    vm_compute. reflexivity. }
  destruct (split_and_convert_spec env demo_self demo_input demo_dir None w
              eq_refl) as (w' & created & Hrun & Hspec).
  simpl with_override in Hspec. rewrite Hn in Hspec.
  unfold read_csv_chunks, open_csv, w, demo_world in Hspec. simpl files in Hspec.
  rewrite lookup_singleton_eq in Hspec. simpl in Hspec.
  destruct Hspec as (dfs & rest & Hit & Hc & _ & _ & Hrest).
  set (reader := {| tfr_columns := ["id"; "name"];
                    tfr_on_bad_lines := OnBadSkip;
                    tfr_chunksize := 1000; tfr_pos := 0; tfr_first := true;
                    tfr_rest := repeat (Row r) m |}) in *.
  pose proof (iterate_decodable reader eq_refl (decodable_repeat r m)) as Hret.
  assert (rest = []) as ->.
  { destruct Hrest as [H | (e & Hstop & _)]; [exact H|].
    rewrite Hit, forallb_app in Hret. apply andb_prop in Hret as [_ Hret].
    destruct rest as [|[df|e'] tl]; simpl in *;
      [contradiction | | discriminate].
    destruct Hstop as [[fs H] | [[fs H] _]]; discriminate. }
  rewrite app_nil_r in Hit.
  destruct (iterate_rows reader eq_refl) as (tail & Hrows & Htail);
    [reflexivity|].
  rewrite (Htail Hret), app_nil_r, Hit, returned_map_Return in Hrows.
  simpl tfr_rest in Hrows. rewrite good_rows_repeat in Hrows.
  pose proof (iterate_chunks reader) as Hchunks.
  rewrite Hit, returned_map_Return in Hchunks.
  assert (length (rows_of dfs) <= N.to_nat 1000 * length dfs) as Hlen.
  { apply rows_of_length_le. eapply Forall_impl; [exact Hchunks|].
    simpl. intros df [_ H]. lia. }
  rewrite <- Hrows, repeat_length in Hlen.
  assert (length created = length dfs) as Hk
    by (rewrite Hc, length_map; apply length_seq).
  exists w', created. split; [exact Hrun|]. split.
  - now rewrite Hk.
  - lia.
Qed.

(** *** The estimate *)

(** The average footprint of a record is never negative. *)
Lemma average_sign (env : Env) (df : DataFrame) :
  average_bytes_per_record env df = S754_nan
  \/ has_sign false (average_bytes_per_record env df).
Proof.
  unfold average_bytes_per_record, np_true_divide.
  apply (SFdiv_sign false false); apply int_to_float_nonneg; lia.
Qed.

(** A quotient below 1 leaves the floor of 1000 records. *)
Lemma quotient_below (target avg : pyfloat) (k : Z) :
  avg = S754_nan \/ has_sign false avg ->
  float_lt target avg ->
  py_int (np_true_divide target avg) = Return k ->
  (k <= 2)%Z.
Proof.
  unfold np_true_divide. intros Havg Hlt Hk.
  destruct Havg as [->|Hs].
  { destruct target as [[]|[]| |]; simpl in Hlt; contradiction. }
  destruct avg as [sa|sa| |sa ma ea]; simpl in Hs; try contradiction; subst sa.
  - destruct target as [st|st| |st mt et]; simpl in Hlt, Hk;
      try discriminate; try contradiction; try (injection Hk as <-; lia).
  - destruct target as [st|st| |st mt et]; simpl in Hlt, Hk;
      try discriminate; try contradiction; try (injection Hk as <-; lia).
  - destruct target as [st|st| |st mt et];
      try (simpl in Hlt, Hk; try discriminate; try contradiction;
           injection Hk as <-; lia).
    destruct st.
    + assert (k <= 0)%Z; [|lia].
        apply (py_int_negative (SFdiv 53 1024 (S754_finite true mt et)
                                  (S754_finite false ma ea))); [|exact Hk].
        destruct (SFdiv_sign true false (S754_finite true mt et)
                    (S754_finite false ma ea) eq_refl eq_refl) as [E|E];
          [rewrite E in Hk; discriminate | exact E].
    + unfold float_lt, float_exponent, float_scaled, cond_Zopp in Hlt.
        eapply SFdiv_below; [exact Hlt | exact Hk].
Qed.

(** So does a target that is not positive. *)
Lemma quotient_nonpositive (target avg : pyfloat) (k : Z) :
  avg = S754_nan \/ has_sign false avg ->
  has_sign true target \/ target = S754_zero false ->
  py_int (np_true_divide target avg) = Return k ->
  (k <= 0)%Z.
Proof.
  unfold np_true_divide. intros Havg Ht Hk.
  destruct Havg as [->|Hs].
  { destruct target; discriminate. }
  destruct Ht as [Ht| ->].
  - apply (py_int_negative (SFdiv 53 1024 target avg)); [|exact Hk].
    destruct (SFdiv_sign true false target avg Ht Hs) as [E|E];
      [rewrite E in Hk; discriminate | exact E].
  - destruct avg; simpl in Hk; try discriminate; injection Hk as <-; lia.
Qed.

Lemma read_rows_no_record n ls :
  good_rows ls = [] -> forallb decodable ls = true ->
  exists rest, read_rows OnBadSkip n ls = Return ([], rest).
Proof.
  intros Hgood Hdec.
  destruct (read_rows_decodable n ls Hdec) as (rs & rest & Hr & _).
  pose proof (read_rows_skip_good _ _ _ _ Hr) as H.
  rewrite Hgood in H. destruct rs; [eauto | discriminate].
Qed.

(** The failures the [except] clause does catch. *)
Lemma estimate_default_on_read_error (env : Env) self w csv_path size e :
  read_csv_nrows w csv_path 1000 OnBadSkip = Raise e ->
  estimate_rows_per_chunk env self csv_path size w
  = (print (ErrorEstimating e) w, Return 10000%Z).
Proof.
  intros H. unfold estimate_rows_per_chunk, estimate_rows_per_chunk_try.
  now rewrite H.
Qed.

(** *** The count *)

Lemma print_created_files (env : Env) created : forall w1 w2,
  files w1 = files w2 ->
  result_of (print_created env created w1) = result_of (print_created env created w2).
Proof.
  induction created as [|p tl IH]; intros w1 w2 H; simpl.
  - unfold result_of. simpl. now rewrite H.
  - unfold getsize. rewrite H. destruct (files w2 !! p) as [nd|].
    + apply IH. simpl. exact H.
    + unfold result_of. simpl. now rewrite H.
Qed.

Lemma split_and_convert_try_files (env : Env) input_csv output_dir n w1 w2 :
  files w1 = files w2 ->
  match split_and_convert_try env input_csv output_dir n w1,
        split_and_convert_try env input_csv output_dir n w2 with
  | (w1', c1, o1), (w2', c2, o2) => files w1' = files w2' /\ c1 = c2 /\ o1 = o2
  end.
Proof.
  intros H. unfold split_and_convert_try.
  rewrite (read_csv_chunks_files w1 w2) by exact H.
  destruct (read_csv_chunks w2 input_csv n OnBadSkip) as [reader|e]; [|auto].
  pose proof (convert_chunks_files env output_dir (iterate reader) 0 [] w1 w2 H)
    as Hc.
  destruct (convert_chunks env output_dir (iterate reader) 0 [] w1)
    as [[wa ca] oa].
  destruct (convert_chunks env output_dir (iterate reader) 0 [] w2)
    as [[wb cb] ob].
  destruct Hc as (Hf & <- & <- & _). destruct oa as [[]|e]; [|auto].
  pose proof (print_created_files env ca
                (print (CreatedCount (length ca)) wa)
                (print (CreatedCount (length ca)) wb) Hf) as Hp.
  destruct (print_created env ca (print (CreatedCount (length ca)) wa))
    as [wa' [[]|ea]];
  destruct (print_created env ca (print (CreatedCount (length ca)) wb))
    as [wb' [[]|eb]];
  unfold result_of in Hp; simpl in Hp; inversion Hp; subst; auto.
Qed.

Lemma split_and_convert_from_steps (env : Env) self input_csv output_dir total w :
  let n := rows_per_chunk_of env self w input_csv (chunk_size_mb self) in
  exists w0,
    files w0 = files w
    /\ split_and_convert_from env self input_csv output_dir total w
       = let '(w1, created, o) :=
           split_and_convert_try env input_csv output_dir n w0 in
         (match o with
          | Return _ => w1
          | Raise e => print (ErrorDuringConversion e) w1
          end,
          Return created).
Proof.
  intros n. unfold split_and_convert_from.
  destruct (estimate_rows_per_chunk_returns env self input_csv (chunk_size_mb self) w)
    as (wb & -> & Hb).
  fold n.
  destruct total as [t|]; simpl; [destruct (negb (t =? 0)%Z); simpl|].
  1: destruct (negb (math_ceil_div t n =? 0)%Z).
  all: match goal with
       | |- exists _, _ /\ ?lhs = _ =>
           match lhs with
           | context [split_and_convert_try _ _ _ _ ?wc] => exists wc
           end
       end.
  all: split; [simpl; congruence|].
  all: now destruct (split_and_convert_try _ _ _ _ _) as [[w1 created] [[]|e]].
Qed.

(** The value of [total_rows] and the standard output do not influence
    the conversion. *)
Lemma split_and_convert_from_result (env : Env) self input_csv output_dir
    total1 total2 w1 w2 :
  files w1 = files w2 ->
  result_of (split_and_convert_from env self input_csv output_dir total1 w1)
  = result_of (split_and_convert_from env self input_csv output_dir total2 w2).
Proof.
  intros H.
  destruct (split_and_convert_from_steps env self input_csv output_dir total1 w1)
    as (wa & Ha & ->).
  destruct (split_and_convert_from_steps env self input_csv output_dir total2 w2)
    as (wb & Hb & ->).
  rewrite (rows_per_chunk_of_files env self w1 w2) by exact H.
  pose proof (split_and_convert_try_files env input_csv output_dir
                (rows_per_chunk_of env self w2 input_csv (chunk_size_mb self))
                wa wb) as Ht.
  destruct (split_and_convert_try _ _ _ _ wa) as [[wa' ca] oa].
  destruct (split_and_convert_try _ _ _ _ wb) as [[wb' cb] ob].
  destruct Ht as (Hf & <- & <-); [congruence|].
  unfold result_of. destruct oa; simpl; now rewrite Hf.
Qed.

Lemma get_total_rows_try_all_rows w p c :
  files w !! p = Some (CsvFile c) -> forallb is_row (csv_lines c) = true ->
  get_total_rows_try w p = Return (Z.of_nat (length (csv_lines c))).
Proof.
  intros Hf Hrows. unfold get_total_rows_try, read_csv_chunks, open_csv.
  rewrite Hf. simpl.
  now apply (sum_len_all_rows
               {| tfr_columns := csv_header c; tfr_on_bad_lines := OnBadError;
                  tfr_chunksize := 10000; tfr_pos := 0; tfr_first := true;
                  tfr_rest := csv_lines c |}).
Qed.

Lemma get_total_rows_try_return w p n :
  get_total_rows_try w p = Return n ->
  exists c, files w !! p = Some (CsvFile c)
            /\ forallb is_row (csv_lines c) = true
            /\ n = Z.of_nat (length (csv_lines c)).
Proof.
  unfold get_total_rows_try, read_csv_chunks, open_csv.
  destruct (files w !! p) as [[c| |]|] eqn:Hf; try discriminate.
  simpl. intros H. exists c. split; [reflexivity|].
  assert (forallb is_row (csv_lines c) = true) as Hrows
    by exact (sum_len_return
                {| tfr_columns := csv_header c; tfr_on_bad_lines := OnBadError;
                   tfr_chunksize := 10000; tfr_pos := 0; tfr_first := true;
                   tfr_rest := csv_lines c |} n eq_refl eq_refl H).
  split; [exact Hrows|].
  pose proof (get_total_rows_try_all_rows w p c Hf Hrows) as H'.
  unfold get_total_rows_try, read_csv_chunks, open_csv in H'.
  rewrite Hf in H'. simpl in H'. congruence.
Qed.

(** *** Segments and records *)

Lemma returned_app_map {A} (l : list A) (r : list (outcome A)) :
  returned (map Return l ++ r) = (l ++ returned r)%list.
Proof. induction l as [|a l IH]; simpl; [|rewrite IH]; reflexivity. Qed.

Lemma rows_of_app dfs1 dfs2 :
  rows_of (dfs1 ++ dfs2) = (rows_of dfs1 ++ rows_of dfs2)%list.
Proof. unfold rows_of. now rewrite map_app, concat_app. Qed.

Lemma is_return_map_Return {A} (l : list A) :
  forallb is_return (map Return l) = true.
Proof. induction l as [|a l IH]; simpl; [|rewrite IH]; reflexivity. Qed.

(** *** Requests that are not valid *)

Lemma split_and_convert_no_directory (env : Env) self input_csv output_dir arg w :
  mkdir_ok env output_dir = false ->
  split_and_convert env self input_csv output_dir arg w
  = (with_override self arg, w, Raise OSError).
Proof. intros H. unfold split_and_convert, mkdir. now rewrite H. Qed.

Lemma target_nonpositive self size target :
  non_positive size -> (0 < bytes_per_mb self)%Z ->
  target_bytes self size = Return target ->
  target = S754_nan \/ non_positive target.
Proof.
  unfold target_bytes, float_mul_int, non_positive. intros Hs Hb.
  pose proof (int_to_float_positive (bytes_per_mb self) Hb) as Hy.
  destruct (int_to_float (bytes_per_mb self)) as [sy|sy| |sy my ey];
    try contradiction; [discriminate|]. subst sy.
  intros [= <-]. destruct Hs as [Hs| ->].
  - destruct (SFmul_sign true false size (S754_finite false my ey) Hs eq_refl)
      as [E|E]; auto.
  - right. right. reflexivity.
Qed.

(** For a size that is not positive the estimate is the floor of 1000
    records, or the default when the quotient is not a number a record
    count can be made of. *)
Lemma rows_per_chunk_nonpositive_size (env : Env) self w csv_path size :
  non_positive size -> (0 < bytes_per_mb self)%Z ->
  let n := rows_per_chunk_of env self w csv_path size in
  (n = 1000%Z \/ n = 10000%Z)
  /\ (forall sample_df target,
        read_csv_nrows w csv_path 1000 OnBadSkip = Return sample_df ->
        target_bytes self size = Return target ->
        is_finite (np_true_divide target (average_bytes_per_record env sample_df))
        = true ->
        n = 1000%Z).
Proof.
  intros Hs Hb n. subst n. unfold rows_per_chunk_of, estimate_rows_per_chunk_try.
  destruct (read_csv_nrows w csv_path 1000 OnBadSkip) as [df|e];
    [|split; [now right | discriminate]].
  fold (average_bytes_per_record env df). fold (target_bytes self size).
  destruct (target_bytes self size) as [t|e] eqn:Et;
    [|split; [now right | discriminate]].
  destruct (target_nonpositive self size t Hs Hb Et) as [->|Ht].
  { split; [now right|]. intros df' t' [= <-] [= <-].
    unfold np_true_divide. simpl. discriminate. }
  pose proof (average_sign env df) as Ha.
  destruct (py_int (np_true_divide t (average_bytes_per_record env df)))
    as [k|e] eqn:Ek.
  - pose proof (quotient_nonpositive _ _ _ Ha Ht Ek). split; [left; lia|].
    intros; lia.
  - split; [now right|]. intros df' t' [= <-] [= <-] Hfin.
    destruct (np_true_divide t (average_bytes_per_record env df));
      simpl in *; discriminate.
Qed.

(** *** The override of the chunk size *)

Lemma split_and_convert_self (env : Env) self input_csv output_dir arg w :
  fst (fst (split_and_convert env self input_csv output_dir arg w))
  = with_override self arg.
Proof.
  unfold split_and_convert. fold (with_override self arg).
  destruct (mkdir env output_dir); [|reflexivity].
  destruct (get_total_rows _ _ _) as [w1 [total|e]]; [|reflexivity].
  now destruct (split_and_convert_from _ _ _ _ _ _).
Qed.

(** *** Complete runs *)

(** A reader has the labels of the file it was opened on. *)
Lemma read_csv_chunks_distinct w csv_path n pol reader :
  read_csv_chunks w csv_path n pol = Return reader ->
  distinct (tfr_columns reader) = true.
Proof.
  unfold read_csv_chunks. destruct (open_csv w csv_path) as [c|e]; [|discriminate].
  destruct (n <? 1)%Z; [discriminate|]. intros [= <-]. apply csv_distinct.
Qed.

Lemma read_rows_skip_take n ls :
  forallb decodable ls = true ->
  exists rest,
    read_rows OnBadSkip n ls = Return (take (N.to_nat n) (good_rows ls), rest)
    /\ good_rows rest = drop (N.to_nat n) (good_rows ls)
    /\ forallb decodable rest = true.
Proof.
  revert n. induction ls as [|l tl IH]; intros n Hd; simpl.
  - exists []. now rewrite take_nil, drop_nil.
  - destruct (n =? 0)%N eqn:En.
    + apply N.eqb_eq in En. subst n. exists (l :: tl). simpl. auto.
    + apply N.eqb_neq in En. simpl in Hd. apply andb_prop in Hd as [Hl Htl].
      destruct l as [r| |]; [| |discriminate].
      * destruct (IH (N.pred n) Htl) as (rest & -> & Hg & Hrest).
        exists rest. replace (N.to_nat n) with (S (N.to_nat (N.pred n))) by lia.
        simpl. auto.
      * destruct (IH n Htl) as (rest & -> & Hg & Hrest). exists rest. auto.
Qed.

Lemma ceil_div_small g n : 0 < g <= n -> ceil_div g n = 1.
Proof.
  intros H. unfold ceil_div. symmetry.
  apply (Nat.div_unique _ _ _ (g - 1)); lia.
Qed.

Lemma ceil_div_step g n : 0 < n -> n < g -> ceil_div g n = S (ceil_div (g - n) n).
Proof.
  intros Hn Hg. unfold ceil_div.
  replace (g + n - 1) with (1 * n + (g - n + n - 1)) by lia.
  rewrite Nat.div_add_l by lia. reflexivity.
Qed.

(** When every line decodes, the chunks of a reader are the slices of
    the records ahead. *)
Lemma iterate_slices r :
  tfr_on_bad_lines r = OnBadSkip -> (0 < tfr_chunksize r)%N ->
  forallb decodable (tfr_rest r) = true ->
  let n := N.to_nat (tfr_chunksize r) in
  let rows := good_rows (tfr_rest r) in
  exists dfs,
    iterate r = map Return dfs
    /\ length dfs = match rows with
                    | [] => if tfr_first r then 1 else 0
                    | _ => ceil_div (length rows) n
                    end
    /\ (forall i df, dfs !! i = Some df -> df_rows df = slice n i rows).
Proof.
  induction r as [r IH] using reader_ind. intros Hpol Hn Hd n rows.
  destruct (read_rows_skip_take (tfr_chunksize r) _ Hd)
    as (rest & Hread & Hgood & Hrest).
  fold n in Hread, Hgood. fold rows in Hread, Hgood.
  rewrite iterate_next.
  destruct (next_chunk r) as [[[df|e] r']|] eqn:E.
  - destruct (next_chunk_return _ _ _ E)
      as (rs & Hr & -> & _ & Hp & Hc & _ & Hf).
    rewrite Hpol, Hread in Hr. injection Hr as <- Hrest'.
    destruct (IH _ r' eq_refl) as (dfs & Hit & Hlen & Hrows);
      [congruence | lia | now rewrite <- Hrest' |].
    rewrite Hf, <- Hrest', Hgood, Hc in Hlen. rewrite <- Hrest', Hgood, Hc in Hrows.
    fold n in Hlen, Hrows.
    exists ({| df_columns := tfr_columns r; df_start := tfr_pos r;
               df_rows := take n rows |} :: dfs).
    split; [simpl; now rewrite Hit|]. split.
    + simpl. rewrite Hlen.
      destruct rows as [|x xs] eqn:Erows.
      * rewrite drop_nil.
        unfold next_chunk in E. rewrite Hpol, Hread, take_nil in E.
        destruct (tfr_first r); [reflexivity | discriminate].
      * rewrite <- Erows in *.
        assert (0 < length rows) by (rewrite Erows; simpl; lia).
        destruct (drop n rows) as [|y ys] eqn:Edrop.
        -- apply (f_equal length) in Edrop. rewrite length_drop in Edrop.
           simpl in Edrop. rewrite ceil_div_small; lia.
        -- rewrite <- Edrop, length_drop.
           assert (n < length rows).
           { apply (f_equal length) in Edrop. rewrite length_drop in Edrop.
             simpl in Edrop. lia. }
           rewrite (ceil_div_step (length rows) n); lia.
    + intros [|i] df Hi; simpl in Hi.
      * injection Hi as <-. unfold slice. simpl. reflexivity.
      * rewrite (Hrows i df Hi). unfold slice. rewrite drop_drop.
        replace (n + i * n) with (S i * n) by lia. reflexivity.
  - apply next_chunk_raise in E. rewrite Hpol, Hread in E. discriminate.
  - destruct (next_chunk_stop _ E) as (rest' & Hr & Hf).
    rewrite Hpol, Hread in Hr. injection Hr as Ht _.
    exists []. split; [reflexivity|]. split; [|intros i df Hi; discriminate].
    rewrite Hf. destruct rows as [|x xs]; [reflexivity|].
    assert (0 < n) by lia. destruct n; [lia | discriminate].
Qed.

Lemma store_all_files dir dfs : forall k w1 w2,
  files w1 = files w2 ->
  files (store_all dir dfs k w1) = files (store_all dir dfs k w2).
Proof.
  induction dfs as [|df tl IH]; intros k w1 w2 H; simpl; [exact H|].
  apply IH. simpl. now rewrite H.
Qed.

Lemma print_created_lines (env : Env) created : forall w,
  (forall p, In p created -> is_Some (files w !! p)) ->
  print_created env created w
  = ({| files := files w;
        stdout := (stdout w ++ created_lines env (files w) created)%list |},
     Return tt).
Proof.
  induction created as [|p tl IH]; intros w H; simpl.
  - rewrite app_nil_r. now destruct w.
  - unfold getsize. destruct (H p (or_introl eq_refl)) as [nd Hnd].
    rewrite Hnd. rewrite IH.
    + simpl. now rewrite <- app_assoc.
    + intros q Hq. simpl. apply H. now right.
Qed.

Lemma split_and_convert_from_announce (env : Env) self input_csv output_dir total w :
  split_and_convert_from env self input_csv output_dir total w
  = let '(w_est, _) :=
      estimate_rows_per_chunk env self input_csv (chunk_size_mb self) w in
    let n := rows_per_chunk_of env self w input_csv (chunk_size_mb self) in
    let '(w1, created, o) :=
      split_and_convert_try env input_csv output_dir n
        (announce input_csv total n w_est) in
    (match o with
     | Return _ => w1
     | Raise e => print (ErrorDuringConversion e) w1
     end,
     Return created).
Proof.
  unfold split_and_convert_from.
  destruct (estimate_rows_per_chunk_returns env self input_csv (chunk_size_mb self) w)
    as (w_est & -> & _).
  cbv zeta. unfold announce.
  destruct total as [t|]; simpl; [destruct (negb (t =? 0)%Z); simpl|].
  1: destruct (negb (math_ceil_div t _ =? 0)%Z).
  all: now destruct (split_and_convert_try _ _ _ _ _) as [[w1 created] [[]|e]].
Qed.

(** A run on a file whose lines all decode, with every write stored:
    the chunks are stored one after the other and the listing is
    printed. *)
Lemma complete_run (env : Env) self input_csv output_dir arg w c :
  mkdir_ok env output_dir = true ->
  files w !! input_csv = Some (CsvFile c) ->
  forallb decodable (csv_lines c) = true ->
  (forall fs p pq, disk env fs p pq = Stored) ->
  let self' := with_override self arg in
  let n := rows_per_chunk_of env self' w input_csv (chunk_size_mb self') in
  let reader := {| tfr_columns := csv_header c; tfr_on_bad_lines := OnBadSkip;
                   tfr_chunksize := Z.to_N n; tfr_pos := 0; tfr_first := true;
                   tfr_rest := csv_lines c |} in
  exists dfs w0 w',
    iterate reader = map Return dfs
    /\ split_and_convert env self input_csv output_dir arg w
       = (self', w', Return (map (output_file output_dir) (seq 0 (length dfs))))
    /\ files w' = files (store_all output_dir dfs 0 w)
    /\ (let '(w_cnt, total) := get_total_rows self' input_csv w in
        let '(w_est, _) :=
          estimate_rows_per_chunk env self' input_csv (chunk_size_mb self') w_cnt in
        w0 = announce input_csv
               (match total with Return t => t | Raise _ => None end) n w_est)
    /\ stdout w'
       = (stdout w0 ++ CreatedCount (length dfs)
            :: created_lines env (files w')
                 (map (output_file output_dir) (seq 0 (length dfs))))%list.
Proof.
  intros Hmk Hfile Hdec Hdisk self' n reader.
  assert (1000 <= n)%Z as Hn by apply rows_per_chunk_of_floor.
  destruct (iterate_slices reader eq_refl) as (dfs & Hit & _);
    [simpl; lia | exact Hdec |].
  unfold split_and_convert, mkdir. rewrite Hmk.
  fold (with_override self arg). fold self'.
  destruct (get_total_rows_returns self' input_csv w) as (w_cnt & total & Hcnt & Hfc).
  rewrite Hcnt. rewrite split_and_convert_from_announce.
  destruct (estimate_rows_per_chunk_returns env self' input_csv
              (chunk_size_mb self') w_cnt) as (w_est & Hest & Hfe).
  rewrite Hest. cbv zeta.
  rewrite (rows_per_chunk_of_files env self' w_cnt w) by exact Hfc. fold n.
  set (w0 := announce input_csv total n w_est).
  assert (files w0 = files w) as Hw0.
  { unfold w0, announce.
    destruct total as [t|]; simpl; [destruct (negb (t =? 0)%Z); simpl|];
      try destruct (negb (math_ceil_div t n =? 0)%Z); simpl; congruence. }
  unfold split_and_convert_try.
  rewrite (read_csv_chunks_files w0 w) by exact Hw0.
  unfold read_csv_chunks, open_csv. rewrite Hfile.
  destruct (n <? 1)%Z eqn:En; [apply Z.ltb_lt in En; lia|].
  fold reader. rewrite Hit, <- (app_nil_r (map Return dfs)).
  rewrite convert_chunks_stored by (intros; apply Hdisk).
  simpl convert_chunks.
  set (created := map (output_file output_dir) (seq 0 (length dfs))).
  set (w1 := store_all output_dir dfs 0 w0).
  assert (length created = length dfs) as Hlen
    by (unfold created; rewrite length_map; apply length_seq).
  cbv beta iota zeta. rewrite print_created_lines.
  - eexists dfs, w0, _.
    split; [now rewrite app_nil_r|]. split; [reflexivity|].
    split; [simpl; now apply store_all_files|].
    split; [reflexivity|].
    simpl. unfold w1. rewrite store_all_stdout, Hlen, <- app_assoc.
    reflexivity.
  - intros p Hp. apply in_map_iff in Hp as (i & <- & Hi). apply in_seq in Hi.
    destruct (lookup_lt_is_Some_2 dfs i) as [df Hdf]; [lia|].
    simpl. unfold w1.
    pose proof (store_all_lookup output_dir dfs 0 w0 i df Hdf) as Hl.
    simpl in Hl. rewrite Hl. eauto.
Qed.

Lemma map_Return_inj {A} (l1 l2 : list A) :
  map (@Return A) l1 = map Return l2 -> l1 = l2.
Proof.
  intros H. apply (f_equal returned) in H.
  now rewrite !returned_map_Return in H.
Qed.

Lemma chunk_count_positive (n : nat) (rows : list row) :
  0 < n -> 1 <= chunk_count n rows.
Proof.
  intros Hn. unfold chunk_count, ceil_div. destruct rows as [|r tl]; [lia|].
  apply Nat.div_le_lower_bound; simpl; lia.
Qed.

(** The segments of a complete run and what it prints. *)
Lemma complete_run_slices (env : Env) self input_csv output_dir arg w c :
  mkdir_ok env output_dir = true ->
  files w !! input_csv = Some (CsvFile c) ->
  forallb decodable (csv_lines c) = true ->
  (forall fs p pq, disk env fs p pq = Stored) ->
  let self' := with_override self arg in
  let nz := rows_per_chunk_of env self' w input_csv (chunk_size_mb self') in
  let rows := good_rows (csv_lines c) in
  let k := chunk_count (Z.to_nat nz) rows in
  exists w0 w',
    split_and_convert env self input_csv output_dir arg w
    = (self', w', Return (map (output_file output_dir) (seq 0 k)))
    /\ 1 <= k
    /\ (forall i, i < k ->
          files w' !! output_file output_dir i
          = Some (ParquetFile {| pq_columns := csv_header c;
                                 pq_index := None;
                                 pq_rows := slice (Z.to_nat nz) i rows |}))
    /\ (let '(w_cnt, total) := get_total_rows self' input_csv w in
        let '(w_est, _) :=
          estimate_rows_per_chunk env self' input_csv (chunk_size_mb self') w_cnt in
        w0 = announce input_csv
               (match total with Return t => t | Raise _ => None end) nz w_est)
    /\ stdout w'
       = (stdout w0 ++ CreatedCount k
            :: created_lines env (files w')
                 (map (output_file output_dir) (seq 0 k)))%list.
Proof.
  intros Hmk Hfile Hdec Hdisk self' nz rows k.
  destruct (complete_run env self input_csv output_dir arg w c Hmk Hfile Hdec Hdisk)
    as (dfs & w0 & w' & Hit & Hrun & Hfiles & Hw0 & Hout).
  fold self' in Hit, Hrun, Hw0. fold nz in Hit, Hw0.
  assert (1000 <= nz)%Z as Hn by apply rows_per_chunk_of_floor.
  set (reader := {| tfr_columns := csv_header c; tfr_on_bad_lines := OnBadSkip;
                    tfr_chunksize := Z.to_N nz; tfr_pos := 0; tfr_first := true;
                    tfr_rest := csv_lines c |}) in *.
  destruct (iterate_slices reader eq_refl) as (dfs' & Hit' & Hlen & Hrows);
    [simpl; lia | exact Hdec |].
  rewrite Hit in Hit'. apply map_Return_inj in Hit'. subst dfs'.
  simpl in Hlen, Hrows. rewrite Z_N_nat in Hlen, Hrows.
  fold rows in Hlen, Hrows.
  assert (length dfs = k) as Hk by (rewrite Hlen; unfold k, chunk_count; now destruct rows).
  pose proof (iterate_chunks reader) as Hcols.
  rewrite Hit, returned_map_Return in Hcols.
  exists w0, w'. rewrite Hk in Hrun, Hout.
  split; [exact Hrun|]. split; [apply chunk_count_positive; lia|].
  split; [|split; [exact Hw0 | exact Hout]].
  intros i Hi. destruct (lookup_lt_is_Some_2 dfs i) as [df Hdf]; [lia|].
  rewrite Hfiles.
  pose proof (store_all_lookup output_dir dfs 0 w i df Hdf) as Hl.
  simpl in Hl. rewrite Hl. unfold encode_parquet.
  rewrite (Hrows i df Hdf).
  rewrite Forall_forall in Hcols.
  destruct (Hcols df) as [Hc _]; [eapply list_elem_of_lookup_2; eauto|].
  now rewrite Hc.
Qed.

(** ** The claims *)

(** C1.  If the first [N] batches are read and stored and batch [N] fails
    with [e] (the reader raises, or the write is refused or torn), then
    [split_and_convert] does not raise: it returns exactly the paths of
    segments [0..N-1], each of these files still holds its batch, no
    file other than the one of batch [N] is touched, and the error is
    the last message printed. *)
Theorem C1_partial_failure_keeps_segments
    (env : Env) self input_csv output_dir arg w reader dfs rest e :
  let self' := with_override self arg in
  let n := rows_per_chunk_of env self' w input_csv (chunk_size_mb self') in
  mkdir_ok env output_dir = true ->
  read_csv_chunks w input_csv n OnBadSkip = Return reader ->
  iterate reader = (map Return dfs ++ rest)%list ->
  (forall fs i df, dfs !! i = Some df ->
     disk env fs (output_file output_dir i) (encode_parquet df false) = Stored) ->
  fails_with env e rest (output_file output_dir (length dfs)) ->
  exists w',
    split_and_convert env self input_csv output_dir arg w
    = (self', w', Return (map (output_file output_dir) (seq 0 (length dfs))))
    /\ (forall i df, dfs !! i = Some df ->
          files w' !! output_file output_dir i
          = Some (ParquetFile (encode_parquet df false)))
    /\ (forall p, (forall i, i <= length dfs -> p <> output_file output_dir i) ->
          files w' !! p = files w !! p)
    /\ last (stdout w') = Some (ErrorDuringConversion e).
Proof.
  intros self' n Hmk Hopen Hit Hst Hfail.
  destruct (split_and_convert_steps env self input_csv output_dir arg w Hmk)
    as (w0 & Hw0 & ->).
  fold self'. fold n. unfold split_and_convert_try.
  rewrite (read_csv_chunks_files w0 w) by exact Hw0.
  rewrite Hopen, Hit, convert_chunks_stored by (intros; now apply Hst).
  simpl.
  set (w1 := store_all output_dir dfs 0 w0).
  assert (forall i df, dfs !! i = Some df ->
            files w1 !! output_file output_dir i
            = Some (ParquetFile (encode_parquet df false))) as Hkeep
    by (intros i df Hi; exact (store_all_lookup output_dir dfs 0 w0 i df Hi)).
  assert (forall p, (forall i, i < length dfs -> p <> output_file output_dir i) ->
            files w1 !! p = files w !! p) as Hframe.
  { intros p Hp. unfold w1. rewrite store_all_frame, Hw0; [reflexivity|].
    intros i Hi. apply Hp. lia. }
  destruct rest as [|[df|e'] tl]; simpl in Hfail; [contradiction| |subst e'].
  - simpl. fold (output_file output_dir (length dfs)). unfold to_parquet.
    destruct (Hfail (files w1)) as [-> | ->]; simpl.
    + exists (print (ErrorDuringConversion e) w1). repeat split.
      * exact Hkeep.
      * intros p Hp. apply Hframe. intros i Hi. apply Hp. lia.
      * apply last_snoc.
    + eexists. repeat split; simpl.
      * intros i df' Hi. rewrite lookup_insert_ne; [now apply Hkeep|].
        intros E. apply output_file_inj in E.
        apply lookup_lt_Some in Hi. lia.
      * intros p Hp. rewrite lookup_insert_ne.
        -- apply Hframe. intros i Hi. apply Hp. lia.
        -- intros E. apply (Hp (length dfs)); [lia | now symmetry].
      * apply last_snoc.
  - simpl. exists (print (ErrorDuringConversion e) w1). repeat split.
    + exact Hkeep.
    + intros p Hp. apply Hframe. intros i Hi. apply Hp. lia.
    + apply last_snoc.
Qed.

Lemma C1_witness :
  exists w',
    split_and_convert (demo_env full_at_1) demo_self demo_input demo_dir None
      (demo_world rows_1001)
    = (demo_self, w',
       Return (map (output_file demo_dir) (seq 0 (length [frame_1001_0]))))
    /\ (forall i df, [frame_1001_0] !! i = Some df ->
          files w' !! output_file demo_dir i
          = Some (ParquetFile (encode_parquet df false)))
    /\ (forall p, (forall i, i <= length [frame_1001_0] -> p <> output_file demo_dir i) ->
          files w' !! p = files (demo_world rows_1001) !! p)
    /\ last (stdout w') = Some (ErrorDuringConversion OSError).
Proof.
  apply (C1_partial_failure_keeps_segments (demo_env full_at_1) demo_self
           demo_input demo_dir None (demo_world rows_1001) reader_1001
           [frame_1001_0] [Return frame_1001_1] OSError).
  - reflexivity.
  - vm_compute. reflexivity.
  - vm_compute. reflexivity.
  - intros fs [|i] df H; [|discriminate]. reflexivity.
  - intros fs. right. reflexivity.
Defined.

(** C2, as the code has it.  The list a call returns is, for its
    length [K], the list of the paths [output_dir/chunk_<i>.parquet] for
    [i = 0 .. K-1] in this order, with [i] written in decimal and padded
    with zeros to at least four digits; the paths are pairwise distinct;
    and the file names are in strictly increasing lexicographic order
    when [K] is at most 10000. *)
Theorem C2_segments_are_numbered_from_zero
    (env : Env) self input_csv output_dir arg w self' w' created :
  split_and_convert env self input_csv output_dir arg w
  = (self', w', Return created) ->
  created = map (output_file output_dir) (seq 0 (length created))
  /\ (forall i, i < length created ->
        path_name <$> created !! i
        = Some ("chunk_" +:+ format_04d (N.of_nat i) +:+ ".parquet"))
  /\ NoDup created
  /\ (length created <= N.to_nat 10000 -> sorted_names (map path_name created) = true).
Proof.
  intros Hrun.
  destruct (mkdir_ok env output_dir) eqn:Hmk.
  2:{ unfold split_and_convert, mkdir in Hrun. rewrite Hmk in Hrun.
      discriminate. }
  destruct (split_and_convert_spec env self input_csv output_dir arg w Hmk)
    as (w1 & created1 & Hrun1 & Hspec).
  rewrite Hrun in Hrun1. injection Hrun1; intros <- _ _.
  assert (exists k, created = map (output_file output_dir) (seq 0 k)) as [k Hk].
  { destruct (read_csv_chunks _ _ _ _).
    - destruct Hspec as (dfs & rest & _ & Hc & _). eauto.
    - destruct Hspec as (-> & _). now exists 0. }
  assert (length created = k) as Hlen
    by (rewrite Hk, length_map; apply length_seq).
  rewrite Hlen. repeat split.
  - exact Hk.
  - intros i Hi. rewrite Hk, list_lookup_fmap, lookup_seq_lt by exact Hi.
    simpl. f_equal. apply path_name_join.
  - rewrite Hk. apply NoDup_output_files.
  - intros Hle. rewrite Hk, names_of_output_files. now apply sorted_names_upto.
Qed.

(** A complete run of two segments. *)
Lemma C2_witness :
  let run := split_and_convert (demo_env (fun _ => None)) demo_self demo_input
               demo_dir None (demo_world rows_1001) in
  let created := [output_file demo_dir 0; output_file demo_dir 1] in
  created = map (output_file demo_dir) (seq 0 (length created))
  /\ (forall i, i < length created ->
        path_name <$> created !! i
        = Some ("chunk_" +:+ format_04d (N.of_nat i) +:+ ".parquet"))
  /\ NoDup created
  /\ (length created <= N.to_nat 10000 -> sorted_names (map path_name created) = true).
Proof.
  intros run created.
  apply (C2_segments_are_numbered_from_zero (demo_env (fun _ => None))
           demo_self demo_input demo_dir None (demo_world rows_1001)
           demo_self (snd (fst run)) created).
  vm_compute. reflexivity.
Defined.

(** A run whose segment names are not in lexicographic order: 10000001
    records in segments of 1000 records. *)
Lemma C2_counterexample :
  exists w' created,
    split_and_convert (demo_env (fun _ => None)) demo_self demo_input demo_dir
      None (demo_world (repeat (Row ["7"; "x"]) (N.to_nat 10000001)))
    = (demo_self, w', Return created)
    /\ sorted_names (map path_name created) = false.
Proof.
  destruct (many_segments ["7"; "x"] (N.to_nat 10000001))
    as (w' & created & Hrun & Hc & Hlen); [lia|].
  exists w', created. split; [exact Hrun|].
  rewrite Hc, names_of_output_files. now apply unsorted_names_above.
Qed.

(** C3.  On the success path (the sample is read and no conversion
    raises) [estimate_rows_per_chunk] returns
    [max(1000, floor(target_bytes / average_bytes_per_record))], the
    quotient being the binary64 quotient of the two floats; the value
    is never below 1000, and it is 1000 whenever the average footprint
    of a record exceeds the byte budget. *)
Theorem C3_estimate_is_floored_quotient
    (env : Env) self w csv_path size rows_per_chunk :
  estimate_rows_per_chunk_try env self w csv_path size = Return rows_per_chunk ->
  exists sample_df target q,
    read_csv_nrows w csv_path 1000 OnBadSkip = Return sample_df
    /\ target_bytes self size = Return target
    /\ np_true_divide target (average_bytes_per_record env sample_df) = q
    /\ is_finite q = true
    /\ estimate_rows_per_chunk env self csv_path size w = (w, Return rows_per_chunk)
    /\ rows_per_chunk = Z.max 1000 (Qfloor (float_value q))
    /\ (1000 <= rows_per_chunk)%Z
    /\ (float_lt target (average_bytes_per_record env sample_df) ->
        rows_per_chunk = 1000%Z).
Proof.
  intros Htry. unfold estimate_rows_per_chunk. rewrite Htry.
  unfold estimate_rows_per_chunk_try in Htry.
  destruct (read_csv_nrows w csv_path 1000 OnBadSkip) as [sample_df|e];
    [|discriminate].
  fold (target_bytes self size) in Htry.
  fold (average_bytes_per_record env sample_df) in Htry.
  destruct (target_bytes self size) as [target|e]; [|discriminate].
  destruct (py_int (np_true_divide target (average_bytes_per_record env sample_df)))
    as [k|e] eqn:Ek; [|discriminate].
  injection Htry as <-.
  destruct (py_int_floor _ _ Ek) as [Hfin Hfloor].
  exists sample_df, target,
    (np_true_divide target (average_bytes_per_record env sample_df)).
  split; [reflexivity|]. split; [reflexivity|]. split; [reflexivity|].
  split; [exact Hfin|]. split; [reflexivity|]. split; [exact Hfloor|].
  split; [lia|].
  intros Hlt.
  pose proof (quotient_below _ _ _ (average_sign env sample_df) Hlt Ek). lia.
Qed.

(** A sample of 1000 records of 64.132 bytes on average and a budget of
    96198 bytes: the quotient of the two floats is just below 1500, and
    1499 records per segment are returned. *)
Lemma C3_witness :
  exists sample_df target q,
    read_csv_nrows (demo_world rows_1000) demo_input 1000 OnBadSkip = Return sample_df
    /\ target_bytes (init default_chunk_size_mb) (dyadic 96198 (-20)) = Return target
    /\ np_true_divide target
         (average_bytes_per_record (demo_env (fun _ => None)) sample_df) = q
    /\ is_finite q = true
    /\ estimate_rows_per_chunk (demo_env (fun _ => None)) (init default_chunk_size_mb)
         demo_input (dyadic 96198 (-20)) (demo_world rows_1000)
       = (demo_world rows_1000, Return 1499%Z)
    /\ 1499%Z = Z.max 1000 (Qfloor (float_value q))
    /\ (1000 <= 1499)%Z
    /\ (float_lt target
          (average_bytes_per_record (demo_env (fun _ => None)) sample_df) ->
        1499%Z = 1000%Z).
Proof.
  apply (C3_estimate_is_floored_quotient (demo_env (fun _ => None))
           (init default_chunk_size_mb) (demo_world rows_1000) demo_input
           (dyadic 96198 (-20)) 1499).
  vm_compute. reflexivity.
Defined.

(** C4 (the case the code misses).  When the sample has no record and
    its measured footprint is positive, no exception occurs: the
    average is an infinity, the quotient of a finite byte budget by it
    is 0, and [estimate_rows_per_chunk] returns the floor 1000, not the
    default 10000. *)
Theorem C4_empty_sample_returns_floor
    (env : Env) self w csv_path c size target :
  files w !! csv_path = Some (CsvFile c) ->
  good_rows (csv_lines c) = [] -> forallb decodable (csv_lines c) = true ->
  (0 < memory_usage env {| df_columns := csv_header c; df_start := 0;
                           df_rows := [] |})%N ->
  target_bytes self size = Return target -> is_finite target = true ->
  estimate_rows_per_chunk env self csv_path size w = (w, Return 1000%Z).
Proof.
  intros Hfile Hgood Hdec Hmem Htarget Hfin.
  unfold estimate_rows_per_chunk, estimate_rows_per_chunk_try, read_csv_nrows,
    open_csv.
  rewrite Hfile.
  destruct (read_rows_no_record 1000 (csv_lines c) Hgood Hdec) as (rest & ->).
  set (df := {| df_columns := csv_header c; df_start := 0; df_rows := [] |}) in *.
  fold (target_bytes self size). rewrite Htarget.
  change (Z.of_nat (df_len df)) with 0%Z. rewrite int_to_float_0.
  assert (0 < Z.of_N (memory_usage env df))%Z as Hpos by lia.
  pose proof (int_to_float_positive _ Hpos) as Hm.
  destruct (int_to_float (Z.of_N (memory_usage env df))) as [s|s| |s m e];
    try contradiction; subst s;
    destruct target as [st|st| |st mt et]; try discriminate; reflexivity.
Qed.

(** A file with a header and no data line, under the default budget. *)
Lemma C4_witness :
  estimate_rows_per_chunk (demo_env (fun _ => None)) (init default_chunk_size_mb)
    demo_input (dyadic 250 0) (demo_world [])
  = (demo_world [], Return 1000%Z).
Proof.
  apply (C4_empty_sample_returns_floor (demo_env (fun _ => None))
           (init default_chunk_size_mb) (demo_world []) demo_input
           (demo_csv []) (dyadic 250 0) (dyadic 262144000 0)).
  - reflexivity.
  - reflexivity.
  - reflexivity.
  - reflexivity.
  - reflexivity.
  - reflexivity.
Defined.

(** C5 (the failing input).  On 100 records with 5 bad lines among them
    the count of [get_total_rows] is lost to a [ParserError] and the
    total is unknown, while the conversion skips the bad lines and
    writes the 100 records to one segment. *)
Theorem C5_bad_lines_fail_the_count :
  let w := demo_world rows_100_bad_5 in
  get_total_rows demo_self demo_input w
  = (print ProceedingChunkBased (print (WarningCount ParserError) w), Return None)
  /\ exists w',
       split_and_convert (demo_env (fun _ => None)) demo_self demo_input demo_dir
         None w
       = (demo_self, w', Return [output_file demo_dir 0])
       /\ files w' !! output_file demo_dir 0
          = Some (ParquetFile {| pq_columns := ["id"; "name"];
                                 pq_index := None;
                                 pq_rows := repeat ["7"; "x"] 100 |}).
Proof.
  split; [vm_compute; reflexivity|].
  eexists. split; vm_compute; reflexivity.
Qed.

(** C6.  [get_total_rows] never raises and leaves the files as they
    are: it returns the number of records when every line of a readable
    file is a record, and [None] with an advisory message when reading
    or parsing raises.  The segments [split_and_convert] writes and the
    list it returns are the same for every value of the count, [None]
    included: when the directory can be made, the call never raises
    either.  And when the count is lost to an exception, the conversion
    takes place all the same: on a file whose lines decode, with every
    write stored, the call prints the advisory messages and the line
    for an unknown total, and writes every record into its segment. *)
Theorem C6_count_is_advisory (env : Env) self input_csv output_dir arg w :
  (exists w' total,
     get_total_rows self input_csv w = (w', Return total)
     /\ files w' = files w
     /\ match total with
        | Some n =>
            w' = w
            /\ exists c, files w !! input_csv = Some (CsvFile c)
                         /\ forallb is_row (csv_lines c) = true
                         /\ n = Z.of_nat (length (csv_lines c))
        | None =>
            exists e, get_total_rows_try w input_csv = Raise e
                      /\ stdout w' = (stdout w ++ [WarningCount e; ProceedingChunkBased])%list
        end)
  /\ (forall c, files w !! input_csv = Some (CsvFile c) ->
        forallb is_row (csv_lines c) = true ->
        get_total_rows self input_csv w
        = (w, Return (Some (Z.of_nat (length (csv_lines c))))))
  /\ (forall total,
        result_of (split_and_convert_from env self input_csv output_dir total w)
        = result_of (split_and_convert_from env self input_csv output_dir None w))
  /\ (mkdir_ok env output_dir = true ->
      forall total,
        let '(_, w', res) := split_and_convert env self input_csv output_dir arg w in
        is_return res = true
        /\ (files w', res)
           = result_of (split_and_convert_from env (with_override self arg)
                          input_csv output_dir total w))
  /\ (forall e c,
        mkdir_ok env output_dir = true ->
        get_total_rows_try w input_csv = Raise e ->
        files w !! input_csv = Some (CsvFile c) ->
        forallb decodable (csv_lines c) = true ->
        (forall fs p pq, disk env fs p pq = Stored) ->
        let self' := with_override self arg in
        let n := rows_per_chunk_of env self' w input_csv (chunk_size_mb self') in
        let rows := good_rows (csv_lines c) in
        let k := chunk_count (Z.to_nat n) rows in
        exists w' estimator,
          split_and_convert env self input_csv output_dir arg w
          = (self', w', Return (map (output_file output_dir) (seq 0 k)))
          /\ 1 <= k
          /\ (forall i, i < k ->
                files w' !! output_file output_dir i
                = Some (ParquetFile {| pq_columns := csv_header c;
                                       pq_index := None;
                                       pq_rows := slice (Z.to_nat n) i rows |}))
          /\ (estimator = [] \/ exists e', estimator = [ErrorEstimating e'])
          /\ stdout w'
             = (stdout w ++ [WarningCount e; ProceedingChunkBased] ++ estimator
                ++ [TotalUnknown; Processing input_csv; EstimatedRows n;
                    CreatedCount k]
                ++ created_lines env (files w')
                     (map (output_file output_dir) (seq 0 k)))%list).
Proof.
  split; [|split; [|split; [|split]]].
  - unfold get_total_rows.
    destruct (get_total_rows_try w input_csv) as [n|e] eqn:E.
    + exists w, (Some n). repeat split.
      now apply get_total_rows_try_return.
    + eexists _, None. repeat split. exists e. split; [reflexivity|].
      simpl. now rewrite <- app_assoc.
  - intros c Hf Hrows. unfold get_total_rows.
    now rewrite (get_total_rows_try_all_rows w input_csv c Hf Hrows).
  - intros total. now apply split_and_convert_from_result.
  - intros Hmk total. unfold split_and_convert, mkdir. rewrite Hmk.
    fold (with_override self arg).
    destruct (get_total_rows_returns (with_override self arg) input_csv w)
      as (wa & t & -> & Ha).
    pose proof (split_and_convert_from_result env (with_override self arg)
                  input_csv output_dir t total wa w Ha) as Hres.
    destruct (split_and_convert_from_steps env (with_override self arg)
                input_csv output_dir t wa) as (w0 & _ & Hsteps).
    rewrite Hsteps in Hres |- *.
    destruct (split_and_convert_try _ _ _ _ w0) as [[w1 created] o].
    split; [reflexivity | exact Hres].
  - intros e c Hmk Hcount Hfile Hdec Hdisk. cbv zeta.
    destruct (complete_run_slices env self input_csv output_dir arg w c
                Hmk Hfile Hdec Hdisk)
      as (w0 & w' & Hrun & Hk & Hfiles & Hw0 & Hout).
    set (self' := with_override self arg) in *.
    set (n := rows_per_chunk_of env self' w input_csv (chunk_size_mb self')) in *.
    unfold get_total_rows in Hw0. rewrite Hcount in Hw0.
    unfold estimate_rows_per_chunk in Hw0.
    rewrite (estimate_try_files env self'
               (print ProceedingChunkBased (print (WarningCount e) w)) w)
      in Hw0 by reflexivity.
    clearbody n.
    destruct (estimate_rows_per_chunk_try env self' w input_csv (chunk_size_mb self'))
      as [m|e'].
    + exists w', []. split; [exact Hrun|]. split; [exact Hk|].
      split; [exact Hfiles|]. split; [now left|].
      rewrite Hout, Hw0. simpl. rewrite <- !app_assoc. reflexivity.
    + exists w', [ErrorEstimating e']. split; [exact Hrun|]. split; [exact Hk|].
      split; [exact Hfiles|]. split; [eauto|].
      rewrite Hout, Hw0. simpl. rewrite <- !app_assoc. reflexivity.
Qed.

(** C7.  After a call that returned [created], with [dfs] the batches
    the reader yielded and the loop stored: segment [i] is the file of
    batch [i]; reading it back gives the records of the batch under the
    columns of the header, and the file has no index column; the
    segments in order are a prefix of the records of the input, each
    record once and no bad line among them; and they are all the
    records when every batch was read and stored, which is the case
    when every line decodes and no write fails. *)
Theorem C7_segments_hold_the_records
    (env : Env) self input_csv output_dir arg w self' w' created c :
  split_and_convert env self input_csv output_dir arg w
  = (self', w', Return created) ->
  files w !! input_csv = Some (CsvFile c) ->
  let n := rows_per_chunk_of env self' w input_csv (chunk_size_mb self') in
  exists reader dfs rest,
    read_csv_chunks w input_csv n OnBadSkip = Return reader
    /\ iterate reader = (map Return dfs ++ rest)%list
    /\ created = map (output_file output_dir) (seq 0 (length dfs))
    /\ (forall i df, dfs !! i = Some df ->
          read_parquet w' (output_file output_dir i)
          = Return {| df_columns := csv_header c; df_start := 0;
                      df_rows := df_rows df |}
          /\ files w' !! output_file output_dir i
             = Some (ParquetFile {| pq_columns := csv_header c;
                                    pq_index := None;
                                    pq_rows := df_rows df |}))
    /\ (exists tail,
          good_rows (csv_lines c) = (rows_of dfs ++ tail)%list
          /\ (rest = [] -> tail = []))
    /\ (forallb decodable (csv_lines c) = true ->
        (forall fs p pq, disk env fs p pq = Stored) ->
        rest = []).
Proof.
  intros Hrun Hfile n.
  destruct (mkdir_ok env output_dir) eqn:Hmk.
  2:{ unfold split_and_convert, mkdir in Hrun. rewrite Hmk in Hrun.
      discriminate. }
  destruct (split_and_convert_spec env self input_csv output_dir arg w Hmk)
    as (w1 & created1 & Hrun1 & Hspec).
  rewrite Hrun in Hrun1. injection Hrun1; intros <- <- ->.
  fold n in Hspec.
  assert (1000 <= n)%Z as Hn by apply rows_per_chunk_of_floor.
  unfold read_csv_chunks, open_csv in Hspec |- *. rewrite Hfile in Hspec |- *.
  destruct (n <? 1)%Z eqn:En; [apply Z.ltb_lt in En; lia|].
  set (reader := {| tfr_columns := csv_header c;
                    tfr_on_bad_lines := OnBadSkip;
                    tfr_chunksize := Z.to_N n; tfr_pos := 0;
                    tfr_first := true; tfr_rest := csv_lines c |}) in *.
  destruct Hspec as (dfs & rest & Hit & Hc & Hfiles & _ & Hrest).
  exists reader, dfs, rest.
  split; [reflexivity|]. split; [exact Hit|]. split; [exact Hc|].
  pose proof (iterate_chunks reader) as Hchunks.
  rewrite Hit, returned_app_map in Hchunks.
  apply Forall_app in Hchunks as [Hchunks _].
  split; [|split].
  - intros i df Hi.
    assert (df_columns df = csv_header c) as Hcol.
    { rewrite Forall_forall in Hchunks.
      destruct (Hchunks df) as [H _]; [|exact H].
      eapply list_elem_of_lookup_2; eauto. }
    unfold read_parquet. rewrite (Hfiles i df Hi).
    unfold encode_parquet. simpl. now rewrite Hcol, (csv_distinct c).
  - destruct (iterate_rows reader eq_refl) as (tail & Hrows & Htail);
      [simpl; lia|].
    rewrite Hit, returned_app_map, rows_of_app in Hrows.
    exists (rows_of (returned rest) ++ tail)%list. split.
    + simpl in Hrows. now rewrite Hrows, app_assoc.
    + intros ->. rewrite app_nil_r in Hit.
      rewrite Htail; [reflexivity|].
      rewrite Hit. apply is_return_map_Return.
  - intros Hdec Hdisk.
    destruct Hrest as [H | (e & Hstop & _)]; [exact H|].
    pose proof (iterate_decodable reader eq_refl Hdec) as Hret.
    rewrite Hit, forallb_app in Hret. apply andb_prop in Hret as [_ Hret].
    destruct rest as [|[df|e'] tl]; simpl in *;
      [contradiction | | discriminate].
    destruct Hstop as [[fs H] | [[fs H] _]]; rewrite Hdisk in H; discriminate.
Qed.

(** A complete run on 1001 records: two segments of 1000 records and of
    1 record. *)
Lemma C7_witness :
  let env := demo_env (fun _ => None) in
  let w := demo_world rows_1001 in
  let run := split_and_convert env demo_self demo_input demo_dir None w in
  let w' := snd (fst run) in
  let c := demo_csv rows_1001 in
  let n := rows_per_chunk_of env demo_self w demo_input (chunk_size_mb demo_self) in
  exists reader dfs rest,
    read_csv_chunks w demo_input n OnBadSkip = Return reader
    /\ iterate reader = (map Return dfs ++ rest)%list
    /\ [output_file demo_dir 0; output_file demo_dir 1]
       = map (output_file demo_dir) (seq 0 (length dfs))
    /\ (forall i df, dfs !! i = Some df ->
          read_parquet w' (output_file demo_dir i)
          = Return {| df_columns := csv_header c; df_start := 0;
                      df_rows := df_rows df |}
          /\ files w' !! output_file demo_dir i
             = Some (ParquetFile {| pq_columns := csv_header c;
                                    pq_index := None;
                                    pq_rows := df_rows df |}))
    /\ (exists tail,
          good_rows (csv_lines c) = (rows_of dfs ++ tail)%list
          /\ (rest = [] -> tail = []))
    /\ (forallb decodable (csv_lines c) = true ->
        (forall fs p pq, disk env fs p pq = Stored) ->
        rest = []).
Proof.
  intros env w run w' c n.
  apply (C7_segments_hold_the_records env demo_self demo_input demo_dir None w
           demo_self w' [output_file demo_dir 0; output_file demo_dir 1] c).
  - vm_compute. reflexivity.
  - reflexivity.
Defined.

(** C8, as the code has it.  A directory that cannot be made makes the
    call raise before anything is read or written.  An input that cannot
    be opened makes the call print the error and return the empty list,
    and no file is written.  The target size is not validated: with a
    size that is not positive the estimate is the floor of 1000 records
    per segment (the default 10000 when the quotient overflows or is
    not a number), and the conversion runs as for any other size and
    writes its segments. *)
Theorem C8_what_stops_a_request (env : Env) self input_csv output_dir arg w :
  let self' := with_override self arg in
  (mkdir_ok env output_dir = false ->
   split_and_convert env self input_csv output_dir arg w = (self', w, Raise OSError))
  /\ (mkdir_ok env output_dir = true ->
      forall e, open_csv w input_csv = Raise e ->
      exists w',
        split_and_convert env self input_csv output_dir arg w
        = (self', w', Return [])
        /\ files w' = files w
        /\ last (stdout w') = Some (ErrorDuringConversion e))
  /\ (non_positive (chunk_size_mb self') -> (0 < bytes_per_mb self)%Z ->
      let n := rows_per_chunk_of env self' w input_csv (chunk_size_mb self') in
      (n = 1000%Z \/ n = 10000%Z)
      /\ (forall sample_df target,
            read_csv_nrows w input_csv 1000 OnBadSkip = Return sample_df ->
            target_bytes self' (chunk_size_mb self') = Return target ->
            is_finite (np_true_divide target
                         (average_bytes_per_record env sample_df)) = true ->
            n = 1000%Z)
      /\ (forall c,
            mkdir_ok env output_dir = true ->
            files w !! input_csv = Some (CsvFile c) ->
            forallb decodable (csv_lines c) = true ->
            (forall fs p pq, disk env fs p pq = Stored) ->
            let rows := good_rows (csv_lines c) in
            let k := chunk_count (Z.to_nat n) rows in
            exists w',
              split_and_convert env self input_csv output_dir arg w
              = (self', w', Return (map (output_file output_dir) (seq 0 k)))
              /\ 1 <= k
              /\ (forall i, i < k ->
                    files w' !! output_file output_dir i
                    = Some (ParquetFile {| pq_columns := csv_header c;
                                           pq_index := None;
                                           pq_rows := slice (Z.to_nat n) i rows |})))).
Proof.
  intros self'. split; [|split].
  - apply split_and_convert_no_directory.
  - intros Hmk e Hopen.
    destruct (split_and_convert_spec env self input_csv output_dir arg w Hmk)
      as (w' & created & Hrun & Hspec).
    unfold read_csv_chunks in Hspec. rewrite Hopen in Hspec.
    destruct Hspec as (-> & Hf & Hlast). eauto.
  - intros Hsize Hb n.
    assert (bytes_per_mb self' = bytes_per_mb self) as Hbytes
      by (unfold self', with_override; now destruct arg).
    destruct (rows_per_chunk_nonpositive_size env self' w input_csv
                (chunk_size_mb self') Hsize ltac:(lia)) as [Hn Hfin].
    split; [exact Hn|]. split; [exact Hfin|].
    intros c Hmk Hfile Hdec Hdisk rows k.
    destruct (complete_run_slices env self input_csv output_dir arg w c
                Hmk Hfile Hdec Hdisk)
      as (w0 & w' & Hrun & Hk & Hfiles & _).
    exists w'. split; [exact Hrun|]. split; [exact Hk | exact Hfiles].
Qed.

(** A request for segments of -5 MiB is served: one segment is written. *)
Lemma C8_counterexample :
  exists w',
    split_and_convert (demo_env (fun _ => None)) (init (dyadic (-5) 0))
      demo_input demo_dir None (demo_world rows_3)
    = (init (dyadic (-5) 0), w', Return [output_file demo_dir 0])
    /\ files w' !! output_file demo_dir 0
       = Some (ParquetFile {| pq_columns := ["id"; "name"]; pq_index := None;
                              pq_rows := repeat ["7"; "x"] 3 |}).
Proof. eexists. split; vm_compute; reflexivity. Qed.

(** C9, as the code has it.  A segment is written by one [to_parquet]
    call at its final path, without a temporary file.  Every path in the
    returned list holds a complete Parquet file that reads back; a write
    that fails midway can leave a partial file at the final path of the
    segment that failed, the one after the last returned, and nowhere
    else. *)
Theorem C9_returned_segments_are_complete
    (env : Env) self input_csv output_dir arg w self' w' created :
  split_and_convert env self input_csv output_dir arg w
  = (self', w', Return created) ->
  (forall p, In p created ->
     exists pq, files w' !! p = Some (ParquetFile pq)
                /\ is_return (read_parquet w' p) = true)
  /\ (forall p, files w' !! p = Some PartialFile ->
        files w !! p = Some PartialFile
        \/ (p = output_file output_dir (length created) /\ ~ In p created)).
Proof.
  intros Hrun.
  destruct (mkdir_ok env output_dir) eqn:Hmk.
  2:{ unfold split_and_convert, mkdir in Hrun. rewrite Hmk in Hrun.
      discriminate. }
  destruct (split_and_convert_spec env self input_csv output_dir arg w Hmk)
    as (w1 & created1 & Hrun1 & Hspec).
  rewrite Hrun in Hrun1. injection Hrun1; intros <- <- _.
  destruct (read_csv_chunks _ _ _ _) as [reader|e] eqn:Eread.
  2:{ destruct Hspec as (-> & Hf & _). split; [intros p []|].
      intros p Hp. left. now rewrite <- Hf. }
  apply read_csv_chunks_distinct in Eread.
  destruct Hspec as (dfs & rest & Hit & Hc & Hfiles & Hframe & _).
  pose proof (iterate_chunks reader) as Hchunks.
  rewrite Hit, returned_app_map in Hchunks.
  apply Forall_app in Hchunks as [Hchunks _].
  assert (length created = length dfs) as Hlen
    by (rewrite Hc, length_map; apply length_seq).
  assert (forall i, i < length dfs ->
            exists pq, files w' !! output_file output_dir i = Some (ParquetFile pq)
                       /\ distinct (pq_columns pq) = true)
    as Hfull.
  { intros i Hi. destruct (lookup_lt_is_Some_2 dfs i Hi) as [df Hdf].
    rewrite (Hfiles i df Hdf). eexists. split; [reflexivity|]. simpl.
    rewrite Forall_forall in Hchunks.
    destruct (Hchunks df) as [Hcol _]; [eapply list_elem_of_lookup_2; eauto|].
    now rewrite Hcol. }
  split.
  - intros p Hp. rewrite Hc in Hp. apply in_map_iff in Hp as (i & <- & Hi).
    apply in_seq in Hi. destruct (Hfull i) as (pq & Hpq & Hd); [lia|].
    exists pq. split; [exact Hpq|]. unfold read_parquet. now rewrite Hpq, Hd.
  - intros p Hp.
    destruct (decide (p ∈ map (output_file output_dir) (seq 0 (S (length dfs)))))
      as [Hin|Hout].
    + apply list_elem_of_In, in_map_iff in Hin as (i & <- & Hi).
      apply in_seq in Hi.
      destruct (decide (i = length dfs)) as [->|Hne].
      * right. rewrite Hlen. split; [reflexivity|].
        rewrite Hc. intros Hin. apply in_map_iff in Hin as (j & E & Hj).
        apply output_file_inj in E. apply in_seq in Hj. lia.
      * destruct (Hfull i) as (pq & Hpq & _); [lia|]. congruence.
    + left. rewrite <- Hframe; [exact Hp|].
      intros i Hi ->. apply Hout. apply list_elem_of_In, in_map_iff.
      exists i. split; [reflexivity|]. apply in_seq. lia.
Qed.

Lemma C9_witness :
  let run := split_and_convert (demo_env full_at_1) demo_self demo_input
               demo_dir None (demo_world rows_1001) in
  let w' := snd (fst run) in
  let created := [output_file demo_dir 0] in
  (forall p, In p created ->
     exists pq, files w' !! p = Some (ParquetFile pq)
                /\ is_return (read_parquet w' p) = true)
  /\ (forall p, files w' !! p = Some PartialFile ->
        files (demo_world rows_1001) !! p = Some PartialFile
        \/ (p = output_file demo_dir (length created) /\ ~ In p created)).
Proof.
  intros run w' created.
  apply (C9_returned_segments_are_complete (demo_env full_at_1) demo_self
           demo_input demo_dir None (demo_world rows_1001) demo_self w' created).
  vm_compute. reflexivity.
Defined.

(** The disk fills up while the second segment is written: a partial
    file stays at the final path [out/chunk_0001.parquet]. *)
Lemma C9_counterexample :
  exists w',
    split_and_convert (demo_env full_at_1) demo_self demo_input demo_dir None
      (demo_world rows_1001)
    = (demo_self, w', Return [output_file demo_dir 0])
    /\ files w' !! output_file demo_dir 1 = Some PartialFile.
Proof. eexists. split; vm_compute; reflexivity. Qed.

(** C10.  A call with an override [v] sets [self.chunk_size_mb] to [v],
    whatever the call then does, and runs exactly as a call without
    override on an instance whose field is [v]; a call without override
    leaves the instance as it is.  So after any sequence of calls the
    field is the most recent override, or the constructor's value when
    there was none, and a later call without override converts with
    it: the records per segment of that call are estimated from [v],
    and its segments are cut accordingly. *)
Theorem C10_override_is_kept (env : Env) self input_csv output_dir v w :
  chunk_size_mb (fst (fst (split_and_convert env self input_csv output_dir (Some v) w)))
  = v
  /\ split_and_convert env self input_csv output_dir (Some v) w
     = split_and_convert env
         {| chunk_size_mb := v; bytes_per_mb := bytes_per_mb self |}
         input_csv output_dir None w
  /\ fst (fst (split_and_convert env self input_csv output_dir None w)) = self
  /\ (forall calls,
        chunk_size_mb (fst (run_calls env self w calls))
        = latest_override (chunk_size_mb self) (map snd calls))
  /\ (forall input2 output2,
        let '(self1, w1, _) :=
          split_and_convert env self input_csv output_dir (Some v) w in
        split_and_convert env self1 input2 output2 None w1
        = split_and_convert env
            {| chunk_size_mb := v; bytes_per_mb := bytes_per_mb self |}
            input2 output2 None w1)
  /\ (forall input2 output2 c2,
        let '(self1, w1, _) :=
          split_and_convert env self input_csv output_dir (Some v) w in
        mkdir_ok env output2 = true ->
        files w1 !! input2 = Some (CsvFile c2) ->
        forallb decodable (csv_lines c2) = true ->
        (forall fs p pq, disk env fs p pq = Stored) ->
        let n := rows_per_chunk_of env
                   {| chunk_size_mb := v; bytes_per_mb := bytes_per_mb self |}
                   w1 input2 v in
        let rows := good_rows (csv_lines c2) in
        let k := chunk_count (Z.to_nat n) rows in
        exists w2,
          split_and_convert env self1 input2 output2 None w1
          = (self1, w2, Return (map (output_file output2) (seq 0 k)))
          /\ (forall i, i < k ->
                files w2 !! output_file output2 i
                = Some (ParquetFile {| pq_columns := csv_header c2;
                                       pq_index := None;
                                       pq_rows := slice (Z.to_nat n) i rows |}))).
Proof.
  split; [|split; [|split; [|split; [|split]]]].
  - now rewrite split_and_convert_self.
  - reflexivity.
  - now rewrite split_and_convert_self.
  - intros calls. revert self w.
    induction calls as [|[[i o] a] rest IH]; intros self w; [reflexivity|].
    simpl.
    pose proof (split_and_convert_self env self i o a w) as Hs.
    destruct (split_and_convert env self i o a w) as [[self1 w1] r].
    simpl in Hs. subst self1. rewrite IH. now destruct a.
  - intros input2 output2.
    pose proof (split_and_convert_self env self input_csv output_dir (Some v) w)
      as Hs.
    destruct (split_and_convert env self input_csv output_dir (Some v) w)
      as [[self1 w1] r].
    simpl in Hs. now subst self1.
  - intros input2 output2 c2.
    pose proof (split_and_convert_self env self input_csv output_dir (Some v) w)
      as Hs.
    destruct (split_and_convert env self input_csv output_dir (Some v) w)
      as [[self1 w1] r].
    simpl in Hs. subst self1.
    intros Hmk Hfile Hdec Hdisk n rows k.
    destruct (complete_run_slices env
                {| chunk_size_mb := v; bytes_per_mb := bytes_per_mb self |}
                input2 output2 None w1 c2 Hmk Hfile Hdec Hdisk)
      as (w0 & w2 & Hrun & _ & Hfiles & _).
    exists w2. split; [exact Hrun | exact Hfiles].
Qed.

(** An instance made for 250 MiB and called once with an override of
    1 KiB: a later call without override cuts 1001 records at 1000
    records per segment, into two segments. *)
Lemma C10_witness :
  let env := demo_env (fun _ => None) in
  let '(self1, w1, _) :=
    split_and_convert env (init default_chunk_size_mb) demo_input demo_dir
      (Some (dyadic 1 (-10))) (demo_world rows_1001) in
  exists w2,
    split_and_convert env self1 demo_input ["again"] None w1
    = (self1, w2, Return [output_file ["again"] 0; output_file ["again"] 1])
    /\ (forall i, i < 2 ->
          files w2 !! output_file ["again"] i
          = Some (ParquetFile {| pq_columns := ["id"; "name"];
                                 pq_index := None;
                                 pq_rows := slice 1000 i (repeat ["7"; "x"] 1001) |})).
Proof.
  intros env.
  pose proof (C10_override_is_kept env (init default_chunk_size_mb) demo_input
                demo_dir (dyadic 1 (-10)) (demo_world rows_1001))
    as (_ & _ & _ & _ & _ & H).
  specialize (H demo_input ["again"] csv_1001).
  destruct (split_and_convert env (init default_chunk_size_mb) demo_input demo_dir
              (Some (dyadic 1 (-10))) (demo_world rows_1001))
    as [[self1 w1] r] eqn:E.
  vm_compute in E. injection E as <- <- <-.
  apply H; reflexivity.
Defined.

(** X1.  On an input whose lines all decode, in an environment that
    stores every write, a call returns [k] segments, where [k] is the
    number of records divided by the records per chunk and rounded up
    (1 when there is no record), and segment [i] holds, under the
    columns of the header and without an index column, the records
    number [i * n] to [(i + 1) * n - 1] of the input: every segment but
    the last has exactly [n] records, bad lines do not count. *)
Theorem X1_segments_are_slices (env : Env) self input_csv output_dir arg w c :
  mkdir_ok env output_dir = true ->
  files w !! input_csv = Some (CsvFile c) ->
  forallb decodable (csv_lines c) = true ->
  (forall fs p pq, disk env fs p pq = Stored) ->
  let self' := with_override self arg in
  let n := Z.to_nat (rows_per_chunk_of env self' w input_csv (chunk_size_mb self')) in
  let rows := good_rows (csv_lines c) in
  let k := chunk_count n rows in
  exists w',
    split_and_convert env self input_csv output_dir arg w
    = (self', w', Return (map (output_file output_dir) (seq 0 k)))
    /\ (forall i, i < k ->
          files w' !! output_file output_dir i
          = Some (ParquetFile {| pq_columns := csv_header c;
                                 pq_index := None;
                                 pq_rows := slice n i rows |})).
Proof.
  intros Hmk Hfile Hdec Hdisk self' n rows k.
  destruct (complete_run env self input_csv output_dir arg w c Hmk Hfile Hdec Hdisk)
    as (dfs & w0 & w' & Hit & Hrun & Hfiles & _).
  fold self' in Hit, Hrun.
  set (nz := rows_per_chunk_of env self' w input_csv (chunk_size_mb self')) in *.
  assert (1000 <= nz)%Z as Hn by apply rows_per_chunk_of_floor.
  set (reader := {| tfr_columns := csv_header c; tfr_on_bad_lines := OnBadSkip;
                    tfr_chunksize := Z.to_N nz; tfr_pos := 0; tfr_first := true;
                    tfr_rest := csv_lines c |}) in *.
  destruct (iterate_slices reader eq_refl) as (dfs' & Hit' & Hlen & Hrows);
    [simpl; lia | exact Hdec |].
  rewrite Hit in Hit'. apply map_Return_inj in Hit'. subst dfs'.
  simpl in Hlen, Hrows. rewrite Z_N_nat in Hlen, Hrows.
  fold n in Hlen, Hrows. fold rows in Hlen, Hrows.
  assert (length dfs = k) as Hk by (rewrite Hlen; unfold k, chunk_count; now destruct rows).
  pose proof (iterate_chunks reader) as Hcols.
  rewrite Hit, returned_map_Return in Hcols.
  exists w'. rewrite Hk in Hrun. split; [exact Hrun|].
  intros i Hi. destruct (lookup_lt_is_Some_2 dfs i) as [df Hdf]; [lia|].
  rewrite Hfiles.
  pose proof (store_all_lookup output_dir dfs 0 w i df Hdf) as Hl.
  simpl in Hl. rewrite Hl. unfold encode_parquet.
  rewrite (Hrows i df Hdf).
  rewrite Forall_forall in Hcols.
  destruct (Hcols df) as [Hc _]; [eapply list_elem_of_lookup_2; eauto|].
  now rewrite Hc.
Qed.

(** 25000 records at 10000 records per segment: three segments of
    10000, 10000 and 5000 records. *)
Lemma X1_witness :
  let env := demo_env (fun _ => None) in
  let w := demo_world rows_25000 in
  let n := Z.to_nat (rows_per_chunk_of env self_10000 w demo_input
                       (chunk_size_mb self_10000)) in
  let rows := good_rows (csv_lines csv_25000) in
  let k := chunk_count n rows in
  (n = N.to_nat 10000 /\ k = 3
   /\ map (fun i => N.of_nat (length (slice n i rows))) (seq 0 k)
      = [10000; 10000; 5000]%N)
  /\ exists w',
       split_and_convert env self_10000 demo_input demo_dir None w
       = (self_10000, w', Return (map (output_file demo_dir) (seq 0 k)))
       /\ (forall i, i < k ->
             files w' !! output_file demo_dir i
             = Some (ParquetFile {| pq_columns := csv_header csv_25000;
                                    pq_index := None;
                                    pq_rows := slice n i rows |})).
Proof.
  intros env w n rows k. split.
  - vm_compute. auto.
  - apply (X1_segments_are_slices env self_10000 demo_input demo_dir None w
             csv_25000).
    + reflexivity.
    + reflexivity.
    + vm_compute. reflexivity.
    + reflexivity.
Defined.

Lemma math_ceil_div_nat g n :
  0 < n -> math_ceil_div (Z.of_nat g) (Z.of_nat n) = Z.of_nat (ceil_div g n).
Proof.
  intros Hn. unfold math_ceil_div, ceil_div.
  rewrite Nat2Z.inj_div, Nat2Z.inj_sub, Nat2Z.inj_add by lia.
  set (a := Z.of_nat g). set (b := Z.of_nat n).
  assert (0 <= a)%Z by lia. assert (0 < b)%Z by lia.
  pose proof (Z.div_mod (a + b - 1) b) as H1.
  pose proof (Z.mod_pos_bound (a + b - 1) b) as H2.
  set (q := ((a + b - 1) / b)%Z) in *.
  assert (- a / b = - q)%Z as ->; [|lia].
  symmetry. apply (Z.div_unique_pos _ _ _ (q * b - a)); nia.
Qed.

(** X2.  On an input without bad lines (every line is a record, at
    least one), in an environment that stores every write, the number
    of chunks the call announces is the number of files it then
    reports: it prints the total, the input, the estimate,
    [Expected number of chunks: K], [Created K files] and one line per
    file, after at most one message of the estimator. *)
Theorem X2_announced_count_is_met (env : Env) self input_csv output_dir arg w c :
  mkdir_ok env output_dir = true ->
  files w !! input_csv = Some (CsvFile c) ->
  forallb is_row (csv_lines c) = true ->
  csv_lines c <> [] ->
  (forall fs p pq, disk env fs p pq = Stored) ->
  let self' := with_override self arg in
  let n := rows_per_chunk_of env self' w input_csv (chunk_size_mb self') in
  let g := length (csv_lines c) in
  let k := ceil_div g (Z.to_nat n) in
  exists w' estimator,
    split_and_convert env self input_csv output_dir arg w
    = (self', w', Return (map (output_file output_dir) (seq 0 k)))
    /\ (estimator = [] \/ exists e, estimator = [ErrorEstimating e])
    /\ stdout w'
       = (stdout w ++ estimator
          ++ [TotalRows (Z.of_nat g); Processing input_csv; EstimatedRows n;
              ExpectedChunks (Z.of_nat k); CreatedCount k]
          ++ created_lines env (files w')
               (map (output_file output_dir) (seq 0 k)))%list.
Proof.
  intros Hmk Hfile Hrows Hne Hdisk self' n g k.
  assert (forallb decodable (csv_lines c) = true) as Hdec.
  { clear -Hrows. induction (csv_lines c) as [|[r| |] tl IH]; simpl in *;
      try discriminate; auto. }
  assert (good_rows (csv_lines c) = map (fun l => match l with Row r => r | _ => [] end)
                                        (csv_lines c)) as Hgood.
  { clear -Hrows. induction (csv_lines c) as [|[r| |] tl IH]; simpl in *;
      try discriminate; [reflexivity | now rewrite IH]. }
  destruct (complete_run env self input_csv output_dir arg w c Hmk Hfile Hdec Hdisk)
    as (dfs & w0 & w' & Hit & Hrun & Hfiles & Hw0 & Hout).
  fold self' in Hit, Hrun, Hw0. fold n in Hit, Hw0.
  assert (1000 <= n)%Z as Hn by apply rows_per_chunk_of_floor.
  set (reader := {| tfr_columns := csv_header c; tfr_on_bad_lines := OnBadSkip;
                    tfr_chunksize := Z.to_N n; tfr_pos := 0; tfr_first := true;
                    tfr_rest := csv_lines c |}) in *.
  destruct (iterate_slices reader eq_refl) as (dfs' & Hit' & Hlen & _);
    [simpl; lia | exact Hdec |].
  rewrite Hit in Hit'. apply map_Return_inj in Hit'. subst dfs'.
  simpl in Hlen. rewrite Z_N_nat, Hgood in Hlen.
  assert (length dfs = k) as Hk.
  { rewrite Hlen, length_map. fold g. unfold k.
    destruct (csv_lines c); [contradiction | reflexivity]. }
  rewrite Hk in Hrun, Hout.
  unfold get_total_rows in Hw0.
  rewrite (get_total_rows_try_all_rows w input_csv c Hfile Hrows) in Hw0.
  fold g in Hw0.
  unfold estimate_rows_per_chunk in Hw0.
  assert (0 < g) as Hg by (unfold g; destruct (csv_lines c); [contradiction | simpl; lia]).
  assert (forall w1, announce input_csv (Some (Z.of_nat g)) n w1
          = print (ExpectedChunks (Z.of_nat k))
              (print (EstimatedRows n)
                 (print (Processing input_csv)
                    (print (TotalRows (Z.of_nat g)) w1)))) as Hann.
  { intros w1.
    assert (math_ceil_div (Z.of_nat g) n = Z.of_nat k) as Hc.
    { replace n with (Z.of_nat (Z.to_nat n)) at 1 by lia.
      apply math_ceil_div_nat. lia. }
    assert (k <> 0) as Hk0.
    { unfold k, ceil_div. intros E. apply Nat.div_small_iff in E; lia. }
    unfold announce, truthy. rewrite Hc.
    destruct (Z.eqb_spec (Z.of_nat g) 0) as [E|_]; [lia|]. simpl.
    destruct (Z.eqb_spec (Z.of_nat k) 0) as [E|_]; [lia|].
    reflexivity. }
  clearbody n.
  destruct (estimate_rows_per_chunk_try env self' w input_csv (chunk_size_mb self'))
    as [m|e]; rewrite Hann in Hw0.
  - exists w', []. split; [exact Hrun|]. split; [now left|].
    rewrite Hout, Hw0. simpl. rewrite <- !app_assoc. reflexivity.
  - exists w', [ErrorEstimating e]. split; [exact Hrun|]. split; [eauto|].
    rewrite Hout, Hw0. simpl. rewrite <- !app_assoc. reflexivity.
Qed.

Lemma X2_witness :
  let env := demo_env (fun _ => None) in
  let w := demo_world rows_1001 in
  let n := rows_per_chunk_of env demo_self w demo_input (chunk_size_mb demo_self) in
  let g := length (csv_lines csv_1001) in
  let k := ceil_div g (Z.to_nat n) in
  exists w' estimator,
    split_and_convert env demo_self demo_input demo_dir None w
    = (demo_self, w', Return (map (output_file demo_dir) (seq 0 k)))
    /\ (estimator = [] \/ exists e, estimator = [ErrorEstimating e])
    /\ stdout w'
       = (stdout w ++ estimator
          ++ [TotalRows (Z.of_nat g); Processing demo_input; EstimatedRows n;
              ExpectedChunks (Z.of_nat k); CreatedCount k]
          ++ created_lines env (files w')
               (map (output_file demo_dir) (seq 0 k)))%list.
Proof.
  intros env w n g k.
  apply (X2_announced_count_is_met env demo_self demo_input demo_dir None w csv_1001).
  - reflexivity.
  - reflexivity.
  - vm_compute. reflexivity.
  - discriminate.
  - reflexivity.
Defined.

(** X3.  An input with a header row and no data line still gives one
    segment: [chunk_0000.parquet], with the columns of the header and
    no record. *)
Theorem X3_header_alone_gives_one_empty_segment
    (env : Env) self input_csv output_dir arg w c :
  mkdir_ok env output_dir = true ->
  files w !! input_csv = Some (CsvFile c) ->
  csv_lines c = [] ->
  (forall fs p pq, disk env fs p pq = Stored) ->
  exists w',
    split_and_convert env self input_csv output_dir arg w
    = (with_override self arg, w', Return [output_file output_dir 0])
    /\ path_name (output_file output_dir 0) = "chunk_0000.parquet"
    /\ files w' !! output_file output_dir 0
       = Some (ParquetFile {| pq_columns := csv_header c; pq_index := None;
                              pq_rows := [] |}).
Proof.
  intros Hmk Hfile Hlines Hdisk.
  assert (forallb decodable (csv_lines c) = true) as Hdec by now rewrite Hlines.
  assert (good_rows (csv_lines c) = []) as Hgood by now rewrite Hlines.
  destruct (complete_run env self input_csv output_dir arg w c Hmk Hfile Hdec Hdisk)
    as (dfs & w0 & w' & Hit & Hrun & Hfiles & _).
  set (self' := with_override self arg) in *.
  set (n := rows_per_chunk_of env self' w input_csv (chunk_size_mb self')) in *.
  assert (1000 <= n)%Z as Hn by apply rows_per_chunk_of_floor.
  set (reader := {| tfr_columns := csv_header c; tfr_on_bad_lines := OnBadSkip;
                    tfr_chunksize := Z.to_N n; tfr_pos := 0; tfr_first := true;
                    tfr_rest := csv_lines c |}) in *.
  destruct (iterate_slices reader eq_refl) as (dfs' & Hit' & Hlen & Hrows);
    [simpl; lia | exact Hdec |].
  rewrite Hit in Hit'. apply map_Return_inj in Hit'. subst dfs'.
  simpl in Hlen, Hrows. rewrite Hgood in Hlen, Hrows.
  destruct dfs as [|df [|df' dfs]]; try discriminate.
  pose proof (iterate_chunks reader) as Hcols.
  rewrite Hit in Hcols. simpl in Hcols. apply Forall_cons in Hcols as [[Hc _] _].
  exists w'. split; [exact Hrun|]. split; [apply path_name_join|].
  rewrite Hfiles. simpl. rewrite lookup_insert_eq. unfold encode_parquet.
  rewrite Hc, (Hrows 0 df eq_refl). unfold slice. now rewrite drop_nil, take_nil.
Qed.

Lemma X3_witness :
  exists w',
    split_and_convert (demo_env (fun _ => None)) demo_self demo_input demo_dir
      None (demo_world [])
    = (with_override demo_self None, w', Return [output_file demo_dir 0])
    /\ path_name (output_file demo_dir 0) = "chunk_0000.parquet"
    /\ files w' !! output_file demo_dir 0
       = Some (ParquetFile {| pq_columns := csv_header (demo_csv []);
                              pq_index := None; pq_rows := [] |}).
Proof.
  apply (X3_header_alone_gives_one_empty_segment (demo_env (fun _ => None))
           demo_self demo_input demo_dir None (demo_world []) (demo_csv []));
    reflexivity.
Defined.

(** X4.  A call changes no file other than those at the paths
    [output_dir/chunk_<i>.parquet]: when it returns [K] paths, every
    file at another path, and every segment file with a number above
    [K] (left by an earlier run), is as it was before the call; when
    it raises, nothing at all has changed. *)
Theorem X4_other_files_are_untouched (env : Env) self input_csv output_dir arg w :
  let '(_, w', res) := split_and_convert env self input_csv output_dir arg w in
  match res with
  | Return created =>
      forall p, (forall i, i <= length created -> p <> output_file output_dir i) ->
                files w' !! p = files w !! p
  | Raise _ => w' = w
  end.
Proof.
  destruct (mkdir_ok env output_dir) eqn:Hmk.
  2:{ now rewrite split_and_convert_no_directory. }
  destruct (split_and_convert_spec env self input_csv output_dir arg w Hmk)
    as (w' & created & -> & Hspec).
  destruct (read_csv_chunks _ _ _ _) as [reader|e].
  - destruct Hspec as (dfs & rest & _ & -> & _ & Hframe & _).
    rewrite length_map, length_seq. exact Hframe.
  - destruct Hspec as (-> & Hf & _). intros p _. now rewrite Hf.
Qed.

Lemma estimate_try_lookup (env : Env) self w1 w2 p size :
  files w1 !! p = files w2 !! p ->
  estimate_rows_per_chunk_try env self w1 p size
  = estimate_rows_per_chunk_try env self w2 p size.
Proof.
  intros H. unfold estimate_rows_per_chunk_try, read_csv_nrows, open_csv.
  now rewrite H.
Qed.

Lemma store_all_again dir dfs w w1 :
  files w1 = files (store_all dir dfs 0 w) ->
  files (store_all dir dfs 0 w1) = files w1.
Proof.
  intros H. apply map_eq. intros p.
  destruct (decide (p ∈ map (output_file dir) (seq 0 (length dfs)))) as [Hin|Hout].
  - apply list_elem_of_In, in_map_iff in Hin as (i & <- & Hi). apply in_seq in Hi.
    destruct (lookup_lt_is_Some_2 dfs i) as [df Hdf]; [lia|].
    pose proof (store_all_lookup dir dfs 0 w1 i df Hdf) as H1.
    pose proof (store_all_lookup dir dfs 0 w i df Hdf) as H2.
    simpl in H1, H2. now rewrite H1, H, H2.
  - apply store_all_frame. intros i Hi ->. apply Hout.
    apply list_elem_of_In, in_map_iff. exists i. split; [reflexivity|].
    apply in_seq. lia.
Qed.

(** X5.  Converting the same input into the same directory a second
    time, on the same instance and without override, returns the same
    list and leaves every file as the first call left it (the input is
    not itself one of the segment paths, every line decodes and every
    write is stored). *)
Theorem X5_second_run_changes_nothing
    (env : Env) self input_csv output_dir arg w c :
  mkdir_ok env output_dir = true ->
  files w !! input_csv = Some (CsvFile c) ->
  forallb decodable (csv_lines c) = true ->
  (forall fs p pq, disk env fs p pq = Stored) ->
  (forall i, input_csv <> output_file output_dir i) ->
  let '(self1, w1, res1) := split_and_convert env self input_csv output_dir arg w in
  let '(self2, w2, res2) := split_and_convert env self1 input_csv output_dir None w1 in
  res2 = res1 /\ files w2 = files w1 /\ self2 = self1.
Proof.
  intros Hmk Hfile Hdec Hdisk Hin.
  destruct (complete_run env self input_csv output_dir arg w c Hmk Hfile Hdec Hdisk)
    as (dfs & w0 & w1 & Hit & -> & Hfiles & _).
  set (self1 := with_override self arg) in *.
  assert (files w1 !! input_csv = Some (CsvFile c)) as Hfile1.
  { rewrite Hfiles, store_all_frame; [exact Hfile|]. intros i _. apply Hin. }
  destruct (complete_run env self1 input_csv output_dir None w1 c Hmk Hfile1 Hdec Hdisk)
    as (dfs2 & w0' & w2 & Hit2 & -> & Hfiles2 & _).
  simpl with_override in Hit2 |- *.
  assert (rows_per_chunk_of env self1 w1 input_csv (chunk_size_mb self1)
          = rows_per_chunk_of env self1 w input_csv (chunk_size_mb self1)) as Hn.
  { unfold rows_per_chunk_of.
    rewrite (estimate_try_lookup env self1 w1 w); [reflexivity | congruence]. }
  rewrite Hn, Hit in Hit2. apply map_Return_inj in Hit2. subst dfs2.
  repeat split. rewrite Hfiles2. now apply (store_all_again _ _ w).
Qed.

Lemma X5_witness :
  let '(self1, w1, res1) :=
    split_and_convert (demo_env (fun _ => None)) demo_self demo_input demo_dir
      None (demo_world rows_3) in
  let '(self2, w2, res2) :=
    split_and_convert (demo_env (fun _ => None)) self1 demo_input demo_dir None w1 in
  res2 = res1 /\ files w2 = files w1 /\ self2 = self1.
Proof.
  apply (X5_second_run_changes_nothing (demo_env (fun _ => None)) demo_self
           demo_input demo_dir None (demo_world rows_3) csv_3).
  - reflexivity.
  - reflexivity.
  - reflexivity.
  - reflexivity.
  - intros i H. discriminate.
Defined.

(** X6.  A target size whose byte count overflows binary64 makes the
    estimate fall back: the budget is an infinity, [int] of the
    quotient raises, and [estimate_rows_per_chunk] prints the error and
    returns the default 10000, which can be less than the estimate for
    a smaller size. *)
Theorem X6_overflowing_size_gives_default
    (env : Env) self w csv_path size sample_df s :
  read_csv_nrows w csv_path 1000 OnBadSkip = Return sample_df ->
  target_bytes self size = Return (S754_infinity s) ->
  exists e,
    (e = OverflowError \/ e = ValueError)
    /\ estimate_rows_per_chunk env self csv_path size w
       = (print (ErrorEstimating e) w, Return 10000%Z).
Proof.
  intros Hread Htarget.
  unfold estimate_rows_per_chunk, estimate_rows_per_chunk_try. rewrite Hread.
  fold (target_bytes self size). rewrite Htarget.
  fold (average_bytes_per_record env sample_df). unfold np_true_divide.
  destruct (average_bytes_per_record env sample_df) as [sa|sa| |sa ma ea]; simpl;
    eauto.
Qed.

(** The largest finite float as a size in MiB gives 10000 records per
    segment, where 1 MiB gives 16350. *)
Lemma X6_witness :
  (exists e,
     (e = OverflowError \/ e = ValueError)
     /\ estimate_rows_per_chunk (demo_env (fun _ => None))
          (init default_chunk_size_mb) demo_input (dyadic (2 ^ 53 - 1) 971)
          (demo_world rows_1000)
        = (print (ErrorEstimating e) (demo_world rows_1000), Return 10000%Z))
  /\ rows_per_chunk_of (demo_env (fun _ => None)) (init default_chunk_size_mb)
       (demo_world rows_1000) demo_input (dyadic 1 0) = 16350%Z.
Proof.
  split; [|vm_compute; reflexivity].
  apply (X6_overflowing_size_gives_default (demo_env (fun _ => None))
           (init default_chunk_size_mb) (demo_world rows_1000) demo_input
           (dyadic (2 ^ 53 - 1) 971)
           {| df_columns := ["id"; "name"]; df_start := 0;
              df_rows := repeat ["7"; "x"] 1000 |} false).
  - vm_compute. reflexivity.
  - vm_compute. reflexivity.
Defined.

Lemma read_rows_prefix pol pre s1 s2 : forall n,
  N.to_nat n <= length (good_rows pre) ->
  match read_rows pol n (pre ++ s1), read_rows pol n (pre ++ s2) with
  | Return (rs1, _), Return (rs2, _) => rs1 = rs2
  | Raise e1, Raise e2 => e1 = e2
  | _, _ => False
  end.
Proof.
  induction pre as [|l pre IH]; intros n Hn; simpl in *.
  - assert (n = 0%N) as -> by lia.
    destruct s1, s2; reflexivity.
  - destruct (n =? 0)%N eqn:En; [reflexivity|]. apply N.eqb_neq in En.
    destruct l as [r| |]; simpl in Hn.
    + specialize (IH (N.pred n)).
      destruct (read_rows pol (N.pred n) (pre ++ s1)) as [[rs1 r1]|e1],
               (read_rows pol (N.pred n) (pre ++ s2)) as [[rs2 r2]|e2];
        try (exfalso; apply IH; lia).
      * f_equal. apply IH. lia.
      * apply IH. lia.
    + destruct pol; [reflexivity|]. now apply IH.
    + reflexivity.
Qed.

(** X7.  The estimate looks at the first 1000 records only: two files
    with the same header that agree up to their 1000th record get the
    same estimate, whatever follows (more records, bad lines, lines
    that do not decode). *)
Theorem X7_estimate_reads_a_prefix
    (env : Env) self w1 w2 p1 p2 c1 c2 pre s1 s2 size :
  files w1 !! p1 = Some (CsvFile c1) ->
  files w2 !! p2 = Some (CsvFile c2) ->
  csv_header c1 = csv_header c2 ->
  csv_lines c1 = (pre ++ s1)%list ->
  csv_lines c2 = (pre ++ s2)%list ->
  1000 <= length (good_rows pre) ->
  rows_per_chunk_of env self w1 p1 size = rows_per_chunk_of env self w2 p2 size.
Proof.
  intros H1 H2 Hh Hl1 Hl2 Hpre.
  unfold rows_per_chunk_of, estimate_rows_per_chunk_try, read_csv_nrows, open_csv.
  rewrite H1, H2, Hh, Hl1, Hl2.
  pose proof (read_rows_prefix OnBadSkip pre s1 s2 1000) as H.
  destruct (read_rows OnBadSkip 1000 (pre ++ s1)) as [[rs1 r1]|e1],
           (read_rows OnBadSkip 1000 (pre ++ s2)) as [[rs2 r2]|e2];
    try (exfalso; apply H; lia).
  - rewrite (H ltac:(lia)). reflexivity.
  - reflexivity.
Qed.

(** Two files that agree on their first 1000 records; the second goes
    on with a line that does not decode. *)
Lemma X7_witness :
  rows_per_chunk_of (demo_env (fun _ => None)) demo_self
    (demo_world (rows_1000 ++ [])) demo_input (dyadic 250 0)
  = rows_per_chunk_of (demo_env (fun _ => None)) demo_self
      (demo_world (rows_1000 ++ [Undecodable; Row ["8"; "y"]])) demo_input
      (dyadic 250 0).
Proof.
  apply (X7_estimate_reads_a_prefix (demo_env (fun _ => None)) demo_self
           (demo_world (rows_1000 ++ []))
           (demo_world (rows_1000 ++ [Undecodable; Row ["8"; "y"]]))
           demo_input demo_input
           (demo_csv (rows_1000 ++ []))
           (demo_csv (rows_1000 ++ [Undecodable; Row ["8"; "y"]]))
           rows_1000 [] [Undecodable; Row ["8"; "y"]] (dyadic 250 0)).
  - reflexivity.
  - reflexivity.
  - reflexivity.
  - reflexivity.
  - reflexivity.
  - unfold rows_1000. rewrite good_rows_repeat, repeat_length. lia.
Defined.

(** ** Properties of the single-file converter and of the batch *)

(** *** Suffixes of file names *)

Lemma rfind_dot_app (s t : string) :
  rfind_dot (s +:+ t)
  = match rfind_dot t with
    | Some i => Some (String.length s + i)
    | None => rfind_dot s
    end.
Proof.
  induction s as [|c s IH].
  - change ("" +:+ t) with t. now destruct (rfind_dot t).
  - change (String c s +:+ t) with (String c (s +:+ t)). simpl. rewrite IH.
    destruct (rfind_dot t); reflexivity.
Qed.

Lemma substring_app_l (s t : string) :
  substring 0 (String.length s) (s +:+ t) = s.
Proof.
  induction s as [|c s IH].
  - change ("" +:+ t) with t. now destruct t.
  - change (String c s +:+ t) with (String c (s +:+ t)). simpl. now rewrite IH.
Qed.

Lemma substring_all (t : string) : substring 0 (String.length t) t = t.
Proof. induction t as [|d t IH]; simpl; [|rewrite IH]; reflexivity. Qed.

Lemma substring_app_r (s t : string) :
  substring (String.length s) (String.length t) (s +:+ t) = t.
Proof.
  induction s as [|c s IH].
  - apply substring_all.
  - change (String c s +:+ t) with (String c (s +:+ t)). simpl. exact IH.
Qed.

Lemma substring_split (n : nat) (s : string) :
  n <= String.length s ->
  substring 0 n s +:+ substring n (String.length s - n) s = s.
Proof.
  revert n. induction s as [|c s IH]; intros [|n] Hn; simpl in *; try lia.
  - reflexivity.
  - change ("" +:+ String c (substring 0 (String.length s) s))
      with (String c (substring 0 (String.length s) s)).
    now rewrite substring_all.
  - change (String c (substring 0 n s) +:+ substring n (String.length s - n) s)
      with (String c (substring 0 n s +:+ substring n (String.length s - n) s)).
    f_equal. apply IH. lia.
Qed.

Lemma substring_length (n m : nat) (s : string) :
  n + m <= String.length s -> String.length (substring n m s) = m.
Proof.
  revert n m. induction s as [|c s IH]; intros [|n] [|m] H; simpl in *;
    try lia; try reflexivity.
  - f_equal. apply IH. lia.
  - apply IH. lia.
  - apply IH. lia.
Qed.

Lemma rfind_dot_bound name i : rfind_dot name = Some i -> i < String.length name.
Proof.
  revert i. induction name as [|c s IH]; intros i; simpl; [discriminate|].
  destruct (rfind_dot s) as [j|].
  - intros [= <-]. specialize (IH j eq_refl). lia.
  - destruct (Ascii.eqb c "."); [intros [= <-]; lia | discriminate].
Qed.

(** A file name is its stem followed by its suffix. *)
Lemma stem_suffix name : stem name +:+ suffix name = name.
Proof.
  unfold stem. destruct (String.eqb_spec (suffix name) "") as [E|E].
  - rewrite E. clear. induction name as [|c s IH]; [reflexivity|].
    change (String c s +:+ "") with (String c (s +:+ "")). now rewrite IH.
  - unfold suffix in *. destruct (rfind_dot name) as [i|] eqn:Ei; [|contradiction].
    destruct (Nat.ltb 0 i && Nat.ltb i (String.length name - 1)); [|contradiction].
    apply rfind_dot_bound in Ei.
    rewrite substring_length by lia.
    replace (String.length name - (String.length name - i)) with i by lia.
    apply substring_split. lia.
Qed.

Lemma stem_nonempty name : name <> "" -> stem name <> "".
Proof.
  intros Hne. unfold stem. destruct (String.eqb_spec (suffix name) "") as [E|E];
    [exact Hne|].
  unfold suffix in *. destruct (rfind_dot name) as [i|] eqn:Ei; [|contradiction].
  destruct (Nat.ltb 0 i) eqn:E0; [|contradiction].
  destruct (Nat.ltb i (String.length name - 1)) eqn:E1; [|contradiction].
  apply Nat.ltb_lt in E0, E1. cbn [andb] in *.
  pose proof (rfind_dot_bound _ _ Ei) as Hi.
  rewrite substring_length by lia.
  replace (String.length name - (String.length name - i)) with i by lia.
  intros H. apply (f_equal String.length) in H.
  rewrite substring_length in H by lia. simpl in H. lia.
Qed.

Lemma suffix_of_parquet base : base <> "" -> suffix (base +:+ ".parquet") = ".parquet".
Proof.
  intros Hne. unfold suffix. rewrite rfind_dot_app. simpl rfind_dot. cbv iota beta.
  rewrite Nat.add_0_r, string_length_app. simpl String.length.
  assert (0 < String.length base) as Hlen by (destruct base; [contradiction | simpl; lia]).
  destruct (Nat.ltb_spec 0 (String.length base)); [|lia].
  destruct (Nat.ltb_spec (String.length base) (String.length base + 8 - 1)); [|lia].
  simpl andb. cbv iota.
  replace (String.length base + 8 - String.length base) with (String.length ".parquet")
    by (simpl; lia).
  apply substring_app_r.
Qed.

Lemma suffix_of_csv s : suffix (s +:+ ".csv") = if String.eqb s "" then "" else ".csv".
Proof.
  unfold suffix. rewrite rfind_dot_app. simpl rfind_dot. cbv iota beta.
  rewrite Nat.add_0_r, string_length_app. simpl String.length.
  destruct s as [|c s]; [reflexivity|].
  change (String.eqb (String c s) "") with false. cbv iota.
  set (b := String c s).
  assert (0 < String.length b) as Hlen by (simpl; lia).
  destruct (Nat.ltb_spec 0 (String.length b)); [|lia].
  destruct (Nat.ltb_spec (String.length b) (String.length b + 4 - 1)); [|lia].
  simpl andb. cbv iota.
  replace (String.length b + 4 - String.length b) with (String.length ".csv")
    by (simpl; lia).
  apply substring_app_r.
Qed.

(** [with_suffix] puts the new suffix after the stem of the name. *)
Lemma with_suffix_stem p new_suffix :
  path_name p <> "" ->
  with_suffix p new_suffix
  = Return (removelast p ++ [stem (path_name p) +:+ new_suffix])%list.
Proof.
  intros Hne. unfold with_suffix, stem.
  destruct (String.eqb_spec (path_name p) ""); [contradiction|].
  now destruct (String.eqb (suffix (path_name p)) "").
Qed.

Lemma with_suffix_no_name p new_suffix :
  path_name p = "" -> with_suffix p new_suffix = Raise ValueError.
Proof. intros H. unfold with_suffix. now rewrite H. Qed.

(** *** Reading a whole file *)

Lemma read_all_rows ls :
  forallb is_row ls = true -> read_all OnBadError ls = Return (good_rows ls).
Proof.
  induction ls as [|[r| |] tl IH]; simpl; intros H; try discriminate.
  - reflexivity.
  - now rewrite IH.
Qed.

Lemma read_all_not_rows ls :
  forallb is_row ls = false ->
  exists e, read_all OnBadError ls = Raise e
            /\ (e = ParserError \/ e = UnicodeDecodeError).
Proof.
  induction ls as [|[r| |] tl IH]; simpl; intros H; try discriminate.
  - destruct (IH H) as (e & -> & He). eauto.
  - eauto.
  - eauto.
Qed.

Lemma read_all_return ls rs :
  read_all OnBadError ls = Return rs ->
  forallb is_row ls = true /\ rs = good_rows ls.
Proof.
  intros H. destruct (forallb is_row ls) eqn:E.
  - rewrite (read_all_rows ls E) in H. now inversion H.
  - destruct (read_all_not_rows ls E) as (e & He & _). congruence.
Qed.

Lemma read_csv_return w input_path df :
  read_csv w input_path = Return df ->
  exists c, files w !! input_path = Some (CsvFile c)
            /\ forallb is_row (csv_lines c) = true /\ df = frame_of c.
Proof.
  unfold read_csv, open_csv.
  destruct (files w !! input_path) as [[c|pq|]|]; try discriminate.
  destruct (read_all OnBadError (csv_lines c)) as [rs|e] eqn:E; [|discriminate].
  intros [= <-]. apply read_all_return in E as [E ->]. now exists c.
Qed.

(** *** One conversion *)

Lemma convert_unfold env input_path output_path w :
  convert_csv_to_parquet env input_path output_path w
  = match read_csv w input_path with
    | Raise e => (w, ErrorConverting input_path e)
    | Return df =>
        match output_path_of input_path output_path with
        | Raise e => (w, ErrorConverting input_path e)
        | Return out =>
            match mkdir env (dirname_or_dot out) with
            | Raise e => (w, ErrorConverting input_path e)
            | Return _ =>
                match disk env (files w) out (encode_parquet df false) with
                | Stored =>
                    ({| files := <[out := ParquetFile (encode_parquet df false)]> (files w);
                        stdout := stdout w |}, Converted out)
                | Refused e => (w, ErrorConverting input_path e)
                | Torn e =>
                    ({| files := <[out := PartialFile]> (files w);
                        stdout := stdout w |}, ErrorConverting input_path e)
                end
            end
        end
    end.
Proof.
  unfold convert_csv_to_parquet, output_path_of, to_parquet.
  destruct (read_csv w input_path) as [df|e]; [|reflexivity].
  destruct output_path as [p|].
  - destruct (mkdir env (dirname_or_dot p)); [|reflexivity].
    now destruct (disk env (files w) p (encode_parquet df false)).
  - destruct (with_suffix input_path ".parquet") as [p|e]; [|reflexivity].
    destruct (mkdir env (dirname_or_dot p)); [|reflexivity].
    now destruct (disk env (files w) p (encode_parquet df false)).
Qed.

(** A conversion prints nothing and writes at most at its output path. *)
Lemma convert_files env input_path output_path w w' r :
  convert_csv_to_parquet env input_path output_path w = (w', r) ->
  stdout w' = stdout w
  /\ (files w' = files w
      \/ exists out nd, output_path_of input_path output_path = Return out
                        /\ files w' = <[out := nd]> (files w)).
Proof.
  rewrite convert_unfold.
  destruct (read_csv w input_path) as [df|e]; [|intros [= <- _]; auto].
  destruct (output_path_of input_path output_path) as [out|e];
    [|intros [= <- _]; auto].
  destruct (mkdir env (dirname_or_dot out)); [|intros [= <- _]; auto].
  destruct (disk env (files w) out (encode_parquet df false));
    intros [= <- _]; simpl; (split; [reflexivity|]); [|now left|];
    right; eexists _, _; split; reflexivity.
Qed.

Lemma path_name_snoc (dir : path) name : path_name (dir ++ [name])%list = name.
Proof. unfold path_name. apply last_last. Qed.

Lemma path_name_app (dir rel : path) :
  rel <> [] -> path_name (dir ++ rel)%list = path_name rel.
Proof.
  intros H. destruct (exists_last H) as (l & a & ->).
  rewrite app_assoc. now rewrite !path_name_snoc.
Qed.

(** The name [with_suffix] gives has the new suffix. *)
Lemma with_suffix_parquet p out :
  with_suffix p ".parquet" = Return out ->
  out <> [] /\ suffix (path_name out) = ".parquet".
Proof.
  intros H. destruct (String.eqb_spec (path_name p) "") as [E|E].
  - rewrite with_suffix_no_name in H by exact E. discriminate.
  - rewrite with_suffix_stem in H by exact E. injection H as <-. split.
    + now destruct (removelast p).
    + rewrite path_name_snoc. apply suffix_of_parquet. now apply stem_nonempty.
Qed.

Lemma stem_of_csv base : base <> "" -> stem (base +:+ ".csv") = base.
Proof.
  intros H. pose proof (stem_suffix (base +:+ ".csv")) as E.
  rewrite suffix_of_csv in E. destruct (String.eqb_spec base ""); [contradiction|].
  now apply string_app_inv_tail in E.
Qed.

Lemma convert_keeps env input_path output_path w w' r p :
  convert_csv_to_parquet env input_path output_path w = (w', r) ->
  (forall out, output_path_of input_path output_path = Return out -> out <> p) ->
  files w' !! p = files w !! p.
Proof.
  intros H Hp. apply convert_files in H as [_ [-> | (out & nd & Ho & ->)]];
    [reflexivity|].
  apply lookup_insert_ne. now apply Hp.
Qed.

(** X8.  What [convert_csv_to_parquet] returns is the path of a file it
    has just written in full: the input was a CSV file all of whose
    lines are records, the file at the returned path holds the header's
    columns and every record in order without an index column, reading
    it back gives the whole input, no other file changed, nothing was
    printed, and the path is the one asked for or else the input's with
    its suffix replaced. *)
Theorem X8_converted_file_holds_the_input
    (env : Env) input_path output_path w w' out :
  convert_csv_to_parquet env input_path output_path w = (w', Converted out) ->
  exists c,
    files w !! input_path = Some (CsvFile c)
    /\ forallb is_row (csv_lines c) = true
    /\ files w' = <[out := ParquetFile {| pq_columns := csv_header c;
                                          pq_index := None;
                                          pq_rows := good_rows (csv_lines c) |}]>
                    (files w)
    /\ stdout w' = stdout w
    /\ read_parquet w' out = Return (frame_of c)
    /\ output_path_of input_path output_path = Return out.
Proof.
  rewrite convert_unfold.
  destruct (read_csv w input_path) as [df|e] eqn:Er; [|discriminate].
  apply read_csv_return in Er as (c & Hc & Hrows & ->).
  destruct (output_path_of input_path output_path) as [o|e]; [|discriminate].
  destruct (mkdir env (dirname_or_dot o)); [|discriminate].
  destruct (disk env (files w) o (encode_parquet (frame_of c) false));
    [|discriminate|discriminate].
  intros [= <- <-]. exists c. simpl.
  split; [exact Hc|]. split; [exact Hrows|]. split; [reflexivity|].
  split; [reflexivity|]. split; [|reflexivity].
  unfold read_parquet. simpl. rewrite lookup_insert_eq. simpl.
  now rewrite (csv_distinct c).
Qed.

Lemma X8_witness :
  exists c,
    files (demo_world rows_3) !! demo_input = Some (CsvFile c)
    /\ forallb is_row (csv_lines c) = true
    /\ files (fst (convert_csv_to_parquet (demo_env (fun _ => None)) demo_input
                     None (demo_world rows_3)))
       = <[ ["data"; "in.parquet"] :=
              ParquetFile {| pq_columns := csv_header c; pq_index := None;
                             pq_rows := good_rows (csv_lines c) |}]>
           (files (demo_world rows_3))
    /\ stdout (fst (convert_csv_to_parquet (demo_env (fun _ => None)) demo_input
                      None (demo_world rows_3)))
       = stdout (demo_world rows_3)
    /\ read_parquet (fst (convert_csv_to_parquet (demo_env (fun _ => None)) demo_input
                            None (demo_world rows_3))) ["data"; "in.parquet"]
       = Return (frame_of c)
    /\ output_path_of demo_input None = Return ["data"; "in.parquet"].
Proof.
  apply (X8_converted_file_holds_the_input (demo_env (fun _ => None)) demo_input
           None (demo_world rows_3)).
  reflexivity.
Defined.

(** X9.  The single-file converter is all or nothing on its input: when
    any line of the CSV file is not a well-formed record (a line with
    too many fields, or bytes that do not decode), the conversion raises
    the wrapped error naming the input, whatever output path was asked
    for, and leaves every file and the standard output as they were.
    (The chunked converter skips the lines with too many fields
    instead.) *)
Theorem X9_one_bad_line_fails_the_conversion
    (env : Env) input_path output_path w c :
  files w !! input_path = Some (CsvFile c) ->
  forallb is_row (csv_lines c) = false ->
  exists e,
    convert_csv_to_parquet env input_path output_path w
    = (w, ErrorConverting input_path e)
    /\ (e = ParserError \/ e = UnicodeDecodeError).
Proof.
  intros Hc Hbad. destruct (read_all_not_rows _ Hbad) as (e & He & Hor).
  exists e. split; [|exact Hor].
  rewrite convert_unfold. unfold read_csv, open_csv. now rewrite Hc, He.
Qed.

Lemma X9_witness :
  exists e,
    convert_csv_to_parquet (demo_env (fun _ => None)) demo_input None
      (demo_world rows_100_bad_5)
    = (demo_world rows_100_bad_5, ErrorConverting demo_input e)
    /\ (e = ParserError \/ e = UnicodeDecodeError).
Proof.
  apply (X9_one_bad_line_fails_the_conversion (demo_env (fun _ => None)) demo_input
           None (demo_world rows_100_bad_5)
           (demo_csv rows_100_bad_5)).
  - reflexivity.
  - reflexivity.
Defined.

(** X10.  Without an output path, a file [dir/base.csv] whose lines are
    all records is converted to [dir/base.parquet] next to it, provided
    the directory can be made and the write is stored; the CSV file
    itself is still there afterwards. *)
Theorem X10_default_output_is_beside_the_input
    (env : Env) (dir : path) (base : string) w c :
  base <> "" ->
  files w !! path_join dir (base +:+ ".csv") = Some (CsvFile c) ->
  forallb is_row (csv_lines c) = true ->
  mkdir_ok env (dirname_or_dot (path_join dir (base +:+ ".parquet"))) = true ->
  disk env (files w) (path_join dir (base +:+ ".parquet"))
    (encode_parquet (frame_of c) false) = Stored ->
  exists w',
    convert_csv_to_parquet env (path_join dir (base +:+ ".csv")) None w
    = (w', Converted (path_join dir (base +:+ ".parquet")))
    /\ read_parquet w' (path_join dir (base +:+ ".parquet")) = Return (frame_of c)
    /\ files w' !! path_join dir (base +:+ ".csv") = Some (CsvFile c).
Proof.
  intros Hbase Hc Hrows Hmk Hdisk.
  assert (with_suffix (path_join dir (base +:+ ".csv")) ".parquet"
          = Return (path_join dir (base +:+ ".parquet"))) as Hout.
  { unfold path_join. rewrite with_suffix_stem; rewrite path_name_snoc.
    - now rewrite removelast_last, stem_of_csv.
    - intros E. apply (f_equal String.length) in E.
      rewrite string_length_app in E. simpl in E. lia. }
  exists {| files := <[path_join dir (base +:+ ".parquet")
                         := ParquetFile (encode_parquet (frame_of c) false)]> (files w);
            stdout := stdout w |}.
  rewrite convert_unfold. unfold read_csv, open_csv, output_path_of, mkdir.
  rewrite Hc, (read_all_rows _ Hrows), Hout, Hmk. fold (frame_of c).
  rewrite Hdisk. split; [reflexivity|]. simpl. split.
  - unfold read_parquet. simpl. rewrite lookup_insert_eq. simpl.
    now rewrite (csv_distinct c).
  - rewrite lookup_insert_ne; [exact Hc|].
    unfold path_join. intros E. apply app_inj_tail in E as [_ E].
    apply (f_equal suffix) in E.
    rewrite suffix_of_parquet, suffix_of_csv in E by exact Hbase.
    destruct (String.eqb base ""); discriminate.
Qed.

Lemma X10_witness :
  exists w',
    convert_csv_to_parquet (demo_env (fun _ => None)) (path_join ["data"] ("in" +:+ ".csv"))
      None (demo_world rows_3)
    = (w', Converted (path_join ["data"] ("in" +:+ ".parquet")))
    /\ read_parquet w' (path_join ["data"] ("in" +:+ ".parquet"))
       = Return (frame_of csv_3)
    /\ files w' !! path_join ["data"] ("in" +:+ ".csv") = Some (CsvFile csv_3).
Proof.
  apply (X10_default_output_is_beside_the_input (demo_env (fun _ => None)) ["data"] "in"
           (demo_world rows_3) csv_3).
  - discriminate.
  - reflexivity.
  - reflexivity.
  - reflexivity.
  - reflexivity.
Defined.

(** X11.  A conversion does not overwrite its own input unless the two
    paths coincide: with an explicit output path other than the input,
    or with the default output path when the input's name does not
    already end in the suffix [.parquet], the input file is unchanged
    whether the conversion succeeds or raises. *)
Theorem X11_input_is_not_overwritten
    (env : Env) input_path output_path w w' r :
  match output_path with
  | Some p => p <> input_path
  | None => suffix (path_name input_path) <> ".parquet"
  end ->
  convert_csv_to_parquet env input_path output_path w = (w', r) ->
  files w' !! input_path = files w !! input_path.
Proof.
  intros Hne H. apply (convert_keeps _ _ _ _ _ _ _ H).
  intros out Ho ->. destruct output_path as [p|]; simpl in Ho.
  - now injection Ho.
  - now apply with_suffix_parquet in Ho as [_ Ho].
Qed.

Lemma X11_witness :
  files (fst (convert_csv_to_parquet (demo_env (fun _ => None)) demo_input None
                (demo_world rows_3))) !! demo_input
  = files (demo_world rows_3) !! demo_input.
Proof.
  apply (X11_input_is_not_overwritten (demo_env (fun _ => None)) demo_input None
           (demo_world rows_3) _
           (snd (convert_csv_to_parquet (demo_env (fun _ => None)) demo_input None
                   (demo_world rows_3)))).
  - discriminate.
  - reflexivity.
Defined.

(** *** The batch *)

Lemma relative_to_app (input_dir rel : path) :
  relative_to (input_dir ++ rel)%list input_dir = Return rel.
Proof.
  induction input_dir as [|d dir IH]; simpl.
  - now destruct rel.
  - now rewrite String.eqb_refl.
Qed.

Lemma successes_app l1 l2 : successes (l1 ++ l2) = (successes l1 ++ successes l2)%list.
Proof.
  induction l1 as [|[f p|f i e] l1 IH]; simpl; [reflexivity| |exact IH].
  now rewrite IH.
Qed.

(** The loop over files that lie under the directory searched. *)
Lemma batch_loop_returns (env : Env) input_dir output_dir : forall csv_files conv printed w,
  Forall (under input_dir) csv_files ->
  exists w' printed',
    batch_loop env input_dir output_dir csv_files conv printed w
    = (w', (printed ++ printed')%list, Return (conv ++ successes printed')%list)
    /\ map csv_file_of printed' = csv_files
    /\ stdout w' = stdout w.
Proof.
  induction csv_files as [|f rest IH]; intros conv printed w Hall.
  - exists w, []. simpl. now rewrite !app_nil_r.
  - apply Forall_cons in Hall as [(rel & -> & Hname) Hall].
    assert (exists o,
      match output_dir with
      | Some dir =>
          if given output_dir then
            match relative_to (input_dir ++ rel)%list input_dir with
            | Raise e => Raise e
            | Return rel_path =>
                match with_suffix rel_path ".parquet" with
                | Raise e => Raise e
                | Return rel' => Return (Some (dir ++ rel')%list)
                end
            end
          else Return None
      | None => Return None
      end = Return o) as [o Ho].
    { destruct output_dir as [dir|]; [|eauto].
      destruct (given (Some dir)); [|eauto].
      rewrite relative_to_app, with_suffix_stem by exact Hname. eauto. }
    simpl. rewrite Ho.
    destruct (convert_csv_to_parquet env (input_dir ++ rel)%list o w)
      as [w1 [out|inp e]] eqn:Ec;
      apply convert_files in Ec as [Hs _].
    + destruct (IH (conv ++ [out])%list
                  (printed ++ [SuccessfullyConverted (input_dir ++ rel)%list out])%list
                  w1 Hall) as (w' & printed' & -> & Hm & Hs').
      exists w', (SuccessfullyConverted (input_dir ++ rel)%list out :: printed').
      simpl. rewrite <- !app_assoc. simpl.
      split; [reflexivity|]. split; [now rewrite Hm | congruence].
    + destruct (IH conv
                  (printed ++ [FailedToConvert (input_dir ++ rel)%list inp e])%list
                  w1 Hall) as (w' & printed' & -> & Hm & Hs').
      exists w', (FailedToConvert (input_dir ++ rel)%list inp e :: printed').
      simpl. rewrite <- !app_assoc. simpl.
      split; [reflexivity|]. split; [now rewrite Hm | congruence].
Qed.

(** What the loop writes has the suffix [.parquet]. *)
Lemma batch_loop_keeps (env : Env) input_dir output_dir p :
  suffix (path_name p) <> ".parquet" ->
  forall csv_files conv printed w w' printed' r,
  batch_loop env input_dir output_dir csv_files conv printed w = (w', printed', r) ->
  files w' !! p = files w !! p.
Proof.
  intros Hp. induction csv_files as [|f rest IH]; intros conv printed w w' printed' r.
  - simpl. now intros [= <- _ _].
  - simpl.
    destruct (match output_dir with
              | Some dir =>
                  if given output_dir then
                    match relative_to f input_dir with
                    | Raise e => Raise e
                    | Return rel_path =>
                        match with_suffix rel_path ".parquet" with
                        | Raise e => Raise e
                        | Return rel => Return (Some (dir ++ rel)%list)
                        end
                    end
                  else Return None
              | None => Return None
              end) as [o|e] eqn:Eo; [|now intros [= <- _ _]].
    assert (forall out, output_path_of f o = Return out -> out <> p) as Hout.
    { intros out Ho ->. apply Hp.
      destruct o as [q|]; simpl in Ho.
      - injection Ho as ->.
        destruct output_dir as [dir|]; [|discriminate].
        destruct (given (Some dir)); [|discriminate].
        destruct (relative_to f input_dir) as [rel|]; [|discriminate].
        destruct (with_suffix rel ".parquet") as [rel'|] eqn:Ew; [|discriminate].
        injection Eo as <-. apply with_suffix_parquet in Ew as [Hne Hsuf].
        now rewrite path_name_app.
      - now apply with_suffix_parquet in Ho as [_ Ho]. }
    destruct (convert_csv_to_parquet env f o w) as [w1 [out|inp e]] eqn:Ec;
      intros H; apply IH in H; rewrite H;
      exact (convert_keeps _ _ _ _ _ _ _ Ec Hout).
Qed.

(** X12.  When the files the glob yields lie under the directory searched
    and the output directory, if one is given, can be made, a batch
    does not raise, whatever happens to the single files: it prints
    exactly one line per file, in the order of the glob, and returns
    the Parquet paths of its success lines in that order; a file that
    fails costs its own line only. *)
Theorem X12_batch_reports_every_file
    (env : Env) glob input_dir output_dir w :
  Forall (under input_dir) (glob (files w) input_dir) ->
  (forall dir, output_dir = Some dir -> mkdir_ok env dir = true) ->
  exists w' printed,
    batch_convert_csv_to_parquet env glob input_dir output_dir w
    = (w', printed, Return (successes printed))
    /\ map csv_file_of printed = glob (files w) input_dir
    /\ stdout w' = stdout w.
Proof.
  intros Hall Hmk. unfold batch_convert_csv_to_parquet.
  assert (match output_dir with
          | Some dir => if given output_dir then mkdir env dir else Return tt
          | None => Return tt
          end = Return tt) as ->.
  { destruct output_dir as [dir|]; [|reflexivity].
    destruct (given (Some dir)); [|reflexivity].
    unfold mkdir. now rewrite (Hmk dir eq_refl). }
  destruct (batch_loop_returns env input_dir output_dir _ [] [] w Hall)
    as (w' & printed & -> & Hm & Hs).
  now exists w', printed.
Qed.

Lemma X12_witness :
  exists w' printed,
    batch_convert_csv_to_parquet (demo_env (fun _ => None)) batch_glob ["data"]
      (Some ["out"]) batch_world
    = (w', printed, Return (successes printed))
    /\ map csv_file_of printed = batch_glob (files batch_world) ["data"]
    /\ stdout w' = stdout batch_world.
Proof.
  apply (X12_batch_reports_every_file (demo_env (fun _ => None)) batch_glob ["data"]
           (Some ["out"]) batch_world).
  - repeat constructor.
    + exists ["a.csv"]. split; [reflexivity | discriminate].
    + exists ["sub"; "b.csv"]. split; [reflexivity | discriminate].
  - intros dir _. reflexivity.
Defined.

(** X13.  A batch writes only at paths whose name ends in the suffix
    [.parquet]: every other file, and so every CSV file it converts or
    fails to convert, is after the batch what it was before, with or
    without an output directory and whether or not the batch raises. *)
Theorem X13_batch_writes_parquet_names_only
    (env : Env) glob input_dir output_dir w p :
  suffix (path_name p) <> ".parquet" ->
  files (fst (fst (batch_convert_csv_to_parquet env glob input_dir output_dir w))) !! p
  = files w !! p.
Proof.
  intros Hp. unfold batch_convert_csv_to_parquet.
  destruct (match output_dir with
            | Some dir => if given output_dir then mkdir env dir else Return tt
            | None => Return tt
            end); [|reflexivity].
  destruct (batch_loop env input_dir output_dir (glob (files w) input_dir) [] [] w)
    as [[w' printed] r] eqn:E.
  simpl. exact (batch_loop_keeps env input_dir output_dir p Hp _ _ _ _ _ _ _ E).
Qed.

Lemma X13_witness :
  files (fst (fst (batch_convert_csv_to_parquet (demo_env (fun _ => None)) batch_glob
                     ["data"] None batch_world))) !! ["data"; "a.csv"]
  = files batch_world !! ["data"; "a.csv"].
Proof.
  apply (X13_batch_writes_parquet_names_only (demo_env (fun _ => None)) batch_glob
           ["data"] None batch_world ["data"; "a.csv"]).
  discriminate.
Defined.

(** ** Properties of the viewer *)

(** *** The schema loop *)

Lemma print_schema_spec dtype df : forall columns i printed,
  exists lines,
    print_schema dtype df columns i printed
    = ((printed ++ lines)%list,
       if forallb (labels_one df) columns then None else Some AttributeError).
Proof.
  induction columns as [|column rest IH]; intros i printed; simpl.
  - exists []. now rewrite app_nil_r.
  - destruct (labels_one df column); simpl.
    + destruct (IH (S i)
                  (printed ++ [ColumnDtype column (dtype (column_values df i))])%list)
        as (lines & ->).
      exists (ColumnDtype column (dtype (column_values df i)) :: lines).
      now rewrite <- app_assoc.
    + exists []. now rewrite app_nil_r.
Qed.

Lemma labels_one_NoDup df :
  forallb (labels_one df) (df_columns df) = true <-> NoDup (df_columns df).
Proof.
  rewrite forallb_forall, NoDup_ListNoDup, (NoDup_count_occ' string_dec).
  unfold labels_one.
  split; intros H x Hx; specialize (H x Hx).
  - now apply Nat.eqb_eq.
  - now apply Nat.eqb_eq.
Qed.

Lemma view_parquet_spec dtype w file_path num_rows show_info show_schema :
  match read_parquet w file_path with
  | Raise e =>
      view_parquet dtype w file_path num_rows show_info show_schema
      = ([ErrorReadingParquet (LibraryError e)], None)
  | Return df =>
      exists printed,
        view_parquet dtype w file_path num_rows show_info show_schema
        = if show_schema && negb (forallb (labels_one df) (df_columns df))
          then ((printed ++ [ErrorReadingParquet AttributeError])%list, None)
          else ((printed ++ [FirstRows num_rows; Preview (head df num_rows)])%list,
                Some df)
  end.
Proof.
  unfold view_parquet. destruct (read_parquet w file_path) as [df|e]; [|reflexivity].
  destruct show_schema; simpl.
  - match goal with |- context [print_schema dtype df ?c ?i ?p] =>
      destruct (print_schema_spec dtype df c i p) as (lines & ->) end.
    destruct (forallb (labels_one df) (df_columns df)); simpl; eauto.
  - eauto.
Qed.

(** What [read_parquet] returns has pairwise distinct labels. *)
Lemma read_parquet_distinct w file_path df :
  read_parquet w file_path = Return df -> NoDup (df_columns df).
Proof.
  unfold read_parquet.
  destruct (files w !! file_path) as [[c|pq|]|]; try discriminate.
  destruct (distinct (pq_columns pq)) eqn:E; [|discriminate].
  intros [= <-]. simpl. now apply distinct_NoDup.
Qed.

Lemma view_parquet_returns dtype w file_path num_rows show_info show_schema df :
  read_parquet w file_path = Return df ->
  exists printed,
    view_parquet dtype w file_path num_rows show_info show_schema
    = ((printed ++ [FirstRows num_rows; Preview (head df num_rows)])%list, Some df).
Proof.
  intros Hr.
  pose proof (view_parquet_spec dtype w file_path num_rows show_info show_schema) as H.
  rewrite Hr in H. destruct H as (printed & ->).
  apply read_parquet_distinct, labels_one_NoDup in Hr. rewrite Hr.
  rewrite andb_false_r. eauto.
Qed.


Lemma rows_of_reindexed dfs : rows_of (map reindexed dfs) = rows_of dfs.
Proof. unfold rows_of. rewrite map_map. reflexivity. Qed.

(** X15.  The viewer accepts what the chunked converter produces: after
    a call on an input with distinct column names whose lines all
    decode, in an environment that stores every write, viewing the
    returned segments in order returns a frame for each of them, never
    [None]; each frame has the columns of the header and an index from
    0, and their records, put end to end, are the records of the input,
    each once and in order. *)
Theorem X15_viewer_reads_back_every_segment
    (env : Env) (dtype : list string -> string) self input_csv output_dir arg w c
    num_rows show_info show_schema :
  mkdir_ok env output_dir = true ->
  files w !! input_csv = Some (CsvFile c) ->
  forallb decodable (csv_lines c) = true ->
  (forall fs p pq, disk env fs p pq = Stored) ->
  NoDup (csv_header c) ->
  let '(_, w', res) := split_and_convert env self input_csv output_dir arg w in
  exists paths dfs,
    res = Return paths
    /\ views dtype w' paths num_rows show_info show_schema = map Some dfs
    /\ Forall (fun df => df_columns df = csv_header c /\ df_start df = 0) dfs
    /\ rows_of dfs = good_rows (csv_lines c).
Proof.
  intros Hmk Hfile Hdec Hdisk Hnd.
  destruct (complete_run env self input_csv output_dir arg w c Hmk Hfile Hdec Hdisk)
    as (dfs & w0 & w' & Hit & -> & Hfiles & _).
  set (self' := with_override self arg) in *.
  set (nz := rows_per_chunk_of env self' w input_csv (chunk_size_mb self')) in *.
  assert (1000 <= nz)%Z as Hn by apply rows_per_chunk_of_floor.
  set (reader := {| tfr_columns := csv_header c; tfr_on_bad_lines := OnBadSkip;
                    tfr_chunksize := Z.to_N nz; tfr_pos := 0; tfr_first := true;
                    tfr_rest := csv_lines c |}) in *.
  pose proof (iterate_chunks reader) as Hcols.
  rewrite Hit, returned_map_Return in Hcols.
  destruct (iterate_rows reader eq_refl) as (tail & Hrows & Htail); [simpl; lia|].
  rewrite Hit, returned_map_Return in Hrows.
  rewrite Hit in Htail. rewrite (Htail (is_return_map_Return dfs)), app_nil_r in Hrows.
  exists (map (output_file output_dir) (seq 0 (length dfs))), (map reindexed dfs).
  split; [reflexivity|]. split; [|split].
  - unfold views. rewrite !map_map.
    apply list_eq. intros i. rewrite !list_lookup_fmap.
    destruct (dfs !! i) as [df|] eqn:Hdf.
    + rewrite lookup_seq_lt by (apply lookup_lt_Some in Hdf; exact Hdf). simpl.
      f_equal.
      assert (read_parquet w' (output_file output_dir i) = Return (reindexed df))
        as Hread.
      { unfold read_parquet. rewrite Hfiles.
        pose proof (store_all_lookup output_dir dfs 0 w i df Hdf) as Hl.
        simpl in Hl. rewrite Hl. simpl.
        rewrite Forall_forall in Hcols.
        destruct (Hcols df) as [Hc _]; [eapply list_elem_of_lookup_2; eauto|].
        rewrite Hc. unfold reader, reindexed. simpl.
        now rewrite (csv_distinct c), Hc. }
      destruct (view_parquet_returns dtype w' (output_file output_dir i) num_rows
                  show_info show_schema _ Hread) as (printed & ->).
      reflexivity.
    + rewrite lookup_seq_ge by (apply lookup_ge_None in Hdf; exact Hdf).
      reflexivity.
  - rewrite Forall_forall. intros df Hin.
    apply list_elem_of_fmap in Hin as (df0 & -> & Hin). simpl. split; [|reflexivity].
    rewrite Forall_forall in Hcols. now destruct (Hcols df0 Hin).
  - rewrite rows_of_reindexed. symmetry. exact Hrows.
Qed.

Lemma X15_witness :
  let '(_, w', res) :=
    split_and_convert (demo_env (fun _ => None)) demo_self demo_input demo_dir None
      (demo_world rows_3) in
  exists paths dfs,
    res = Return paths
    /\ views (fun _ => "object") w' paths 5 true true = map Some dfs
    /\ Forall (fun df => df_columns df = csv_header csv_3 /\ df_start df = 0) dfs
    /\ rows_of dfs = good_rows (csv_lines csv_3).
Proof.
  apply (X15_viewer_reads_back_every_segment (demo_env (fun _ => None))
           (fun _ => "object") demo_self demo_input demo_dir None (demo_world rows_3)
           csv_3 5 true true).
  - reflexivity.
  - reflexivity.
  - reflexivity.
  - reflexivity.
  - apply NoDup_cons. split; [|apply NoDup_singleton].
    intros H. apply list_elem_of_singleton in H. discriminate.
Defined.
